(** * Group orders of the selected units: rts/Game/SelectedUnitsAI.cpp

    A shallow embedding of [CSelectedUnitsHandlerAI]: the dispatch of one
    player order over the selected units ([GiveCommandNet]), the group
    geometry ([CalculateGroupData]), the front formation
    ([MakeFormationFrontOrder], [CreateUnitOrder], [MoveToPos]) and the area
    attack ([SelectAttackNet]).

    Conventions of the embedding.
    - [float] is the field of rationals: every operation is exact.  Rounding,
      infinities and NaN of IEEE single precision are outside the model, and
      a division by zero yields 0 here where the machine yields inf or NaN.
      The one comparison whose outcome rests on rounding, the fill ratio of
      the mixing loop against 1, is evaluated on binary32 numbers as well.
    - A [CUnit*] is the unit's id: [units st id] is [unitHandler.GetUnit(id)],
      [None] is the null pointer, and [unit->id] is that id.
    - The calls the handler makes on the units' command AIs are recorded, in
      program order, in the [issued] trace of the state; the command queue of
      a unit is updated through the engine's [cai_GiveCommand].
    - [divisors] and [flushed] are ghost traces: the integer counts by which
      [CalculateGroupData], the spacing of [MakeFormationFrontOrder] and the
      center of [SelectAttackNet] divide, and the formation rows at the
      moment they are closed.  The scratch containers of the handler
      ([sortedUnitPairs], [sortedUnitGroups], [frontMoveCommands],
      [mixedUnitIDs], [mixedGroupSizes], [targetUnitIDs]) are cleared before
      every use and are local values here. *)

From Stdlib Require Import ZArith QArith Qabs List Bool Lia Permutation Sorted SpecFloat.
From Stdlib Require Ascii String.
Import ListNotations.
Local Open Scope Z_scope.

(** ** Numbers *)

Definition float := Q.

(** [a < b] on floats. *)
Definition flt (a b : float) : bool := negb (Qle_bool b a).

(** [a >= b] on floats. *)
Definition fge (a b : float) : bool := Qle_bool b a.

(** [a != b] on floats. *)
Definition fne (a b : float) : bool := negb (Qeq_bool a b).

(** Conversion of an [int] and of a [size_t] to [float]. *)
Definition of_int (i : Z) : float := inject_Z i.
Definition of_size (n : nat) : float := inject_Z (Z.of_nat n).

(** [std::min] and [std::max]. *)
Definition fmin (a b : float) : float := if flt b a then b else a.
Definition fmax (a b : float) : float := if flt a b then b else a.

(** ** float3 (System/float3.h is outside the excerpt; the operators used by
    the handler are written out component by component) *)

Module float3.
Local Open Scope Q_scope.

Record t : Type := mk { x : float; y : float; z : float }.

Definition add (a b : t) : t := mk (x a + x b) (y a + y b) (z a + z b).
Definition sub (a b : t) : t := mk (x a - x b) (y a - y b) (z a - z b).
Definition mul (a b : t) : t := mk (x a * x b) (y a * y b) (z a * z b).
Definition scale (a : t) (f : float) : t := mk (x a * f) (y a * f) (z a * f).
Definition div (a : t) (f : float) : t := mk (x a / f) (y a / f) (z a / f).
Definition neg (a : t) : t := mk (- x a) (- y a) (- z a).
Definition min (a b : t) : t := mk (fmin (x a) (x b)) (fmin (y a) (y b)) (fmin (z a) (z b)).
Definition max (a b : t) : t := mk (fmax (x a) (x b)) (fmax (y a) (y b)) (fmax (z a) (z b)).
Definition cross (a b : t) : t :=
  mk (y a * z b - z a * y b) (z a * x b - x a * z b) (x a * y b - y a * x b).
Definition SqLength2D (a : t) : float := x a * x a + z a * z a.


End float3.

Definition ZeroVector : float3.t := float3.mk 0%Q 0%Q 0%Q.
Definition OnesVector : float3.t := float3.mk 1%Q 1%Q 1%Q.
Definition UpVector : float3.t := float3.mk 0%Q 1%Q 0%Q.
Definition XZVector : float3.t := float3.mk 1%Q 0%Q 1%Q.

(** ** Commands *)

(** Modelled from the spec: the command kinds and the modifier bits are
    declared in Sim/Units/CommandAI/Command.h, which is outside the excerpt.
    The kinds are the ones the spec names (stop, wait, move, patrol, fight,
    attack, fire-state, move-state, self-destruct, speed-match, on-off,
    repeat), pairwise distinct; the modifiers are single bits of the 8-bit
    option mask (queueing, control, alt). *)
Definition CMD_STOP : Z := 0.
Definition CMD_WAIT : Z := 5.
Definition CMD_MOVE : Z := 10.
Definition CMD_PATROL : Z := 15.
Definition CMD_FIGHT : Z := 16.
Definition CMD_ATTACK : Z := 20.
Definition CMD_FIRE_STATE : Z := 45.
Definition CMD_MOVE_STATE : Z := 50.
Definition CMD_SELFD : Z := 65.
Definition CMD_SET_WANTED_MAX_SPEED : Z := 70.
Definition CMD_ONOFF : Z := 85.
Definition CMD_REPEAT : Z := 115.

Definition SHIFT_KEY : Z := 32.
Definition CONTROL_KEY : Z := 64.
Definition ALT_KEY : Z := 128.

Definition CMDPARAM_MOVE_X : nat := 0.
Definition CMDPARAM_MOVE_Y : nat := 1.
Definition CMDPARAM_MOVE_Z : nat := 2.

Record Command : Type := mkCommand {
  cmdID : Z;               (* GetID() *)
  options : Z;             (* unsigned char *)
  params : list float
}.

Definition GetID (c : Command) : Z := cmdID c.
Definition GetParamsCount (c : Command) : nat := length (params c).
Definition GetParam (c : Command) (i : nat) : float := nth i (params c) 0%Q.
Definition GetPos (c : Command) (i : nat) : float3.t :=
  float3.mk (GetParam c i) (GetParam c (i + 1)) (GetParam c (i + 2)).
Definition PushPos (c : Command) (p : float3.t) : Command :=
  mkCommand (cmdID c) (options c)
            (params c ++ [float3.x p; float3.y p; float3.z p]).

(** [Command(id, options, param)] and [Command(id, options, pos)]. *)
Definition Command1 (id opts : Z) (p : float) : Command := mkCommand id opts [p].
Definition CommandPos (id opts : Z) (p : float3.t) : Command :=
  mkCommand id opts [float3.x p; float3.y p; float3.z p].

(** [c.options & KEY], as a condition. *)
Definition has_key (opts key : Z) : bool := negb (Z.land opts key =? 0).

(** [options |= KEY] and [options &= ~KEY]. *)
Definition set_key (opts key : Z) : Z := Z.lor opts key.
Definition clear_key (opts key : Z) : Z := Z.land opts (Z.lnot key).

Definition with_options (c : Command) (o : Z) : Command :=
  mkCommand (cmdID c) o (params c).

(** [c.params[i] = v] and [c.params[i] += d]; an index past the end is not
    written by the handler (its commands carry the parameters it touches). *)
Fixpoint set_nth {A : Type} (i : nat) (v : A) (l : list A) : list A :=
  match l, i with
  | [], _ => []
  | _ :: t, O => v :: t
  | h :: t, S j => h :: set_nth j v t
  end.

Definition param_set (c : Command) (i : nat) (v : float) : Command :=
  mkCommand (cmdID c) (options c) (set_nth i v (params c)).

Definition param_add (c : Command) (i : nat) (d : float) : Command :=
  param_set c i (GetParam c i + d)%Q.

(** ** Units and the engine's collaborators *)

Record UnitDef : Type := mkUnitDef {
  xsize : Z;
  zsize : Z;
  metal : float;
  energy : float;
  health : float
}.

Record CUnit : Type := mkUnit {
  unitDef : UnitDef;
  midPos : float3.t;
  maxRange : float;
  maxSpeed : float;            (* moveType->GetMaxSpeed() *)
  canSetMaxSpeed : bool;       (* commandAI->CanSetMaxSpeed() *)
  commandQue : list Command;   (* commandAI->commandQue *)
  allyteam : Z;
  losStatus : Z -> Z
}.

Definition LOS_INLOS : Z := 1.
Definition LOS_INRADAR : Z := 2.

(** What the handler consumes from the rest of the engine.  None of it is
    part of the excerpt, so it is a parameter of every operation. *)
Record Engine : Type := mkEngine {
  distance : float3.t -> float3.t -> float;          (* float3::distance *)
  ANormalize : float3.t -> float3.t;                 (* float3::ANormalize *)
  math_sqrt : float -> float;                        (* math::sqrt *)
  GetHeightAboveWater : float -> float -> float;     (* CGround *)
  SQUARE_SIZE : Z;
  cai_GiveCommand : list Command -> Command -> bool -> list Command;
  cai_WillCancelQueued : list Command -> Command -> bool;
  netSelected : Z -> list Z;                         (* selectedUnitsHandler *)
  IsValidPlayer : Z -> bool;
  PlayerTeam : Z -> option Z;                        (* Player(p)->team *)
  AllyTeam : Z -> Z;
  GetUnitsExactCircle : float3.t -> float -> list Z; (* quadField, circle *)
  GetUnitsExactRect : float3.t -> float3.t -> list Z;(* quadField, box *)
  myPlayerNum : Z
}.

Inductive Event : Type :=
| EvGive (unitID : Z) (c : Command) (fromSynced : bool)
| EvAcknowledge (c : Command).

(** [typedef std::vector<int> TGroupVect] and
    [typedef std::pair<float, TGroupVect> TGroupPair]. *)
Abbreviation TGroupVect := (list Z) (only parsing).
Abbreviation TGroupPair := (float * list Z)%type (only parsing).

(** A formation row when it is closed: the priority buckets, the destination
    commands, the outcome of the mixing. *)
Record FormationRow : Type := mkRow {
  rowGroups : list TGroupPair;
  rowCommands : list (Z * Command);
  rowMixedUnitIDs : list Z;
  rowMixedGroupSizes : list nat
}.

Record State : Type := mkState {
  units : Z -> option CUnit;
  groupCenterCoor : float3.t;
  groupSumLength : float;
  groupAvgLength : float;
  groupMinMaxSpeed : float;
  formationCenterPos : float3.t;
  formationRightPos : float3.t;
  groupFrontLength : float;
  groupAddedSpace : float;
  issued : list Event;
  divisors : list Z;
  flushed : list FormationRow
}.

Definition set_units (f : Z -> option CUnit) (st : State) : State :=
  mkState f (groupCenterCoor st) (groupSumLength st) (groupAvgLength st)
          (groupMinMaxSpeed st) (formationCenterPos st) (formationRightPos st)
          (groupFrontLength st) (groupAddedSpace st) (issued st) (divisors st)
          (flushed st).

Definition emit (e : Event) (st : State) : State :=
  mkState (units st) (groupCenterCoor st) (groupSumLength st) (groupAvgLength st)
          (groupMinMaxSpeed st) (formationCenterPos st) (formationRightPos st)
          (groupFrontLength st) (groupAddedSpace st) (issued st ++ [e])
          (divisors st) (flushed st).

Definition note_divisor (d : Z) (st : State) : State :=
  mkState (units st) (groupCenterCoor st) (groupSumLength st) (groupAvgLength st)
          (groupMinMaxSpeed st) (formationCenterPos st) (formationRightPos st)
          (groupFrontLength st) (groupAddedSpace st) (issued st)
          (divisors st ++ [d]) (flushed st).

Definition note_row (r : FormationRow) (st : State) : State :=
  mkState (units st) (groupCenterCoor st) (groupSumLength st) (groupAvgLength st)
          (groupMinMaxSpeed st) (formationCenterPos st) (formationRightPos st)
          (groupFrontLength st) (groupAddedSpace st) (issued st) (divisors st)
          (flushed st ++ [r]).

Definition set_group (center : float3.t) (sumLength avgLength minMaxSpeed : float)
  (st : State) : State :=
  mkState (units st) center sumLength avgLength minMaxSpeed
          (formationCenterPos st) (formationRightPos st)
          (groupFrontLength st) (groupAddedSpace st) (issued st) (divisors st)
          (flushed st).

Definition set_formation_points (centerPos rightPos : float3.t) (st : State) : State :=
  mkState (units st) (groupCenterCoor st) (groupSumLength st) (groupAvgLength st)
          (groupMinMaxSpeed st) centerPos rightPos
          (groupFrontLength st) (groupAddedSpace st) (issued st) (divisors st)
          (flushed st).

Definition set_front (frontLength addedSpace : float) (st : State) : State :=
  mkState (units st) (groupCenterCoor st) (groupSumLength st) (groupAvgLength st)
          (groupMinMaxSpeed st) (formationCenterPos st) (formationRightPos st)
          frontLength addedSpace (issued st) (divisors st) (flushed st).

(** [unitHandler.GetUnit(id) != nullptr]. *)
Definition resolves (st : State) (unitID : Z) : bool :=
  match units st unitID with Some _ => true | None => false end.

Definition set_commandQue (q : list Command) (u : CUnit) : CUnit :=
  mkUnit (unitDef u) (midPos u) (maxRange u) (maxSpeed u) (canSetMaxSpeed u) q
         (allyteam u) (losStatus u).

(** [unit->commandAI->GiveCommand(c, fromSynced)].  The handler only calls it
    on a pointer it has resolved; on a null pointer the model does nothing. *)
Definition GiveCommand (E : Engine) (unitID : Z) (c : Command) (fromSynced : bool)
  (st : State) : State :=
  match units st unitID with
  | None => st
  | Some u =>
      let u' := set_commandQue (cai_GiveCommand E (commandQue u) c fromSynced) u in
      emit (EvGive unitID c fromSynced)
           (set_units (fun j => if j =? unitID then Some u' else units st j) st)
  end.

(** [unit->commandAI->WillCancelQueued(c)]. *)
Definition WillCancelQueued (E : Engine) (st : State) (unitID : Z) (c : Command) : bool :=
  match units st unitID with
  | None => false
  | Some u => cai_WillCancelQueued E (commandQue u) c
  end.

(** ** Speed-match orders *)

Definition AddUnitSetMaxSpeedCommandNet (E : Engine) (unitID : Z) (opts : Z)
  (st : State) : State :=
  match units st unitID with
  | None => st
  | Some u =>
      if negb (canSetMaxSpeed u) then st
      else GiveCommand E unitID (Command1 CMD_SET_WANTED_MAX_SPEED opts (maxSpeed u)) true st
  end.

Definition AddGroupSetMaxSpeedCommandNet (E : Engine) (unitID : Z) (opts : Z)
  (st : State) : State :=
  match units st unitID with
  | None => st
  | Some u =>
      if negb (canSetMaxSpeed u) then st
      else GiveCommand E unitID
             (Command1 CMD_SET_WANTED_MAX_SPEED opts (groupMinMaxSpeed st)) true st
  end.

Definition MayRequireSetMaxSpeedCommand (c : Command) : bool :=
  let id := GetID c in
  if (id =? CMD_STOP) || (id =? CMD_WAIT) || (id =? CMD_SELFD)
     || (id =? CMD_FIRE_STATE) || (id =? CMD_MOVE_STATE) || (id =? CMD_ONOFF)
     || (id =? CMD_REPEAT)
  then false else true.

(** ** LastQueuePosition *)

Definition LastQueuePosition (u : CUnit) : float3.t :=
  match find (fun cmd => (3 <=? length (params cmd))%nat) (rev (commandQue u)) with
  | Some cmd => GetPos cmd 0
  | None => midPos u
  end.

Definition unitPosition (queueing : bool) (u : CUnit) : float3.t :=
  if queueing then LastQueuePosition u else midPos u.

(** ** CalculateGroupData *)

Record GroupAcc : Type := mkAcc {
  sumCoor : float3.t;
  minCoor : float3.t;
  maxCoor : float3.t;
  mobileSumCoor : float3.t;
  mobileUnits : Z;
  accSumLength : float;
  accMinMaxSpeed : float
}.

Definition GroupAcc_init : GroupAcc :=
  mkAcc ZeroVector
        (float3.scale OnesVector 100000%Q)
        (float3.scale (float3.neg OnesVector) 100000%Q)
        ZeroVector 0 0%Q 1000000000%Q.

Definition CalculateGroupData_step (st : State) (queueing : bool)
  (acc : GroupAcc) (unitID : Z) : GroupAcc :=
  match units st unitID with
  | None => acc
  | Some unit =>
      let sumLength :=
        (accSumLength acc
         + of_int (xsize (unitDef unit) + zsize (unitDef unit)) * (1 # 2))%Q in
      let unitPos := unitPosition queueing unit in
      let minC := float3.min (minCoor acc) unitPos in
      let maxC := float3.max (maxCoor acc) unitPos in
      let sumC := float3.add (sumCoor acc) unitPos in
      if negb (canSetMaxSpeed unit)
      then mkAcc sumC minC maxC (mobileSumCoor acc) (mobileUnits acc) sumLength
                 (accMinMaxSpeed acc)
      else mkAcc sumC minC maxC (float3.add (mobileSumCoor acc) unitPos)
                 (mobileUnits acc + 1) sumLength
                 (fmin (accMinMaxSpeed acc) (maxSpeed unit))
  end.

Definition CalculateGroupData (E : Engine) (player : Z) (queueing : bool)
  (st : State) : State :=
  let playerUnitIDs := netSelected E player in
  let acc := fold_left (CalculateGroupData_step st queueing) playerUnitIDs GroupAcc_init in
  let size := length playerUnitIDs in
  let st1 := note_divisor (Z.of_nat size) st in
  let avgLength := (accSumLength acc / of_size size)%Q in
  if 0 <? mobileUnits acc
  then set_group (float3.div (mobileSumCoor acc) (of_int (mobileUnits acc)))
                 (accSumLength acc) avgLength (accMinMaxSpeed acc)
                 (note_divisor (mobileUnits acc) st1)
  else set_group (float3.div (sumCoor acc) (of_size size))
                 (accSumLength acc) avgLength (accMinMaxSpeed acc)
                 (note_divisor (Z.of_nat size) st1).

(** ** Stable sorting ([std::stable_sort]): insertion from the right, an
    element stays in front of the ones it is not greater than. *)

Fixpoint stable_insert {A : Type} (lt : A -> A -> bool) (v : A) (l : list A) : list A :=
  match l with
  | [] => [v]
  | h :: t => if lt h v then h :: stable_insert lt v t else v :: l
  end.

Definition stable_sort {A : Type} (lt : A -> A -> bool) (l : list A) : list A :=
  fold_right (stable_insert lt) [] l.

Definition ugPairComp (a b : TGroupPair) : bool := flt (fst a) (fst b).
Definition idPairComp (a b : float * Z) : bool := flt (fst a) (fst b).

(** ** CreateUnitOrder *)

Definition unitPriority (unit : CUnit) : float :=
  let ud := unitDef unit in
  let range := if flt (maxRange unit) 1%Q then 2000%Q else maxRange unit in
  (((metal ud * 60) + energy ud) / health ud * range)%Q.

Fixpoint CreateUnitOrder_collect (st : State) (playerUnitIDs : list Z) : list (float * Z) :=
  match playerUnitIDs with
  | [] => []
  | unitID :: rest =>
      match units st unitID with
      | None => CreateUnitOrder_collect st rest
      | Some unit => (unitPriority unit, unitID) :: CreateUnitOrder_collect st rest
      end
  end.

Definition CreateUnitOrder (E : Engine) (player : Z) (st : State) : list (float * Z) :=
  stable_sort idPairComp (CreateUnitOrder_collect st (netSelected E player)).

(** ** MoveToPos

    [record] stands for [frontcmds != nullptr]; the result is the returned
    corner, the entry emplaced into [*frontcmds] (if any) and [*newline]. *)

Definition MoveToPos (E : Engine) (st : State) (nextCornerPos formationDir : float3.t)
  (unitID : Z) (command : Command) (record : bool)
  : float3.t * option (Z * Command) * bool :=
  let newline :=
    flt (groupFrontLength st) (float3.x nextCornerPos - groupAddedSpace st)%Q in
  let nextCornerPos :=
    if newline
    then float3.mk 0%Q (float3.y nextCornerPos)
           (float3.z nextCornerPos
            - groupAvgLength st * 2 * of_int (SQUARE_SIZE E))%Q
    else nextCornerPos in
  if negb record then (nextCornerPos, None, newline)
  else
    match units st unitID with
    | None => (nextCornerPos, None, newline)
    | Some unit =>
        let unitSize := Z.quot (xsize (unitDef unit) + zsize (unitDef unit)) 2 in
        let retPos :=
          float3.mk (float3.x nextCornerPos + of_int (unitSize * SQUARE_SIZE E * 2)
                     + groupAddedSpace st)%Q 0%Q (float3.z nextCornerPos) in
        let movePos :=
          float3.mk (float3.x nextCornerPos + of_int (unitSize * SQUARE_SIZE E)
                     + groupAddedSpace st)%Q 0%Q (float3.z nextCornerPos) in
        let atCorner := Qeq_bool (float3.x nextCornerPos) 0 in
        let movePos :=
          if atCorner
          then float3.mk (of_int (unitSize * SQUARE_SIZE E)) (float3.y movePos)
                         (float3.z movePos)
          else movePos in
        let retPos :=
          if atCorner
          then float3.mk (float3.x retPos - groupAddedSpace st)%Q (float3.y retPos)
                         (float3.z retPos)
          else retPos in
        let rightPos := formationRightPos st in
        let posx :=
          (float3.x rightPos
           + float3.x movePos * (float3.x formationDir / float3.y formationDir)
           - float3.z movePos * (float3.z formationDir / float3.y formationDir))%Q in
        let posz :=
          (float3.z rightPos
           + float3.x movePos * (float3.z formationDir / float3.y formationDir)
           + float3.z movePos * (float3.x formationDir / float3.y formationDir))%Q in
        let pos := float3.mk posx (GetHeightAboveWater E posx posz) posz in
        (retPos, Some (unitID, CommandPos (GetID command) (options command) pos), newline)
    end.

(** ** The priority buckets of a row *)

(** [std::lower_bound]: the position of the first element that is not less
    than the value (the range is kept ordered by [swap_into_position]). *)
Fixpoint lower_bound {A : Type} (comp : A -> A -> bool) (l : list A) (v : A) : nat :=
  match l with
  | [] => O
  | h :: t => if comp h v then S (lower_bound comp t v) else O
  end.

(** The element emplaced at the back travels to the front while its
    predecessor is not less than it; [rl] is the part in front of it,
    reversed, [passed] the elements it has travelled past. *)
Fixpoint swap_back (rl : list TGroupPair) (e : TGroupPair) (passed : list TGroupPair)
  : list TGroupPair :=
  match rl with
  | [] => e :: passed
  | p :: rl' =>
      if ugPairComp p e then rev rl ++ e :: passed
      else swap_back rl' e (p :: passed)
  end.

Definition swap_into_position (groups : list TGroupPair) (e : TGroupPair)
  : list TGroupPair :=
  swap_back (rev groups) e [].

Definition addUnitToGroups (sortedUnitGroups : list TGroupPair) (suPair : float * Z)
  : list TGroupPair :=
  let suGroupPair : TGroupPair := (fst suPair, []) in
  let suGroupIter := lower_bound ugPairComp sortedUnitGroups suGroupPair in
  match nth_error sortedUnitGroups suGroupIter with
  | None => swap_into_position sortedUnitGroups (fst suPair, [snd suPair])
  | Some g =>
      if fne (fst g) (fst suPair)
      then swap_into_position sortedUnitGroups (fst suPair, [snd suPair])
      else set_nth suGroupIter (fst g, snd g ++ [snd suPair]) sortedUnitGroups
  end.

(** ** Mixing the units of a row *)

Definition groupVal (curGroupSize maxGroupSize : nat) : float :=
  (((1 # 2) + of_size curGroupSize) / (1 * of_size maxGroupSize))%Q.

Definition emptyGroup : TGroupPair := (0%Q, []).

Definition bestGroup_step (sortedUnitGroups : list TGroupPair)
  (mixedGroupSizes : list nat) (best : nat * float) (groupNum : nat) : nat * float :=
  let maxGroupSize := length (snd (nth groupNum sortedUnitGroups emptyGroup)) in
  let curGroupSize := nth groupNum mixedGroupSizes O in
  if (maxGroupSize <=? curGroupSize)%nat then best
  else
    let v := groupVal curGroupSize maxGroupSize in
    if fge v (snd best) then best else (groupNum, v).

Definition bestGroup (sortedUnitGroups : list TGroupPair) (mixedGroupSizes : list nat)
  : nat :=
  fst (fold_left (bestGroup_step sortedUnitGroups mixedGroupSizes)
                 (seq 0 (length sortedUnitGroups)) (O, 1%Q)).

(** One turn of the loop over [j]: the state is [mixedUnitIDs] and
    [mixedGroupSizes].  A read past the end of a bucket is undefined in the
    source; [nth]'s default stands for it. *)
Definition mix_step (sortedUnitGroups : list TGroupPair) (acc : list Z * list nat)
  : list Z * list nat :=
  let bestGroupNum := bestGroup sortedUnitGroups (snd acc) in
  let unitIndex := nth bestGroupNum (snd acc) O in
  let groupUnitIDs := snd (nth bestGroupNum sortedUnitGroups emptyGroup) in
  (fst acc ++ [nth unitIndex groupUnitIDs 0],
   set_nth bestGroupNum (S unitIndex) (snd acc)).

Definition mixUnits (sortedUnitGroups : list TGroupPair) (slots : nat)
  : list Z * list nat :=
  Nat.iter slots (mix_step sortedUnitGroups) ([], repeat O (length sortedUnitGroups)).

Definition issueFrontCommand (E : Engine) (st : State) (a : Z * (Z * Command)) : State :=
  GiveCommand E (fst a) (snd (snd a)) false st.

Definition flushRow (E : Engine) (sortedUnitGroups : list TGroupPair)
  (frontMoveCommands : list (Z * Command)) (st : State) : State :=
  let mixed := mixUnits sortedUnitGroups (length frontMoveCommands) in
  let st1 :=
    note_row (mkRow sortedUnitGroups frontMoveCommands (fst mixed) (snd mixed)) st in
  fold_left (issueFrontCommand E) (combine (fst mixed) frontMoveCommands) st1.

(** ** MakeFormationFrontOrder *)

Definition formationSideDir (centerPos rightPos : float3.t) (frontLength : float)
  : float3.t :=
  float3.add (float3.mul (float3.sub centerPos rightPos) XZVector)
             (float3.scale (float3.scale UpVector frontLength) (1 # 2)).

Definition optCons {A : Type} (l : list A) (o : option A) : list A :=
  match o with Some a => l ++ [a] | None => l end.

Fixpoint frontLoop (E : Engine) (c : Command) (sideDir : float3.t)
  (sortedUnitPairs : list (float * Z)) (sortedUnitGroups : list TGroupPair)
  (frontMoveCommands : list (Z * Command)) (nextPos : float3.t) (st : State) : State :=
  match sortedUnitPairs with
  | [] => st
  | suPair :: rest =>
      let groups := addUnitToGroups sortedUnitGroups suPair in
      let placed := MoveToPos E st nextPos sideDir (snd suPair) c true in
      let nextPos := fst (fst placed) in
      let cmds := optCons frontMoveCommands (snd (fst placed)) in
      let sameLine :=
        match rest with
        | [] => false
        | _ :: _ => negb (snd (MoveToPos E st nextPos sideDir (snd suPair) c false))
        end in
      if sameLine
      then frontLoop E c sideDir rest groups cmds nextPos st
      else frontLoop E c sideDir rest [] [] nextPos (flushRow E groups cmds st)
  end.

Definition giveIfResolved (E : Engine) (c : Command) (fromSynced : bool)
  (st : State) (unitID : Z) : State :=
  match units st unitID with
  | None => st
  | Some _ => GiveCommand E unitID c fromSynced st
  end.

(** [playerUnitIDs.size() - 1] in [size_t]: below zero it wraps around. *)
Definition size_minus_one (n : nat) : Z :=
  match n with
  | O => 2 ^ 64 - 1
  | S m => Z.of_nat m
  end.

Definition MakeFormationFrontOrder (E : Engine) (c : Command) (player : Z)
  (st : State) : State :=
  let st := set_formation_points (GetPos c 0) (GetPos c 3) st in
  let playerUnitIDs := netSelected E player in
  let frontDist := distance E (formationCenterPos st) (formationRightPos st) in
  if flt frontDist (of_size (length playerUnitIDs + 33))
  then fold_left (giveIfResolved E c false) playerUnitIDs st
  else
    let frontLength := (frontDist * 2)%Q in
    let needed := (groupSumLength st * 2 * of_int (SQUARE_SIZE E))%Q in
    let spread := flt needed frontLength in
    let addedSpace :=
      if spread
      then ((frontLength - needed) / of_int (size_minus_one (length playerUnitIDs)))%Q
      else 0%Q in
    let st :=
      if spread then note_divisor (size_minus_one (length playerUnitIDs)) st else st in
    let st := set_front frontLength addedSpace st in
    let sideDir :=
      formationSideDir (formationCenterPos st) (formationRightPos st) frontLength in
    frontLoop E c sideDir (CreateUnitOrder E player st) [] [] ZeroVector st.

(** ** Candidate targets of an area attack *)

Definition visibleEnemy (allyTeam : Z) (unit : CUnit) : bool :=
  if allyteam unit =? allyTeam then false
  else has_key (losStatus unit allyTeam) (Z.lor LOS_INLOS LOS_INRADAR).

Fixpoint SelectCircleUnits_loop (st : State) (pos : float3.t) (radiusSqr : float)
  (allyTeam : Z) (found : list Z) : list Z :=
  match found with
  | [] => []
  | unitID :: rest =>
      let tail := SelectCircleUnits_loop st pos radiusSqr allyTeam rest in
      match units st unitID with
      | None => tail
      | Some unit =>
          if negb (visibleEnemy allyTeam unit) then tail
          else
            let dx := (float3.x pos - float3.x (midPos unit))%Q in
            let dz := (float3.z pos - float3.z (midPos unit))%Q in
            if flt radiusSqr ((dx * dx) + (dz * dz))%Q then tail
            else unitID :: tail
      end
  end.

Definition SelectCircleUnits (E : Engine) (st : State) (pos : float3.t)
  (radius : float) (player : Z) : list Z :=
  if negb (IsValidPlayer E player) then []
  else
    match PlayerTeam E player with
    | None => []
    | Some team =>
        SelectCircleUnits_loop st pos (radius * radius)%Q (AllyTeam E team)
                               (GetUnitsExactCircle E pos radius)
    end.

Fixpoint SelectRectangleUnits_loop (st : State) (allyTeam : Z) (found : list Z)
  : list Z :=
  match found with
  | [] => []
  | unitID :: rest =>
      let tail := SelectRectangleUnits_loop st allyTeam rest in
      match units st unitID with
      | None => tail
      | Some unit => if negb (visibleEnemy allyTeam unit) then tail else unitID :: tail
      end
  end.

Definition SelectRectangleUnits (E : Engine) (st : State) (pos0 pos1 : float3.t)
  (player : Z) : list Z :=
  if negb (IsValidPlayer E player) then []
  else
    match PlayerTeam E player with
    | None => []
    | Some team =>
        let mins := float3.mk (fmin (float3.x pos0) (float3.x pos1)) 0%Q
                              (fmin (float3.z pos0) (float3.z pos1)) in
        let maxs := float3.mk (fmax (float3.x pos0) (float3.x pos1)) 0%Q
                              (fmax (float3.z pos0) (float3.z pos1)) in
        SelectRectangleUnits_loop st (AllyTeam E team) (GetUnitsExactRect E mins maxs)
    end.

(** ** SelectAttackNet *)

(** The CONTROL branch: one selected unit against every candidate target. *)
Definition cancelTarget (E : Engine) (unitID : Z) (attackCmd : Command)
  (st : State) (target : Z) : State :=
  let attackCmd := param_set attackCmd 0 (of_int target) in
  if negb (WillCancelQueued E st unitID attackCmd) then st
  else GiveCommand E unitID attackCmd true st.

Definition cancelUnit (E : Engine) (attackCmd : Command) (targetUnitIDs : list Z)
  (st : State) (unitID : Z) : State :=
  match units st unitID with
  | None => st
  | Some _ => fold_left (cancelTarget E unitID attackCmd) targetUnitIDs st
  end.

(** The sum of the positions of the resolvable selected units, and their count. *)
Definition attackCenter_step (st : State) (queueing : bool)
  (acc : float3.t * Z) (unitID : Z) : float3.t * Z :=
  match units st unitID with
  | None => acc
  | Some unit => (float3.add (fst acc) (unitPosition queueing unit), snd acc + 1)
  end.

(** The targets with their squared planar distance to the group center.
    The targets were resolved when they were collected; the source
    dereferences [GetUnit(target)] unchecked, and the first case stands for
    the null pointer. *)
Definition targetDistance (st : State) (midPos0 : float3.t) (target : Z) : float * Z :=
  match units st target with
  | None => (float3.SqLength2D (float3.sub ZeroVector midPos0), target)
  | Some unit => (float3.SqLength2D (float3.sub (midPos unit) midPos0), target)
  end.

Definition rankTargets (st : State) (midPos0 : float3.t) (targetUnitIDs : list Z)
  : list (float * Z) :=
  stable_sort idPairComp (map (targetDistance st midPos0) targetUnitIDs).

(** The loop over the ranked targets for one selected unit; [attackCmd] is
    shared by all the turns of both loops. *)
Definition attackTarget (E : Engine) (queueing : bool) (unitID : Z)
  (acc : Command * State) (target : float * Z) : Command * State :=
  let attackCmd := param_set (fst acc) 0 (of_int (snd target)) in
  if queueing && WillCancelQueued E (snd acc) unitID attackCmd
  then (attackCmd, snd acc)
  else
    let st := GiveCommand E unitID attackCmd true (snd acc) in
    let st := AddUnitSetMaxSpeedCommandNet E unitID (options attackCmd) st in
    (with_options attackCmd (set_key (options attackCmd) SHIFT_KEY), st).

Definition attackUnit (E : Engine) (queueing : bool) (sortedUnitPairs : list (float * Z))
  (acc : Command * State) (unitID : Z) : Command * State :=
  let attackCmd :=
    if negb queueing
    then with_options (fst acc) (clear_key (options (fst acc)) SHIFT_KEY)
    else fst acc in
  match units (snd acc) unitID with
  | None => (attackCmd, snd acc)
  | Some _ => fold_left (attackTarget E queueing unitID) sortedUnitPairs (attackCmd, snd acc)
  end.

Definition areaTargets (E : Engine) (cmd : Command) (player : Z) (st : State) : list Z :=
  if (length (params cmd) =? 4)%nat
  then SelectCircleUnits E st (GetPos cmd 0) (nth 3 (params cmd) 0%Q) player
  else SelectRectangleUnits E st (GetPos cmd 0) (GetPos cmd 3) player.

Definition SelectAttackNet (E : Engine) (cmd : Command) (player : Z) (st : State)
  : State :=
  let targetUnitIDs := areaTargets E cmd player st in
  match targetUnitIDs with
  | [] => st
  | _ :: _ =>
      let queueing := has_key (options cmd) SHIFT_KEY in
      let selected := netSelected E player in
      match selected with
      | [] => st
      | _ :: _ =>
          let attackCmd := Command1 CMD_ATTACK (options cmd) 0%Q in
          if has_key (options cmd) CONTROL_KEY
          then
            let attackCmd :=
              with_options attackCmd (set_key (options attackCmd) SHIFT_KEY) in
            fold_left (cancelUnit E attackCmd targetUnitIDs) selected st
          else
            let center := fold_left (attackCenter_step st queueing) selected (ZeroVector, 0) in
            let realCount := snd center in
            if realCount =? 0 then st
            else
              let st := note_divisor realCount st in
              let midPos0 := float3.div (fst center) (of_int realCount) in
              let sortedUnitPairs := rankTargets st midPos0 targetUnitIDs in
              snd (fold_left (attackUnit E queueing sortedUnitPairs) selected (attackCmd, st))
      end
  end.

(** ** GiveCommandNet *)

Definition addSpeed (E : Engine) (groupSpeed : bool) (opts : Z) (st : State)
  (unitID : Z) : State :=
  match units st unitID with
  | None => st
  | Some _ =>
      if groupSpeed then AddGroupSetMaxSpeedCommandNet E unitID opts st
      else AddUnitSetMaxSpeedCommandNet E unitID opts st
  end.

(** CTRL on move, patrol, fight: the destination keeps the unit's offset to
    the group center. *)
Definition lockedOrder (E : Engine) (c : Command) (groupSpeed queueing : bool)
  (st : State) (unitID : Z) : State :=
  match units st unitID with
  | None => st
  | Some unit =>
      let midPos0 := unitPosition queueing unit in
      let difPos := float3.sub midPos0 (groupCenterCoor st) in
      let uc := param_add c CMDPARAM_MOVE_X (float3.x difPos) in
      let uc := param_add uc CMDPARAM_MOVE_Y (float3.y difPos) in
      let uc := param_add uc CMDPARAM_MOVE_Z (float3.z difPos) in
      let st := GiveCommand E unitID uc true st in
      if groupSpeed then AddGroupSetMaxSpeedCommandNet E unitID (options c) st
      else AddUnitSetMaxSpeedCommandNet E unitID (options c) st
  end.

(** The loop of the last block: the order as it is, then the speed match. *)
Definition broadcastOrder (E : Engine) (c : Command) (st : State) (unitID : Z) : State :=
  match units st unitID with
  | None => st
  | Some _ =>
      let st := GiveCommand E unitID c true st in
      if negb (MayRequireSetMaxSpeedCommand c) then st
      else AddUnitSetMaxSpeedCommandNet E unitID (options c) st
  end.

Definition acknowledgeWait (E : Engine) (c : Command) (player : Z) (st : State) : State :=
  if negb (GetID c =? CMD_WAIT) then st
  else if negb (player =? myPlayerNum E) then st
  else emit (EvAcknowledge c) st.

Definition isAreaAttack (c : Command) : bool :=
  (GetID c =? CMD_ATTACK)
  && ((GetParamsCount c =? 6)%nat
      || ((GetParamsCount c =? 4)%nat && flt (1 # 1000) (GetParam c 3))).

Definition isFrontOrder (c : Command) : bool :=
  ((GetID c =? CMD_MOVE) || (GetID c =? CMD_FIGHT)) && (GetParamsCount c =? 6)%nat.

Definition isAltMove (c : Command) : bool :=
  (GetID c =? CMD_MOVE) && has_key (options c) ALT_KEY.

Definition isLockedOrder (c : Command) : bool :=
  has_key (options c) CONTROL_KEY
  && ((GetID c =? CMD_MOVE) || (GetID c =? CMD_PATROL) || (GetID c =? CMD_FIGHT)).

Definition GiveCommandNet (E : Engine) (c : Command) (player : Z) (st : State) : State :=
  let selected := netSelected E player in
  let nbrOfSelectedUnits := Z.of_nat (length selected) in
  if nbrOfSelectedUnits <? 1 then st
  else if isAreaAttack c then SelectAttackNet E c player st
  else if nbrOfSelectedUnits =? 1 then
    let unitID := hd 0 selected in
    match units st unitID with
    | None => st
    | Some _ =>
        let st := GiveCommand E unitID c true st in
        let st :=
          if MayRequireSetMaxSpeedCommand c
          then AddUnitSetMaxSpeedCommandNet E unitID (options c) st
          else st in
        acknowledgeWait E c player st
    end
  else if isFrontOrder c then
    let st := CalculateGroupData E player (has_key (options c) SHIFT_KEY) st in
    let st := MakeFormationFrontOrder E c player st in
    let groupSpeed := has_key (options c) CONTROL_KEY in
    fold_left (addSpeed E groupSpeed (options c)) selected st
  else if isAltMove c then
    let st := CalculateGroupData E player (has_key (options c) SHIFT_KEY) st in
    let pos := float3.mk (GetParam c 0) (GetParam c 1) (GetParam c 2) in
    let frontDir :=
      ANormalize E (float3.mul (float3.sub pos (groupCenterCoor st)) XZVector) in
    let sideDir := float3.cross frontDir UpVector in
    let length0 := (100 + math_sqrt E (of_int nbrOfSelectedUnits) * 32)%Q in
    let c := PushPos c (float3.add pos (float3.scale sideDir length0)) in
    let st := MakeFormationFrontOrder E c player st in
    let groupSpeed := has_key (options c) CONTROL_KEY in
    fold_left (addSpeed E groupSpeed (options c)) selected st
  else if isLockedOrder c then
    let st := CalculateGroupData E player (has_key (options c) SHIFT_KEY) st in
    let groupSpeed := negb (has_key (options c) ALT_KEY) in
    let queueing := has_key (options c) SHIFT_KEY in
    fold_left (lockedOrder E c groupSpeed queueing) selected st
  else
    acknowledgeWait E c player (fold_left (broadcastOrder E c) selected st).

(** ** Words of the specification *)

(** The mean of a list of positions. *)
Definition meanPosition (l : list float3.t) : float3.t :=
  float3.div (fold_left float3.add l ZeroVector) (of_size (length l)).

(** The positions of the selected units that resolve and satisfy [p]. *)
Fixpoint positionsOf (st : State) (queueing : bool) (p : CUnit -> bool)
  (unitIDs : list Z) : list float3.t :=
  match unitIDs with
  | [] => []
  | unitID :: rest =>
      match units st unitID with
      | Some unit =>
          if p unit then unitPosition queueing unit :: positionsOf st queueing p rest
          else positionsOf st queueing p rest
      | None => positionsOf st queueing p rest
      end
  end.

(** The speed-match order a unit receives after an order with options [opts]. *)
Definition speedMatch (unitID : Z) (unit : CUnit) (opts : Z) : list Event :=
  if canSetMaxSpeed unit
  then [EvGive unitID (Command1 CMD_SET_WANTED_MAX_SPEED opts (maxSpeed unit)) true]
  else [].

(** What one selected unit receives from the broadcast of [c]. *)
Definition broadcastEvents (c : Command) (st : State) (unitID : Z) : list Event :=
  match units st unitID with
  | None => []
  | Some unit =>
      EvGive unitID c true
      :: (if MayRequireSetMaxSpeedCommand c then speedMatch unitID unit (options c) else [])
  end.

(** The order reaches the last block of [GiveCommandNet]. *)
Definition reachesBroadcast (E : Engine) (c : Command) (player : Z) : bool :=
  (2 <=? length (netSelected E player))%nat
  && negb (isAreaAttack c) && negb (isFrontOrder c) && negb (isAltMove c)
  && negb (isLockedOrder c).

Definition acknowledgeEvents (E : Engine) (c : Command) (player : Z) : list Event :=
  if (GetID c =? CMD_WAIT) && (player =? myPlayerNum E) then [EvAcknowledge c] else [].

(** The attack on [target] with options [opts], and what a unit receives
    from an area attack without modifiers over the ranked targets. *)
Definition attackOn (opts : Z) (target : Z) : Command :=
  mkCommand CMD_ATTACK opts [of_int target].

Definition attackEvents (unitID : Z) (unit : CUnit) (opts : Z) (target : Z) : list Event :=
  EvGive unitID (attackOn opts target) true :: speedMatch unitID unit opts.

Definition unitAttackEvents (opts : Z) (targets : list Z) (st : State) (unitID : Z)
  : list Event :=
  match units st unitID, targets with
  | Some unit, first :: others =>
      attackEvents unitID unit (clear_key opts SHIFT_KEY) first
      ++ flat_map (attackEvents unitID unit (set_key (clear_key opts SHIFT_KEY) SHIFT_KEY))
                  others
  | _, _ => []
  end.

(** The orders of one unit: the first target with the options as they are,
    the following ones queued. *)
Fixpoint attackEventsFrom (unitID : Z) (unit : CUnit) (opts : Z) (targets : list Z)
  : list Event :=
  match targets with
  | [] => []
  | t :: rest =>
      attackEvents unitID unit opts t
      ++ attackEventsFrom unitID unit (set_key opts SHIFT_KEY) rest
  end.

(** The center [SelectAttackNet] ranks the targets from. *)
Definition attackCenter (E : Engine) (player : Z) (queueing : bool) (st : State)
  : float3.t :=
  let center :=
    fold_left (attackCenter_step st queueing) (netSelected E player) (ZeroVector, 0) in
  float3.div (fst center) (of_int (snd center)).

(** A run of the CONTROL branch: every call gives, to a selected unit that
    resolves, the queued attack on a candidate target that its command AI
    reports as cancelling a queued one at that moment. *)
Inductive cancelRun (E : Engine) (opts : Z) (selected targets : list Z)
  : State -> list Event -> State -> Prop :=
| cancelRun_done : forall st, cancelRun E opts selected targets st [] st
| cancelRun_give : forall st unitID target evs st',
    In unitID selected ->
    In target targets ->
    resolves st unitID = true ->
    WillCancelQueued E st unitID (attackOn (set_key opts SHIFT_KEY) target) = true ->
    cancelRun E opts selected targets
              (GiveCommand E unitID (attackOn (set_key opts SHIFT_KEY) target) true st)
              evs st' ->
    cancelRun E opts selected targets st
              (EvGive unitID (attackOn (set_key opts SHIFT_KEY) target) true :: evs) st'.

(** The CONTROL branch, pair by pair.  The pairs are the turns of the inner
    loop in program order: a selected unit that resolves and a candidate
    target.  At every pair the command AI of the unit is asked, on the queue
    the unit has at that moment; the queued attack is given exactly when the
    answer is yes, and the run ends when the pairs are used up. *)
Inductive cancelSteps (E : Engine) (opts : Z)
  : list (Z * Z) -> State -> list Event -> State -> Prop :=
| cancelSteps_done : forall st, cancelSteps E opts [] st [] st
| cancelSteps_keep : forall unitID target rest st evs st',
    WillCancelQueued E st unitID (attackOn (set_key opts SHIFT_KEY) target) = false ->
    cancelSteps E opts rest st evs st' ->
    cancelSteps E opts ((unitID, target) :: rest) st evs st'
| cancelSteps_give : forall unitID target rest st evs st',
    WillCancelQueued E st unitID (attackOn (set_key opts SHIFT_KEY) target) = true ->
    cancelSteps E opts rest
                (GiveCommand E unitID (attackOn (set_key opts SHIFT_KEY) target) true st)
                evs st' ->
    cancelSteps E opts ((unitID, target) :: rest) st
                (EvGive unitID (attackOn (set_key opts SHIFT_KEY) target) true :: evs) st'.

(** What the CONTROL branch gives to one unit, from the queue the unit has
    when its turn begins: the targets whose queued attack is given, and the
    queue the command AI leaves behind. *)
Fixpoint cancelOrders (E : Engine) (queued : Z) (targets : list Z) (que : list Command)
  : list Z :=
  match targets with
  | [] => []
  | t :: rest =>
      if cai_WillCancelQueued E que (attackOn queued t)
      then t :: cancelOrders E queued rest (cai_GiveCommand E que (attackOn queued t) true)
      else cancelOrders E queued rest que
  end.

Fixpoint cancelQueue (E : Engine) (queued : Z) (targets : list Z) (que : list Command)
  : list Command :=
  match targets with
  | [] => que
  | t :: rest =>
      if cai_WillCancelQueued E que (attackOn queued t)
      then cancelQueue E queued rest (cai_GiveCommand E que (attackOn queued t) true)
      else cancelQueue E queued rest que
  end.

Definition cancelEvents (E : Engine) (queued : Z) (targets : list Z) (st : State)
  (unitID : Z) : list Event :=
  match units st unitID with
  | None => []
  | Some unit =>
      map (fun t => EvGive unitID (attackOn queued t) true)
          (cancelOrders E queued targets (commandQue unit))
  end.

(** What the mixing of a closed row has to satisfy. *)
Definition bucketSizes (groups : list TGroupPair) : list nat :=
  map (fun g => length (snd g)) groups.

Definition bucketUnits (groups : list TGroupPair) : list Z :=
  flat_map snd groups.

(** The units already handed out when the fill counters are [sizes]. *)
Fixpoint takenUnits (sizes : list nat) (groups : list TGroupPair) : list Z :=
  match sizes, groups with
  | c :: sizes', g :: groups' => firstn c (snd g) ++ takenUnits sizes' groups'
  | _, _ => []
  end.

(** The orders given when a row is closed: the i-th destination command
    goes to the i-th mixed unit. *)
Definition rowEvents (r : FormationRow) : list Event :=
  map (fun a : Z * (Z * Command) => EvGive (fst a) (snd (snd a)) false)
      (combine (rowMixedUnitIDs r) (rowCommands r)).

Definition unexhausted (groups : list TGroupPair) (sizes : list nat) (g : nat) : Prop :=
  (nth g sizes O < length (snd (nth g groups emptyGroup)))%nat.

Record rowMixed (r : FormationRow) : Prop := mkRowMixed {
  row_units : Permutation (bucketUnits (rowGroups r)) (map fst (rowCommands r));
  row_outcome :
    (rowMixedUnitIDs r, rowMixedGroupSizes r)
    = mixUnits (rowGroups r) (length (rowCommands r));
  row_slots : length (rowMixedUnitIDs r) = length (rowCommands r);
  row_permutation : Permutation (rowMixedUnitIDs r) (map fst (rowCommands r));
  row_counters : forall j, (j <= length (rowCommands r))%nat ->
    Forall2 le (snd (mixUnits (rowGroups r) j)) (bucketSizes (rowGroups r));
  row_choice : forall j, (j < length (rowCommands r))%nat ->
    unexhausted (rowGroups r) (snd (mixUnits (rowGroups r) j))
                (bestGroup (rowGroups r) (snd (mixUnits (rowGroups r) j)))
}.

(** Two states hold the same units up to the command queues, and two states
    agree on the handler's own fields and ghost traces. *)
Definition sameUnits (st st' : State) : Prop :=
  forall unitID,
    option_map (set_commandQue []) (units st unitID)
    = option_map (set_commandQue []) (units st' unitID).

Definition sameHandler (st st' : State) : Prop :=
  groupCenterCoor st = groupCenterCoor st'
  /\ groupSumLength st = groupSumLength st'
  /\ groupAvgLength st = groupAvgLength st'
  /\ groupMinMaxSpeed st = groupMinMaxSpeed st'
  /\ formationCenterPos st = formationCenterPos st'
  /\ formationRightPos st = formationRightPos st'
  /\ groupFrontLength st = groupFrontLength st'
  /\ groupAddedSpace st = groupAddedSpace st'
  /\ divisors st = divisors st'
  /\ flushed st = flushed st'.

(** From [st] to [st'] every integer count the code has divided by is
    different from zero. *)
Definition guardedDivisors (st st' : State) : Prop :=
  exists ds, divisors st' = divisors st ++ ds /\ Forall (fun d => d <> 0) ds.

(** ** The fill ratio in IEEE single precision

    The ratio of the mixing loop as the machine computes it, on binary32
    numbers (24 bits of precision): [0.5f + curGroupSize] over
    [1.0f * maxGroupSize], compared with [1.0f]. *)

Module Binary32.

Definition prec : Z := 24.
Definition emax : Z := 128.

Definition of_size (n : nat) : spec_float :=
  binary_normalize prec emax (Z.of_nat n) 0 false.

Definition half : spec_float := binary_normalize prec emax 1 (-1) false.
Definition one : spec_float := binary_normalize prec emax 1 0 false.

Definition groupVal (curGroupSize maxGroupSize : nat) : spec_float :=
  SFdiv prec emax (SFadd prec emax half (of_size curGroupSize))
        (SFmul prec emax one (of_size maxGroupSize)).

(** [groupVal >= bestGroupVal] fails for the initial [bestGroupVal = 1.0f]
    on every bucket of at most [n] units that is not exhausted. *)
Definition belowOneUpTo (n : nat) : bool :=
  forallb (fun maxGroupSize =>
             forallb (fun curGroupSize =>
                        SFltb (groupVal curGroupSize maxGroupSize) one)
                     (seq 0 maxGroupSize))
          (seq 1 n).

End Binary32.

(** ** Orders and the selection *)

(** An order counts for the selection when it goes to a selected unit that
    resolves; the acknowledgement of a wait order goes to no unit. *)
Definition toSelected (selected : list Z) (st : State) (e : Event) : Prop :=
  match e with
  | EvGive unitID _ _ => In unitID selected /\ resolves st unitID = true
  | EvAcknowledge _ => True
  end.

(** From [st] to [st'] the handler has made the calls [evs]: they are what
    the trace has grown by, the units keep all but their command queues, and
    a unit that received no order is as it was. *)
Definition traced (st st' : State) (evs : list Event) : Prop :=
  issued st' = issued st ++ evs
  /\ sameUnits st st'
  /\ (forall j, (forall c f, ~ In (EvGive j c f) evs) -> units st' j = units st j).

Definition ordersWithin (selected : list Z) (st st' : State) : Prop :=
  exists evs, traced st st' evs /\ Forall (toSelected selected st) evs.

Definition someTrace (st st' : State) : Prop := exists evs, traced st st' evs.

(** ** The formation orders of [GiveCommandNet] *)

(** [sameHandler] without the ghost traces. *)
Definition sameGeometry (st st' : State) : Prop :=
  groupCenterCoor st = groupCenterCoor st'
  /\ groupSumLength st = groupSumLength st'
  /\ groupAvgLength st = groupAvgLength st'
  /\ groupMinMaxSpeed st = groupMinMaxSpeed st'
  /\ formationCenterPos st = formationCenterPos st'
  /\ formationRightPos st = formationRightPos st'
  /\ groupFrontLength st = groupFrontLength st'
  /\ groupAddedSpace st = groupAddedSpace st'.

(** The front line [GiveCommandNet] makes up for a move with ALT: the target
    and a point to its side, pushed behind the parameters of the order. *)
Definition altFrontCommand (E : Engine) (c : Command) (player : Z) (st : State)
  : Command :=
  let pos := float3.mk (GetParam c 0) (GetParam c 1) (GetParam c 2) in
  let frontDir :=
    ANormalize E (float3.mul (float3.sub pos (groupCenterCoor st)) XZVector) in
  let sideDir := float3.cross frontDir UpVector in
  let length0 :=
    (100 + math_sqrt E (of_int (Z.of_nat (length (netSelected E player)))) * 32)%Q in
  PushPos c (float3.add pos (float3.scale sideDir length0)).

(** What a selected unit receives from the loop that follows the formation:
    the speed of the group with CONTROL, its own speed without. *)
Definition formationSpeedEvents (groupSpeed : bool) (opts : Z) (groupSpeedValue : float)
  (st : State) (unitID : Z) : list Event :=
  match units st unitID with
  | None => []
  | Some unit =>
      if canSetMaxSpeed unit
      then [EvGive unitID
              (Command1 CMD_SET_WANTED_MAX_SPEED opts
                 (if groupSpeed then groupSpeedValue else maxSpeed unit)) true]
      else []
  end.

(** ** The locked group *)



(** ** The candidates of an area attack *)

(** A unit the player's alliance may attack: it belongs to another alliance
    and is in line of sight or on radar. *)
Definition attackable (allyTeam : Z) (unit : CUnit) : Prop :=
  allyteam unit <> allyTeam
  /\ (Z.testbit (losStatus unit allyTeam) 0 = true
      \/ Z.testbit (losStatus unit allyTeam) 1 = true).

(** The squared distance in the ground plane. *)
Definition groundDistanceSqr (a b : float3.t) : float :=
  ((float3.x a - float3.x b) * (float3.x a - float3.x b)
   + (float3.z a - float3.z b) * (float3.z a - float3.z b))%Q.

(** An order of an area attack: an attack on one of the candidates, or a
    speed order. *)
Definition areaAttackOrder (selected targets : list Z) (e : Event) : Prop :=
  exists unitID d,
    e = EvGive unitID d true /\ In unitID selected
    /\ ((exists target, In target targets /\ d = attackOn (options d) target)
        \/ (exists v, d = Command1 CMD_SET_WANTED_MAX_SPEED (options d) v)).

Definition queuedOrder (e : Event) : Prop :=
  match e with
  | EvGive _ d _ => has_key (options d) SHIFT_KEY = true
  | EvAcknowledge _ => True
  end.

(** The orders from [st] to [st'] are orders of an area attack, all of them
    queued when [queued] is set. *)
Definition areaAttackRun (selected targets : list Z) (queued : bool) (st st' : State)
  : Prop :=
  exists evs,
    issued st' = issued st ++ evs
    /\ Forall (areaAttackOrder selected targets) evs
    /\ (queued = true -> Forall queuedOrder evs).

(** ** The destinations of a formation *)

(** The unit an order goes to. *)
Definition orderedUnit (e : Event) : list Z :=
  match e with
  | EvGive unitID _ _ => [unitID]
  | EvAcknowledge _ => []
  end.

(** A destination order made from [c]: the kind and the options of [c] and
    one position. *)
Definition destinationOf (c d : Command) : Prop :=
  exists pos, d = CommandPos (GetID c) (options c) pos.

(** The buckets of a row: strictly ascending priorities, no empty bucket,
    and in each bucket units whose ranking value is the bucket's priority. *)
Definition bucketsOrdered (ranking : list (float * Z)) (groups : list TGroupPair)
  : Prop :=
  StronglySorted Qlt (map fst groups)
  /\ Forall (fun g : TGroupPair =>
               snd g <> []
               /\ forall unitID, In unitID (snd g) ->
                    exists v, In (v, unitID) ranking /\ (v == fst g)%Q) groups.

(** * The GL helpers: rts/Rendering/GL/myGL.cpp *)

(** ** GetVertexArray

    [vertexArrays] is a [std::array<CVertexArray, 2>]; the state is the index
    [currentVertexArray], an [int] that the remainder takes through
    [size_t].  The result is the new index and the index of the array whose
    address is returned. *)

Definition vertexArrays_size : Z := 2.

Definition GetVertexArray (currentVertexArray : Z) : Z * Z :=
  let currentVertexArray := currentVertexArray + 1 in
  let currentVertexArray := (currentVertexArray mod 2 ^ 64) mod vertexArrays_size in
  (currentVertexArray, currentVertexArray).

(** ** glClearErrors

    [getError k] is the driver's answer to the call number [k] (from 0) of
    [glGetError] during one call of [glClearErrors]; every turn of the loops
    makes one call, so the call number is the loop counter.  The result is
    the number of calls made and the lines logged (counter and error). *)

Definition GL_NO_ERROR : Z := 0.

Fixpoint glClearErrors_verbose (getError : Z -> Z) (fuel : nat) (count : Z)
  (logged : list (Z * Z)) : option (Z * list (Z * Z)) :=
  match fuel with
  | O => None
  | S fuel' =>
      let error := getError count in
      if negb (error =? GL_NO_ERROR) && (count <? 10000)
      then glClearErrors_verbose getError fuel' (count + 1) (logged ++ [(count, error)])
      else Some (count + 1, logged)
  end.

Fixpoint glClearErrors_quiet (getError : Z -> Z) (fuel : nat) (count : Z) : option Z :=
  match fuel with
  | O => None
  | S fuel' =>
      if negb (getError count =? GL_NO_ERROR) && (count <? 10000)
      then glClearErrors_quiet getError fuel' (count + 1)
      else Some (count + 1)
  end.

Definition glClearErrors (getError : Z -> Z) (verbose : bool)
  : option (Z * list (Z * Z)) :=
  if verbose then glClearErrors_verbose getError (Z.to_nat 10001) 0 []
  else option_map (fun calls => (calls, [])) (glClearErrors_quiet getError (Z.to_nat 10001) 0).

(** ** glSpringBindTextures

    The calls it makes on the GL, in program order.  [multiBind] stands for
    [GLEW_ARB_multi_bind]; [textures] is [None] for the null pointer and the
    array behind the pointer otherwise.  The unit of a texture is computed
    in [GLuint].  The result is [None] when a turn of the loop reads
    [textures[i]] behind the end of the array. *)

Definition GL_TEXTURE0 : Z := 33984.
Definition GL_TEXTURE_2D : Z := 3553.

Inductive GLCall : Type :=
| glBindTextures (first count : Z) (textures : option (list Z))
| glActiveTexture (texture : Z)
| glBindTexture (target texture : Z).

(** [(textures == nullptr) ? 0 : textures[i]]. *)
Definition textureAt (textures : option (list Z)) (i : nat) : option Z :=
  match textures with
  | None => Some 0
  | Some l => nth_error l i
  end.

Definition bindTextureAt (first : Z) (textures : option (list Z)) (i : nat)
  : option (list GLCall) :=
  match textureAt textures i with
  | None => None
  | Some texture =>
      Some [glActiveTexture ((GL_TEXTURE0 + first + Z.of_nat i) mod 2 ^ 32);
            glBindTexture GL_TEXTURE_2D texture]
  end.

Fixpoint bindLoop (first : Z) (textures : option (list Z)) (turns : list nat)
  : option (list GLCall) :=
  match turns with
  | [] => Some []
  | i :: rest =>
      match bindTextureAt first textures i with
      | None => None
      | Some calls => option_map (app calls) (bindLoop first textures rest)
      end
  end.

Definition glSpringBindTextures (multiBind : bool) (first count : Z)
  (textures : option (list Z)) : option (list GLCall) :=
  if multiBind then Some [glBindTextures first count textures]
  else option_map (fun calls => calls ++ [glActiveTexture GL_TEXTURE0])
                  (bindLoop first textures (seq 0 (Z.to_nat count))).

(** ** The GL context of the fallback: a model

    The GL is no part of the sources.  The context below is a model, after
    the OpenGL specification, of the two calls the fallback makes and of
    nothing else.
    - [glActiveTexture(texture)] makes [texture] the active unit.  When
      [texture] is not one of [GL_TEXTURE0] to [GL_TEXTURE0 + maxUnits - 1],
      [maxUnits] being the context's [GL_MAX_COMBINED_TEXTURE_IMAGE_UNITS],
      the call records [GL_INVALID_ENUM] and changes nothing else.
    - [glBindTexture(GL_TEXTURE_2D, texture)] binds [texture] to the 2D
      target of the active unit.  When [texture] is neither zero nor a name
      the context accepts for that target ([accepts2D]: in the core profile
      a name that [glGenTextures] returned and that is no texture of
      another target), the call records [GL_INVALID_OPERATION] and changes
      nothing else.
    [glBindTextures] and the other targets are outside the model ([None]).
    The state holds the active unit, the 2D texture of every unit (both as
    the enum of the unit) and the errors recorded. *)

Definition GL_INVALID_ENUM : Z := 1280.
Definition GL_INVALID_OPERATION : Z := 1282.

Record GLContext : Type := mkGLContext {
  maxUnits : Z;
  accepts2D : Z -> bool
}.

Record TextureState : Type := mkTextureState {
  activeUnit : Z;
  bound2D : Z -> Z;
  glErrors : list Z
}.

Definition isTextureUnit (G : GLContext) (texture : Z) : bool :=
  (GL_TEXTURE0 <=? texture) && (texture <? GL_TEXTURE0 + maxUnits G).

Definition isTexture2D (G : GLContext) (texture : Z) : bool :=
  (texture =? 0) || accepts2D G texture.

Definition glDo (G : GLContext) (s : TextureState) (call : GLCall)
  : option TextureState :=
  match call with
  | glActiveTexture texture =>
      if isTextureUnit G texture
      then Some (mkTextureState texture (bound2D s) (glErrors s))
      else Some (mkTextureState (activeUnit s) (bound2D s)
                                (glErrors s ++ [GL_INVALID_ENUM]))
  | glBindTexture target texture =>
      if target =? GL_TEXTURE_2D
      then
        if isTexture2D G texture
        then Some (mkTextureState (activeUnit s)
                     (fun unit => if unit =? activeUnit s then texture
                                  else bound2D s unit)
                     (glErrors s))
        else Some (mkTextureState (activeUnit s) (bound2D s)
                                  (glErrors s ++ [GL_INVALID_OPERATION]))
      else None
  | glBindTextures _ _ _ => None
  end.

Fixpoint glRun (G : GLContext) (s : TextureState) (calls : list GLCall)
  : option TextureState :=
  match calls with
  | [] => Some s
  | call :: rest =>
      match glDo G s call with
      | Some s' => glRun G s' rest
      | None => None
      end
  end.

(** * The text of a shader: rts/Rendering/GL/RenderDataBuffer.cpp

    [FormatShaderBase] writes the head of a shader into the buffer from
    [buf] to [end] with a chain of [snprintf] calls.  The buffer is a list
    of [end - buf] bytes; a pointer into it is its offset from [buf]. *)

Module RenderDataBuffer.
Import Ascii String.
Local Open Scope nat_scope.

Definition LF : string := String (ascii_of_nat 10) EmptyString.

Definition bytesOf (s : string) : list ascii := list_ascii_of_string s.

(** [ptr += std::snprintf(ptr, (end - buf) - (ptr - buf), ...)] for the text
    the format expands to; [capacity] is [end - buf] and [ptr - buf] the
    second component of the state.  The size is passed as a [size_t]: with
    the pointer behind the end the difference is negative and wraps around,
    so the call is made with a pointer outside the buffer and a size that
    does not bound it ([None]).  Otherwise as much of the text as fits in
    front of a terminator is written, nothing when the size is zero, and the
    pointer advances by the length of the whole text. *)
Definition snprintf (capacity : nat) (st : list ascii * nat) (text : string)
  : option (list ascii * nat) :=
  let buf := fst st in
  let ptr := snd st in
  if capacity <? ptr then None
  else
    let out := bytesOf text in
    let buf :=
      match capacity - ptr with
      | O => buf
      | S room =>
          firstn ptr buf ++ firstn room out ++ [zero]
          ++ skipn (ptr + Nat.min room (List.length out) + 1) buf
      end in
    Some (buf, ptr + List.length out).

Definition andThen (st : option (list ascii * nat))
  (f : list ascii * nat -> option (list ascii * nat)) : option (list ascii * nat) :=
  match st with
  | Some s => f s
  | None => None
  end.

(** The switch over [type[0]]. *)
Definition uniformsOf (type : string) : list string :=
  match type with
  | String c _ =>
      if Ascii.eqb c "V"%char
      then [("uniform mat4 u_movi_mat;" ++ LF)%string; ("uniform mat4 u_proj_mat;" ++ LF)%string]
      else if Ascii.eqb c "F"%char
      then [("uniform sampler2D u_tex0;" ++ LF)%string; ("uniform sampler3D u_tex1;" ++ LF)%string;
            ("uniform sampler3D u_tex2;" ++ LF)%string]
      else []
  | EmptyString => []
  end.

(** The result is the buffer and the pointer returned, as an offset. *)
Definition FormatShaderBase (capacity : nat) (defines globals type name : string)
  : option (list ascii * nat) :=
  let put text st := andThen st (fun s => snprintf capacity s text) in
  let ptr := Some (repeat zero capacity, 0) in
  let ptr := put ("#version 410 core" ++ LF)%string ptr in
  let ptr := put ("#extension GL_ARB_explicit_attrib_location : enable" ++ LF)%string ptr in
  let ptr := put ("// defines" ++ LF)%string ptr in
  let ptr := put ("#define VA_TYPE " ++ name ++ LF)%string ptr in
  let ptr := put defines ptr in
  let ptr := put LF ptr in
  let ptr := put ("// globals" ++ LF)%string ptr in
  let ptr := put globals ptr in
  let ptr := put ("// uniforms" ++ LF)%string ptr in
  let ptr := fold_left (fun st text => put text st) (uniformsOf type) ptr in
  put LF ptr.

(** The texts of the calls in front of the last one, and the whole text. *)
Definition shaderBaseHead (defines globals type name : string) : list string :=
  [("#version 410 core" ++ LF)%string;
   ("#extension GL_ARB_explicit_attrib_location : enable" ++ LF)%string;
   ("// defines" ++ LF)%string;
   ("#define VA_TYPE " ++ name ++ LF)%string;
   defines;
   LF;
   ("// globals" ++ LF)%string;
   globals;
   ("// uniforms" ++ LF)%string]
  ++ uniformsOf type.

Definition shaderBaseText (defines globals type name : string) : list ascii :=
  List.concat (map bytesOf (shaderBaseHead defines globals type name ++ [LF])).

(** The buffer after [text] has gone through the calls without a write
    behind the buffer: what fits in front of the last byte, and zeros. *)
Definition bufferOf (capacity : nat) (text : list ascii) : list ascii :=
  firstn (capacity - 1) text
  ++ repeat zero (capacity - Nat.min (capacity - 1) (List.length text)).

(** The chain of calls over a list of texts. *)
Definition runPieces (capacity : nat) (pieces : list string)
  (st : option (list ascii * nat)) : option (list ascii * nat) :=
  fold_left (fun st text => andThen st (fun s => snprintf capacity s text)) pieces st.

(** The length of the text of a list of calls. *)
Definition lengthOf (pieces : list string) : nat :=
  List.length (List.concat (map bytesOf pieces)).

End RenderDataBuffer.

(** ** A small world for the examples *)

Module Sample.

(** Stands for [float3::distance] in the examples: their points lie on one
    axis, where this is the Euclidean distance. *)
Definition axisDistance (a b : float3.t) : float :=
  (Qabs (float3.x a - float3.x b) + Qabs (float3.y a - float3.y b)
   + Qabs (float3.z a - float3.z b))%Q.

Definition sameOrder (c d : Command) : bool :=
  (cmdID c =? cmdID d)
  && match params c, params d with
     | p :: _, q :: _ => Qeq_bool p q
     | _, _ => false
     end.

(** A command queue that drops a queued order when the same order is queued
    again, appends other queued orders and is replaced by an order that is
    not queued. *)
Definition queueWillCancel (q : list Command) (c : Command) : bool :=
  existsb (sameOrder c) q.

Definition queueGive (q : list Command) (c : Command) (fromSynced : bool)
  : list Command :=
  if has_key (options c) SHIFT_KEY
  then if queueWillCancel q c then filter (fun d => negb (sameOrder c d)) q
       else q ++ [c]
  else [c].

Definition engine (selected found : list Z) : Engine :=
  mkEngine axisDistance (fun v => v) (fun f => f) (fun _ _ => 0%Q) 8
           queueGive queueWillCancel
           (fun _ => selected) (fun _ => true) (fun p => Some p) (fun t => t)
           (fun _ _ => found) (fun _ _ => found) 0.

Definition tankDef : UnitDef := mkUnitDef 2 2 100%Q 1000%Q 500%Q.

Definition onAxis (px : Z) : float3.t := float3.mk (inject_Z px) 0%Q 0%Q.

Definition tank (px : Z) (queue : list Command) : CUnit :=
  mkUnit tankDef (onAxis px) 300%Q 2%Q true queue 0 (fun _ => 0).

Definition turret (px : Z) (queue : list Command) : CUnit :=
  mkUnit tankDef (onAxis px) 300%Q 0%Q false queue 0 (fun _ => 0).

Definition enemy (px : Z) : CUnit :=
  mkUnit tankDef (onAxis px) 300%Q 2%Q true [] 1 (fun _ => LOS_INLOS).

Definition world (us : Z -> option CUnit) : State :=
  mkState us ZeroVector 0%Q 0%Q 0%Q ZeroVector ZeroVector 0%Q 0%Q [] [] [].

Definition lookup (l : list (Z * CUnit)) (unitID : Z) : option CUnit :=
  option_map snd (find (fun e => fst e =? unitID) l).

(** Two tanks and a short front line drawn from 0 to 5 on the axis. *)
Definition twoTanks : State :=
  world (lookup [(1, tank 0 []); (2, tank 10 [])]).

Definition shortFront : Command :=
  mkCommand CMD_MOVE 0 [0%Q; 0%Q; 0%Q; 5%Q; 0%Q; 0%Q].

(** Two turrets (they cannot set a maximum speed), one of them selected
    together with a stale id; an attack order on the unit 7. *)
Definition twoTurrets : State :=
  world (lookup [(1, turret 0 []); (2, turret 10 [])]).

Definition attackUnit7 : Command := mkCommand CMD_ATTACK 0 [7%Q].

(** Two tanks, or a tank and a turret, selected; the unit 7 of another
    alliance stands in the attacked circle. *)
Definition tanksAndEnemy : State :=
  world (lookup [(1, tank 0 []); (2, tank 10 []); (7, enemy 3)]).

Definition turretAndEnemy : State :=
  world (lookup [(1, turret 0 []); (7, enemy 3)]).

Definition areaAttack (opts : Z) : Command :=
  mkCommand CMD_ATTACK opts [0%Q; 0%Q; 0%Q; 10%Q].

(** The unit 1 has an attack on the unit 7 in its queue, the unit 2 has a
    move order. *)
Definition queuedAttack : State :=
  world (lookup [(1, tank 0 [attackOn SHIFT_KEY 7]);
                 (2, tank 10 [mkCommand CMD_MOVE 0 [5%Q; 0%Q; 5%Q]]);
                 (7, enemy 3)]).

(** A turret at 10 on the axis, selected together with the stale id 2. *)
Definition turretAndStale : State := world (lookup [(1, turret 10 [])]).

(** A long front line drawn from 0 to 100 on the axis, and three tanks of
    which the last one has another priority. *)
Definition longFront : Command :=
  mkCommand CMD_MOVE 0 [0%Q; 0%Q; 0%Q; 100%Q; 0%Q; 0%Q].

Definition heavyTank (px : Z) : CUnit :=
  mkUnit (mkUnitDef 4 4 400%Q 1000%Q 500%Q) (onAxis px) 300%Q 1%Q true [] 0 (fun _ => 0).

Definition threeTanks : State :=
  world (lookup [(1, tank 0 []); (2, heavyTank 10); (3, tank 20 [])]).

Definition frontEngine : Engine := engine [1; 2; 3] [].

(** One tank at the origin and three units of another alliance at 3, 1 and
    2 on the axis, found in this order. *)
Definition threeEnemies : State :=
  world (lookup [(1, tank 0 []); (7, enemy 3); (8, enemy 1); (9, enemy 2)]).

Definition hunterEngine : Engine := engine [1] [7; 8; 9].

(** Five tanks of two priorities and a front line from 0 to 40. *)
Definition fiveTanks : State :=
  world (lookup [(1, tank 0 []); (2, heavyTank 10); (3, tank 20 []);
                 (4, heavyTank 30); (5, tank 40 [])]).

Definition mediumFront : Command :=
  mkCommand CMD_MOVE 0 [0%Q; 0%Q; 0%Q; 40%Q; 0%Q; 0%Q].

Definition fiveEngine : Engine := engine [1; 2; 3; 4; 5] [].

End Sample.

(** * Properties *)

Ltac split_hyps :=
  repeat match goal with H : _ /\ _ |- _ => destruct H end.

(** ** Bits of the option mask *)

Lemma has_key_set_key (o k : Z) : k <> 0 -> has_key (set_key o k) k = true.
Proof.
  intros Hk. unfold has_key, set_key.
  rewrite Z.land_lor_distr_l, Z.land_diag.
  destruct (Z.eqb_spec (Z.lor (Z.land o k) k) 0) as [H0 | H0]; [ | reflexivity ].
  apply Z.lor_eq_0_iff in H0. tauto.
Qed.

Lemma has_key_clear_key (o k : Z) : has_key (clear_key o k) k = false.
Proof.
  unfold has_key, clear_key.
  rewrite <- Z.land_assoc, (Z.land_comm (Z.lnot k) k), Z.land_lnot_diag, Z.land_0_r.
  reflexivity.
Qed.

Lemma clear_key_set_key (o k : Z) : clear_key (set_key o k) k = clear_key o k.
Proof.
  unfold clear_key, set_key.
  rewrite Z.land_lor_distr_l, Z.land_lnot_diag, Z.lor_0_r. reflexivity.
Qed.

Lemma set_key_idem (o k : Z) : set_key (set_key o k) k = set_key o k.
Proof.
  unfold set_key. rewrite <- Z.lor_assoc, Z.lor_diag. reflexivity.
Qed.

(** ** Stable sorting *)

Section StableSort.

Context {A : Type} (lt : A -> A -> bool).

Lemma stable_insert_perm (v : A) (l : list A) :
  Permutation (stable_insert lt v l) (v :: l).
Proof.
  induction l as [ | h t IH ]; simpl.
  - apply Permutation_refl.
  - destruct (lt h v).
    + eapply perm_trans; [ apply perm_skip, IH | apply perm_swap ].
    + apply Permutation_refl.
Qed.

Lemma stable_sort_perm (l : list A) : Permutation (stable_sort lt l) l.
Proof.
  induction l as [ | h t IH ]; simpl.
  - apply perm_nil.
  - eapply perm_trans; [ apply stable_insert_perm | apply perm_skip, IH ].
Qed.

(** Elements that are pairwise not less than one another keep their order. *)
Lemma stable_insert_filter (p : A -> bool) (v : A) (l : list A) :
  (forall a b, p a = true -> p b = true -> lt a b = false) ->
  filter p (stable_insert lt v l) = filter p (v :: l).
Proof.
  intros Hp. induction l as [ | h t IH ]; [ reflexivity | ].
  simpl. destruct (lt h v) eqn:Hlt; [ | reflexivity ].
  simpl. rewrite IH. simpl.
  destruct (p h) eqn:Hh, (p v) eqn:Hv; try reflexivity.
  rewrite (Hp h v Hh Hv) in Hlt. discriminate.
Qed.

Lemma stable_sort_filter (p : A -> bool) (l : list A) :
  (forall a b, p a = true -> p b = true -> lt a b = false) ->
  filter p (stable_sort lt l) = filter p l.
Proof.
  intros Hp. induction l as [ | h t IH ]; [ reflexivity | ].
  simpl. rewrite (stable_insert_filter p h _ Hp). simpl. rewrite IH. reflexivity.
Qed.

Hypothesis lt_asym : forall a b, lt a b = true -> lt b a = false.
Hypothesis ge_trans : forall a b c, lt b a = false -> lt c b = false -> lt c a = false.

Lemma stable_insert_sorted (v : A) (l : list A) :
  StronglySorted (fun a b => lt b a = false) l ->
  StronglySorted (fun a b => lt b a = false) (stable_insert lt v l).
Proof.
  induction l as [ | h t IH ]; intros Hs; simpl.
  - constructor; constructor.
  - inversion Hs as [ | ? ? Ht Hh ]; subst.
    destruct (lt h v) eqn:Hlt.
    + constructor; [ apply IH, Ht | ].
      apply (Permutation_Forall (Permutation_sym (stable_insert_perm v t))).
      constructor; [ apply lt_asym, Hlt | exact Hh ].
    + constructor; [ exact Hs | ].
      constructor; [ exact Hlt | ].
      rewrite Forall_forall in Hh |- *. intros c Hc.
      apply (ge_trans v h c Hlt (Hh c Hc)).
Qed.

Lemma stable_sort_sorted (l : list A) :
  StronglySorted (fun a b => lt b a = false) (stable_sort lt l).
Proof.
  induction l as [ | h t IH ]; simpl.
  - constructor.
  - apply stable_insert_sorted, IH.
Qed.

End StableSort.

(** ** Comparisons of floats *)

Lemma flt_true (a b : float) : flt a b = true <-> (a < b)%Q.
Proof.
  unfold flt. rewrite negb_true_iff. split; intros H.
  - apply Qnot_le_lt. intros Hle. apply Qle_bool_iff in Hle. congruence.
  - destruct (Qle_bool b a) eqn:Hb; [ | reflexivity ].
    apply Qle_bool_iff in Hb. exfalso. exact (Qlt_not_le _ _ H Hb).
Qed.

Lemma flt_false (a b : float) : flt a b = false <-> (b <= a)%Q.
Proof.
  unfold flt. rewrite negb_false_iff. apply Qle_bool_iff.
Qed.

Lemma idPairComp_same_key (k : float) (a b : float * Z) :
  Qeq_bool (fst a) k = true -> Qeq_bool (fst b) k = true -> idPairComp a b = false.
Proof.
  intros Ha Hb. apply Qeq_bool_eq in Ha, Hb. unfold idPairComp.
  apply flt_false. rewrite Ha, Hb. apply Qle_refl.
Qed.

Lemma idPairComp_asym (a b : float * Z) :
  idPairComp a b = true -> idPairComp b a = false.
Proof.
  unfold idPairComp. rewrite flt_true, flt_false. apply Qlt_le_weak.
Qed.

Lemma idPairComp_ge_trans (a b c : float * Z) :
  idPairComp b a = false -> idPairComp c b = false -> idPairComp c a = false.
Proof.
  unfold idPairComp. rewrite !flt_false. apply Qle_trans.
Qed.

Lemma idPairComp_sorted (l : list (float * Z)) :
  StronglySorted (fun a b => (fst a <= fst b)%Q) (stable_sort idPairComp l).
Proof.
  generalize (stable_sort_sorted idPairComp idPairComp_asym idPairComp_ge_trans l).
  apply StronglySorted_ind with
    (P := fun l => StronglySorted (fun a b => (fst a <= fst b)%Q) l).
  - constructor.
  - intros a l0 _ IH Hall. constructor; [ exact IH | ].
    rewrite Forall_forall in Hall |- *. intros b Hb.
    apply flt_false. exact (Hall b Hb).
Qed.

Lemma idPairComp_stable (k : float) (l : list (float * Z)) :
  filter (fun p => Qeq_bool (fst p) k) (stable_sort idPairComp l)
  = filter (fun p => Qeq_bool (fst p) k) l.
Proof.
  apply stable_sort_filter. intros a b. apply idPairComp_same_key.
Qed.

(** ** CreateUnitOrder *)

Lemma CreateUnitOrder_collect_ids (st : State) (unitIDs : list Z) :
  map snd (CreateUnitOrder_collect st unitIDs) = filter (resolves st) unitIDs.
Proof.
  induction unitIDs as [ | unitID rest IH ]; [ reflexivity | ].
  simpl. unfold resolves at 1.
  destruct (units st unitID); simpl; rewrite IH; reflexivity.
Qed.

Lemma CreateUnitOrder_collect_priority (st : State) (unitIDs : list Z) (v : float)
  (unitID : Z) :
  In (v, unitID) (CreateUnitOrder_collect st unitIDs) ->
  exists unit, units st unitID = Some unit /\ v = unitPriority unit.
Proof.
  induction unitIDs as [ | i rest IH ]; simpl; [ tauto | ].
  destruct (units st i) as [ unit | ] eqn:Hu; [ | exact IH ].
  intros [ Heq | Hin ]; [ | exact (IH Hin) ].
  inversion Heq; subst. exists unit. split; [ exact Hu | reflexivity ].
Qed.

Lemma unitPriority_formula (unit : CUnit) :
  ((maxRange unit < 1)%Q ->
   unitPriority unit
   = ((metal (unitDef unit) * 60 + energy (unitDef unit)) / health (unitDef unit)
      * 2000)%Q)
  /\ ((1 <= maxRange unit)%Q ->
      unitPriority unit
      = ((metal (unitDef unit) * 60 + energy (unitDef unit)) / health (unitDef unit)
         * maxRange unit)%Q).
Proof.
  unfold unitPriority. split; intros H.
  - apply flt_true in H. rewrite H. reflexivity.
  - apply flt_false in H. rewrite H. reflexivity.
Qed.

(** C2.  [CreateUnitOrder] ranks exactly the selected units that resolve, in
    selection order before the sort; the priority of a unit is
    ((metal * 60 + energy) / health) * range, with 2000 for the range of a
    unit whose maximum range is below 1; the result is a permutation of the
    ranking, ascending in the priority, and for every priority value the
    units that have it appear in their selection order. *)
Theorem CreateUnitOrder_stable_priority (E : Engine) (player : Z) (st : State) :
  let ranking := CreateUnitOrder_collect st (netSelected E player) in
  let out := CreateUnitOrder E player st in
  map snd ranking = filter (resolves st) (netSelected E player)
  /\ (forall v unitID, In (v, unitID) out ->
        exists unit, units st unitID = Some unit
          /\ ((maxRange unit < 1)%Q ->
              v = ((metal (unitDef unit) * 60 + energy (unitDef unit))
                   / health (unitDef unit) * 2000)%Q)
          /\ ((1 <= maxRange unit)%Q ->
              v = ((metal (unitDef unit) * 60 + energy (unitDef unit))
                   / health (unitDef unit) * maxRange unit)%Q))
  /\ Permutation out ranking
  /\ StronglySorted (fun a b => (fst a <= fst b)%Q) out
  /\ (forall k, filter (fun p => Qeq_bool (fst p) k) out
                = filter (fun p => Qeq_bool (fst p) k) ranking).
Proof.
  intros ranking out. unfold out, CreateUnitOrder. fold ranking.
  split; [ apply CreateUnitOrder_collect_ids | ].
  split.
  { intros v unitID Hin.
    apply (Permutation_in _ (stable_sort_perm idPairComp ranking)) in Hin.
    destruct (CreateUnitOrder_collect_priority _ _ _ _ Hin) as (unit & Hu & Hv).
    exists unit. split; [ exact Hu | ].
    rewrite Hv. apply unitPriority_formula. }
  split; [ apply stable_sort_perm | ].
  split; [ apply idPairComp_sorted | ].
  intros k. apply idPairComp_stable.
Qed.

(** ** Frame properties of the calls on the command AIs *)

Lemma sameUnits_refl (st : State) : sameUnits st st.
Proof. intros unitID. reflexivity. Qed.

Lemma sameUnits_trans (a b c : State) : sameUnits a b -> sameUnits b c -> sameUnits a c.
Proof. intros H1 H2 unitID. rewrite (H1 unitID). apply H2. Qed.

Lemma sameUnits_sym (a b : State) : sameUnits a b -> sameUnits b a.
Proof. intros H unitID. symmetry. apply H. Qed.

Lemma sameUnits_resolves (st st' : State) (unitID : Z) :
  sameUnits st st' -> resolves st' unitID = resolves st unitID.
Proof.
  intros H. specialize (H unitID). unfold resolves.
  destruct (units st unitID), (units st' unitID); simpl in H; congruence.
Qed.

Lemma sameUnits_lookup (st st' : State) (unitID : Z) (u : CUnit) :
  sameUnits st st' -> units st unitID = Some u ->
  exists u', units st' unitID = Some u'
    /\ unitDef u' = unitDef u /\ midPos u' = midPos u /\ maxRange u' = maxRange u
    /\ maxSpeed u' = maxSpeed u /\ canSetMaxSpeed u' = canSetMaxSpeed u.
Proof.
  intros H Hu. specialize (H unitID). rewrite Hu in H.
  destruct (units st' unitID) as [ u' | ]; simpl in H; [ | discriminate ].
  exists u'. split; [ reflexivity | ].
  destruct u, u'. unfold set_commandQue in H. simpl in *.
  inversion H; subst. repeat split; reflexivity.
Qed.

Lemma sameHandler_refl (st : State) : sameHandler st st.
Proof. unfold sameHandler. repeat split; reflexivity. Qed.

Lemma sameHandler_trans (a b c : State) :
  sameHandler a b -> sameHandler b c -> sameHandler a c.
Proof.
  unfold sameHandler. intros H1 H2.
  split_hyps.
  repeat split; congruence.
Qed.

Lemma units_GiveCommand (E : Engine) (unitID : Z) (c : Command) (fromSynced : bool)
  (st : State) (j : Z) :
  units (GiveCommand E unitID c fromSynced st) j
  = if j =? unitID
    then option_map
           (fun u => set_commandQue (cai_GiveCommand E (commandQue u) c fromSynced) u)
           (units st unitID)
    else units st j.
Proof.
  unfold GiveCommand. destruct (units st unitID) as [ u | ] eqn:Hu; simpl.
  - reflexivity.
  - destruct (Z.eqb_spec j unitID) as [ -> | ]; [ exact Hu | reflexivity ].
Qed.

Lemma sameUnits_GiveCommand (E : Engine) (unitID : Z) (c : Command) (fromSynced : bool)
  (st : State) :
  sameUnits st (GiveCommand E unitID c fromSynced st).
Proof.
  intros j. rewrite units_GiveCommand.
  destruct (Z.eqb_spec j unitID) as [ -> | ]; [ | reflexivity ].
  destruct (units st unitID); reflexivity.
Qed.

Lemma sameHandler_GiveCommand (E : Engine) (unitID : Z) (c : Command)
  (fromSynced : bool) (st : State) :
  sameHandler st (GiveCommand E unitID c fromSynced st).
Proof.
  unfold GiveCommand, sameHandler.
  destruct (units st unitID); simpl; repeat split; reflexivity.
Qed.

Lemma issued_GiveCommand (E : Engine) (unitID : Z) (c : Command) (fromSynced : bool)
  (st : State) (u : CUnit) :
  units st unitID = Some u ->
  issued (GiveCommand E unitID c fromSynced st)
  = issued st ++ [EvGive unitID c fromSynced].
Proof. intros Hu. unfold GiveCommand. rewrite Hu. reflexivity. Qed.

Lemma issued_AddUnitSetMaxSpeedCommandNet (E : Engine) (unitID : Z) (opts : Z)
  (st : State) (u : CUnit) :
  units st unitID = Some u ->
  issued (AddUnitSetMaxSpeedCommandNet E unitID opts st)
  = issued st ++ speedMatch unitID u opts.
Proof.
  intros Hu. unfold AddUnitSetMaxSpeedCommandNet, speedMatch. rewrite Hu.
  destruct (canSetMaxSpeed u); simpl.
  - apply (issued_GiveCommand _ _ _ _ _ _ Hu).
  - symmetry. apply app_nil_r.
Qed.

Lemma sameUnits_AddUnitSetMaxSpeedCommandNet (E : Engine) (unitID : Z) (opts : Z)
  (st : State) :
  sameUnits st (AddUnitSetMaxSpeedCommandNet E unitID opts st).
Proof.
  unfold AddUnitSetMaxSpeedCommandNet.
  destruct (units st unitID) as [ u | ]; [ | apply sameUnits_refl ].
  destruct (canSetMaxSpeed u); simpl;
    [ apply sameUnits_GiveCommand | apply sameUnits_refl ].
Qed.

Lemma sameHandler_AddUnitSetMaxSpeedCommandNet (E : Engine) (unitID : Z) (opts : Z)
  (st : State) :
  sameHandler st (AddUnitSetMaxSpeedCommandNet E unitID opts st).
Proof.
  unfold AddUnitSetMaxSpeedCommandNet.
  destruct (units st unitID) as [ u | ]; [ | apply sameHandler_refl ].
  destruct (canSetMaxSpeed u); simpl;
    [ apply sameHandler_GiveCommand | apply sameHandler_refl ].
Qed.

Lemma speedMatch_same (unitID : Z) (u u' : CUnit) (opts : Z) :
  maxSpeed u' = maxSpeed u -> canSetMaxSpeed u' = canSetMaxSpeed u ->
  speedMatch unitID u' opts = speedMatch unitID u opts.
Proof. intros H1 H2. unfold speedMatch. rewrite H1, H2. reflexivity. Qed.

(** A loop over the selected units whose turns append to the trace what the
    units' static data decide. *)
Lemma fold_issued (f : State -> Z -> State) (ev : State -> Z -> list Event) :
  (forall st unitID, issued (f st unitID) = issued st ++ ev st unitID) ->
  (forall st unitID, sameUnits st (f st unitID)) ->
  (forall st st' unitID, sameUnits st st' -> ev st' unitID = ev st unitID) ->
  forall (l : list Z) (st : State),
    issued (fold_left f l st) = issued st ++ flat_map (ev st) l
    /\ sameUnits st (fold_left f l st).
Proof.
  intros Hi Hs He l. induction l as [ | unitID rest IH ]; intros st; simpl.
  - split; [ symmetry; apply app_nil_r | apply sameUnits_refl ].
  - destruct (IH (f st unitID)) as [ IHi IHs ]. split.
    + rewrite IHi, Hi, <- app_assoc. f_equal. f_equal.
      apply flat_map_ext. intros a. apply He, Hs.
    + exact (sameUnits_trans _ _ _ (Hs st unitID) IHs).
Qed.

Lemma fold_sameHandler (f : State -> Z -> State) :
  (forall st unitID, sameHandler st (f st unitID)) ->
  forall (l : list Z) (st : State), sameHandler st (fold_left f l st).
Proof.
  intros Hf l. induction l as [ | unitID rest IH ]; intros st; simpl.
  - apply sameHandler_refl.
  - exact (sameHandler_trans _ _ _ (Hf st unitID) (IH _)).
Qed.

(** On the sample the tanks 1 and 3 have the same priority and keep their
    selection order in front of the heavy tank 2. *)
Lemma CreateUnitOrder_sample :
  map (fun p => (Qred (fst p), snd p))
      (CreateUnitOrder Sample.frontEngine 0 Sample.threeTanks)
  = [(4200%Q, 1); (4200%Q, 3); (15000%Q, 2)].
Proof. vm_compute. reflexivity. Qed.

(** ** The short front: MakeFormationFrontOrder falls back to a plain order *)

Lemma flat_map_resolved (st : State) (ev : Z -> Event) (l : list Z) :
  flat_map (fun unitID => if resolves st unitID then [ev unitID] else []) l
  = map ev (filter (resolves st) l).
Proof.
  induction l as [ | unitID rest IH ]; [ reflexivity | ].
  simpl. destruct (resolves st unitID); simpl; rewrite IH; reflexivity.
Qed.

Lemma giveIfResolved_loop (E : Engine) (c : Command) (fromSynced : bool)
  (l : list Z) (st : State) :
  issued (fold_left (giveIfResolved E c fromSynced) l st)
  = issued st ++ map (fun unitID => EvGive unitID c fromSynced) (filter (resolves st) l)
  /\ sameUnits st (fold_left (giveIfResolved E c fromSynced) l st)
  /\ sameHandler st (fold_left (giveIfResolved E c fromSynced) l st).
Proof.
  set (ev := fun (st0 : State) (unitID : Z) =>
               if resolves st0 unitID then [EvGive unitID c fromSynced] else []).
  assert (H1 : forall st0 unitID,
             issued (giveIfResolved E c fromSynced st0 unitID)
             = issued st0 ++ ev st0 unitID).
  { intros st0 unitID. unfold giveIfResolved, ev, resolves.
    destruct (units st0 unitID) as [ u | ] eqn:Hu.
    - apply (issued_GiveCommand _ _ _ _ _ _ Hu).
    - symmetry. apply app_nil_r. }
  assert (H2 : forall st0 unitID, sameUnits st0 (giveIfResolved E c fromSynced st0 unitID)).
  { intros st0 unitID. unfold giveIfResolved.
    destruct (units st0 unitID); [ apply sameUnits_GiveCommand | apply sameUnits_refl ]. }
  assert (H3 : forall st0 st1 unitID, sameUnits st0 st1 -> ev st1 unitID = ev st0 unitID).
  { intros st0 st1 unitID H. unfold ev.
    rewrite (sameUnits_resolves _ _ _ H). reflexivity. }
  destruct (fold_issued _ ev H1 H2 H3 l st) as [ Hi Hs ].
  unfold ev in Hi. rewrite flat_map_resolved in Hi.
  split; [ exact Hi | split; [ exact Hs | ] ].
  apply fold_sameHandler. intros st0 unitID. unfold giveIfResolved.
  destruct (units st0 unitID);
    [ apply sameHandler_GiveCommand | apply sameHandler_refl ].
Qed.

(** C1.  When the distance of the two points of the front line is below the
    number of selected units plus 33, [MakeFormationFrontOrder] gives the
    order it received, as it is, to every selected unit that resolves, in
    selection order, and nothing else: no row is closed, no front length or
    spacing is computed, and the outcome is the loop that hands [c] over. *)
Theorem MakeFormationFrontOrder_short_front (E : Engine) (c : Command) (player : Z)
  (st : State) :
  flt (distance E (GetPos c 0) (GetPos c 3))
      (of_size (length (netSelected E player) + 33)) = true ->
  let st' := MakeFormationFrontOrder E c player st in
  issued st'
  = issued st
    ++ map (fun unitID => EvGive unitID c false)
           (filter (resolves st) (netSelected E player))
  /\ flushed st' = flushed st
  /\ divisors st' = divisors st
  /\ groupFrontLength st' = groupFrontLength st
  /\ groupAddedSpace st' = groupAddedSpace st
  /\ st' = fold_left (giveIfResolved E c false) (netSelected E player)
                     (set_formation_points (GetPos c 0) (GetPos c 3) st).
Proof.
  intros Hshort st'.
  assert (Hst' : st' = fold_left (giveIfResolved E c false) (netSelected E player)
                        (set_formation_points (GetPos c 0) (GetPos c 3) st)).
  { unfold st', MakeFormationFrontOrder. simpl. rewrite Hshort. reflexivity. }
  destruct (giveIfResolved_loop E c false (netSelected E player)
              (set_formation_points (GetPos c 0) (GetPos c 3) st))
    as (Hi & _ & Hh).
  rewrite <- Hst' in Hi, Hh.
  unfold sameHandler in Hh. simpl in Hh.
  split_hyps.
  repeat split; try (symmetry; assumption); assumption.
Qed.

Lemma MakeFormationFrontOrder_short_front_witness :
  flt (distance (Sample.engine [1; 2; 3] []) (GetPos Sample.shortFront 0)
                (GetPos Sample.shortFront 3))
      (of_size (length (netSelected (Sample.engine [1; 2; 3] []) 0) + 33)) = true
  /\ issued (MakeFormationFrontOrder (Sample.engine [1; 2; 3] []) Sample.shortFront 0
                                     Sample.twoTanks)
     = [EvGive 1 Sample.shortFront false; EvGive 2 Sample.shortFront false].
Proof.
  split; [ vm_compute; reflexivity | ].
  exact (proj1 (MakeFormationFrontOrder_short_front
                  (Sample.engine [1; 2; 3] []) Sample.shortFront 0 Sample.twoTanks
                  eq_refl)).
Defined.

(** ** The broadcast of a plain order *)

Lemma issued_acknowledgeWait (E : Engine) (c : Command) (player : Z) (st : State) :
  issued (acknowledgeWait E c player st) = issued st ++ acknowledgeEvents E c player.
Proof.
  unfold acknowledgeWait, acknowledgeEvents.
  destruct (GetID c =? CMD_WAIT); simpl; [ | symmetry; apply app_nil_r ].
  destruct (player =? myPlayerNum E); simpl; [ reflexivity | symmetry; apply app_nil_r ].
Qed.

Lemma broadcastOrder_loop (E : Engine) (c : Command) (l : list Z) (st : State) :
  issued (fold_left (broadcastOrder E c) l st)
  = issued st ++ flat_map (broadcastEvents c st) l.
Proof.
  apply (fold_issued (broadcastOrder E c) (broadcastEvents c)).
  - intros st0 unitID. unfold broadcastOrder, broadcastEvents.
    destruct (units st0 unitID) as [ u | ] eqn:Hu; [ | symmetry; apply app_nil_r ].
    destruct (MayRequireSetMaxSpeedCommand c); simpl.
    + destruct (sameUnits_lookup _ _ _ _ (sameUnits_GiveCommand E unitID c true st0) Hu)
        as (u' & Hu' & _ & _ & _ & Hspeed & Hcan).
      rewrite (issued_AddUnitSetMaxSpeedCommandNet _ _ _ _ _ Hu').
      rewrite (issued_GiveCommand _ _ _ _ _ _ Hu), <- app_assoc.
      rewrite (speedMatch_same _ _ _ _ Hspeed Hcan). reflexivity.
    + apply (issued_GiveCommand _ _ _ _ _ _ Hu).
  - intros st0 unitID. unfold broadcastOrder.
    destruct (units st0 unitID); [ | apply sameUnits_refl ].
    destruct (MayRequireSetMaxSpeedCommand c); simpl.
    + eapply sameUnits_trans; [ apply sameUnits_GiveCommand | ].
      apply sameUnits_AddUnitSetMaxSpeedCommandNet.
    + apply sameUnits_GiveCommand.
  - intros st0 st1 unitID H. unfold broadcastEvents.
    destruct (units st0 unitID) as [ u | ] eqn:Hu.
    + destruct (sameUnits_lookup _ _ _ _ H Hu) as (u' & Hu' & _ & _ & _ & Hspeed & Hcan).
      rewrite Hu', (speedMatch_same _ _ _ _ Hspeed Hcan). reflexivity.
    + generalize (sameUnits_resolves _ _ unitID H). unfold resolves. rewrite Hu.
      destruct (units st1 unitID); [ discriminate | reflexivity ].
Qed.

Lemma broadcastEvents_heads (c : Command) (st : State) (l : list Z) :
  flat_map (fun unitID => firstn 1 (broadcastEvents c st unitID)) l
  = map (fun unitID => EvGive unitID c true) (filter (resolves st) l).
Proof.
  induction l as [ | unitID rest IH ]; [ reflexivity | ].
  cbn [flat_map filter]. rewrite IH.
  destruct (units st unitID) as [ u | ] eqn:Hu;
    unfold broadcastEvents, resolves; rewrite Hu; reflexivity.
Qed.

Lemma GiveCommandNet_reaches_broadcast (E : Engine) (c : Command) (player : Z)
  (st : State) :
  reachesBroadcast E c player = true ->
  GiveCommandNet E c player st
  = acknowledgeWait E c player
      (fold_left (broadcastOrder E c) (netSelected E player) st).
Proof.
  unfold reachesBroadcast. rewrite !andb_true_iff, !negb_true_iff.
  intros ((((Hn & Ha) & Hf) & Hm) & Hl).
  apply Nat.leb_le in Hn.
  unfold GiveCommandNet. rewrite Ha, Hf, Hm, Hl.
  destruct (Z.ltb_spec (Z.of_nat (length (netSelected E player))) 1); [ lia | ].
  destruct (Z.eqb_spec (Z.of_nat (length (netSelected E player))) 1); [ lia | ].
  reflexivity.
Qed.

(** C6 (as amended).  An order that reaches the last block of
    [GiveCommandNet] is given once, as it is, to every selected unit that
    resolves, in selection order (as many copies as selected ids that
    resolve); the copy of a unit is followed by one
    speed-match order exactly when the command kind is outside the exclusion
    set and the unit's command AI can set a maximum speed; a wait order of
    the local player is acknowledged at the end. *)
Theorem GiveCommandNet_broadcast (E : Engine) (c : Command) (player : Z) (st : State) :
  reachesBroadcast E c player = true ->
  let st' := GiveCommandNet E c player st in
  issued st'
  = issued st ++ flat_map (broadcastEvents c st) (netSelected E player)
    ++ acknowledgeEvents E c player
  /\ (forall unitID unit, units st unitID = Some unit ->
        broadcastEvents c st unitID
        = EvGive unitID c true
          :: (if MayRequireSetMaxSpeedCommand c && canSetMaxSpeed unit
              then [EvGive unitID
                      (Command1 CMD_SET_WANTED_MAX_SPEED (options c) (maxSpeed unit))
                      true]
              else []))
  /\ (forall unitID, units st unitID = None -> broadcastEvents c st unitID = [])
  /\ flat_map (fun unitID => firstn 1 (broadcastEvents c st unitID))
              (netSelected E player)
     = map (fun unitID => EvGive unitID c true)
           (filter (resolves st) (netSelected E player))
  /\ (MayRequireSetMaxSpeedCommand c = false <->
      In (GetID c) [CMD_STOP; CMD_WAIT; CMD_SELFD; CMD_FIRE_STATE; CMD_MOVE_STATE;
                    CMD_ONOFF; CMD_REPEAT]).
Proof.
  intros Hreach st'. unfold st'.
  rewrite (GiveCommandNet_reaches_broadcast _ _ _ _ Hreach).
  rewrite issued_acknowledgeWait, broadcastOrder_loop, app_assoc.
  split; [ reflexivity | ].
  split.
  { intros unitID unit Hu. unfold broadcastEvents, speedMatch. rewrite Hu.
    destruct (MayRequireSetMaxSpeedCommand c), (canSetMaxSpeed unit); reflexivity. }
  split.
  { intros unitID Hu. unfold broadcastEvents. rewrite Hu. reflexivity. }
  split; [ apply broadcastEvents_heads | ].
  unfold MayRequireSetMaxSpeedCommand. simpl.
  destruct (Z.eqb_spec (GetID c) CMD_STOP); [ intuition | ].
  destruct (Z.eqb_spec (GetID c) CMD_WAIT); [ intuition | ].
  destruct (Z.eqb_spec (GetID c) CMD_SELFD); [ intuition | ].
  destruct (Z.eqb_spec (GetID c) CMD_FIRE_STATE); [ intuition | ].
  destruct (Z.eqb_spec (GetID c) CMD_MOVE_STATE); [ intuition | ].
  destruct (Z.eqb_spec (GetID c) CMD_ONOFF); [ intuition | ].
  destruct (Z.eqb_spec (GetID c) CMD_REPEAT); [ intuition | ].
  simpl. split; [ discriminate | ].
  intros H. repeat (destruct H as [ H | H ]; [ congruence | ]). contradiction.
Qed.

Lemma GiveCommandNet_broadcast_witness :
  reachesBroadcast (Sample.engine [1; 3; 2] []) Sample.attackUnit7 0 = true
  /\ issued (GiveCommandNet (Sample.engine [1; 3; 2] []) Sample.attackUnit7 0
                            Sample.twoTanks)
     = [EvGive 1 Sample.attackUnit7 true;
        EvGive 1 (Command1 CMD_SET_WANTED_MAX_SPEED 0 2%Q) true;
        EvGive 2 Sample.attackUnit7 true;
        EvGive 2 (Command1 CMD_SET_WANTED_MAX_SPEED 0 2%Q) true].
Proof.
  split; [ reflexivity | ].
  exact (proj1 (GiveCommandNet_broadcast
                  (Sample.engine [1; 3; 2] []) Sample.attackUnit7 0 Sample.twoTanks
                  eq_refl)).
Defined.

(** C6 as the specification words it does not hold on units that cannot set
    a maximum speed: two turrets receive an attack order, whose kind is
    outside the exclusion set, and no speed-match order follows. *)
Lemma GiveCommandNet_broadcast_no_speed_match :
  reachesBroadcast (Sample.engine [1; 2] []) Sample.attackUnit7 0 = true
  /\ MayRequireSetMaxSpeedCommand Sample.attackUnit7 = true
  /\ resolves Sample.twoTurrets 1 = true
  /\ resolves Sample.twoTurrets 2 = true
  /\ issued (GiveCommandNet (Sample.engine [1; 2] []) Sample.attackUnit7 0
                            Sample.twoTurrets)
     = [EvGive 1 Sample.attackUnit7 true; EvGive 2 Sample.attackUnit7 true].
Proof. repeat split; vm_compute; reflexivity. Qed.

(** ** The area attack without modifiers *)

Lemma clear_key_idem (o k : Z) : clear_key (clear_key o k) k = clear_key o k.
Proof.
  unfold clear_key. rewrite <- Z.land_assoc, Z.land_diag. reflexivity.
Qed.

Lemma param_set_attack (a : Command) (target : Z) :
  cmdID a = CMD_ATTACK -> length (params a) = 1%nat ->
  param_set a 0 (of_int target) = attackOn (options a) target.
Proof.
  intros Hid Hlen. unfold param_set, attackOn. rewrite Hid.
  destruct (params a) as [ | p [ | q ps ] ]; try discriminate. reflexivity.
Qed.

Lemma attackEventsFrom_queued (unitID : Z) (unit : CUnit) (opts : Z) (targets : list Z) :
  attackEventsFrom unitID unit (set_key opts SHIFT_KEY) targets
  = flat_map (attackEvents unitID unit (set_key opts SHIFT_KEY)) targets.
Proof.
  induction targets as [ | t rest IH ]; [ reflexivity | ].
  simpl. rewrite set_key_idem, IH. reflexivity.
Qed.

Lemma attackTarget_plain (E : Engine) (unitID : Z) (a : Command) (s : State)
  (t : float * Z) :
  cmdID a = CMD_ATTACK -> length (params a) = 1%nat ->
  attackTarget E false unitID (a, s) t
  = (with_options (attackOn (options a) (snd t)) (set_key (options a) SHIFT_KEY),
     AddUnitSetMaxSpeedCommandNet E unitID (options a)
       (GiveCommand E unitID (attackOn (options a) (snd t)) true s)).
Proof.
  intros Hid Hlen. unfold attackTarget. simpl.
  rewrite (param_set_attack a (snd t) Hid Hlen). reflexivity.
Qed.

Lemma attackTarget_loop (E : Engine) (unitID : Z) (unit : CUnit)
  (ranked : list (float * Z)) :
  forall (a : Command) (s : State) (u : CUnit),
    units s unitID = Some u ->
    maxSpeed u = maxSpeed unit -> canSetMaxSpeed u = canSetMaxSpeed unit ->
    cmdID a = CMD_ATTACK -> length (params a) = 1%nat ->
    let r := fold_left (attackTarget E false unitID) ranked (a, s) in
    issued (snd r)
    = issued s ++ attackEventsFrom unitID unit (options a) (map snd ranked)
    /\ sameUnits s (snd r)
    /\ cmdID (fst r) = CMD_ATTACK /\ length (params (fst r)) = 1%nat
    /\ options (fst r)
       = match ranked with [] => options a | _ :: _ => set_key (options a) SHIFT_KEY end.
Proof.
  induction ranked as [ | t rest IH ]; intros a s u Hu Hspeed Hcan Hid Hlen;
    cbv zeta; simpl fold_left.
  - split; [ symmetry; apply app_nil_r | ].
    split; [ apply sameUnits_refl | ].
    repeat split; assumption || reflexivity.
  - rewrite (attackTarget_plain E unitID a s t Hid Hlen).
    set (s1 := GiveCommand E unitID (attackOn (options a) (snd t)) true s).
    set (s2 := AddUnitSetMaxSpeedCommandNet E unitID (options a) s1).
    assert (H1 : sameUnits s s1) by apply sameUnits_GiveCommand.
    assert (H2 : sameUnits s1 s2) by apply sameUnits_AddUnitSetMaxSpeedCommandNet.
    destruct (sameUnits_lookup _ _ _ _ H1 Hu) as (u1 & Hu1 & _ & _ & _ & Hs1 & Hc1).
    destruct (sameUnits_lookup _ _ _ _ H2 Hu1) as (u2 & Hu2 & _ & _ & _ & Hs2 & Hc2).
    assert (Hs20 : maxSpeed u2 = maxSpeed unit) by congruence.
    assert (Hc20 : canSetMaxSpeed u2 = canSetMaxSpeed unit) by congruence.
    pose proof (IH (with_options (attackOn (options a) (snd t))
                                 (set_key (options a) SHIFT_KEY)) s2 u2 Hu2 Hs20 Hc20
                   eq_refl eq_refl) as HIH.
    cbv zeta in HIH. destruct HIH as (Hi & Hsame & Hid' & Hlen' & Hopts).
    split.
    { rewrite Hi. unfold s2.
      rewrite (issued_AddUnitSetMaxSpeedCommandNet _ _ _ _ _ Hu1). unfold s1.
      rewrite (issued_GiveCommand _ _ _ _ _ _ Hu).
      rewrite (speedMatch_same unitID unit u1 (options a)) by congruence.
      simpl. rewrite <- !app_assoc. reflexivity. }
    split; [ exact (sameUnits_trans _ _ _ (sameUnits_trans _ _ _ H1 H2) Hsame) | ].
    split; [ exact Hid' | ].
    split; [ exact Hlen' | ].
    rewrite Hopts. simpl. destruct rest; [ reflexivity | apply set_key_idem ].
Qed.

Lemma unitAttackEvents_from (opts : Z) (targets : list Z) (st : State) (unitID : Z)
  (unit : CUnit) :
  units st unitID = Some unit ->
  unitAttackEvents opts targets st unitID
  = attackEventsFrom unitID unit (clear_key opts SHIFT_KEY) targets.
Proof.
  intros Hu. unfold unitAttackEvents. rewrite Hu.
  destruct targets as [ | t rest ]; [ reflexivity | ].
  simpl. rewrite attackEventsFrom_queued. reflexivity.
Qed.

Lemma attackUnit_loop (E : Engine) (opts : Z) (ranked : list (float * Z)) (st0 : State) :
  forall (selected : list Z) (a : Command) (s : State),
    sameUnits st0 s ->
    cmdID a = CMD_ATTACK -> length (params a) = 1%nat ->
    clear_key (options a) SHIFT_KEY = clear_key opts SHIFT_KEY ->
    issued (snd (fold_left (attackUnit E false ranked) selected (a, s)))
    = issued s ++ flat_map (unitAttackEvents opts (map snd ranked) st0) selected.
Proof.
  induction selected as [ | unitID rest IH ]; intros a s Hsame Hid Hlen Hopts; simpl.
  - symmetry. apply app_nil_r.
  - unfold attackUnit at 2. simpl.
    destruct (units st0 unitID) as [ unit | ] eqn:Hu0.
    + destruct (sameUnits_lookup _ _ _ _ Hsame Hu0) as (u & Hu & _ & _ & _ & Hs & Hc).
      rewrite Hu.
      pose proof (attackTarget_loop E unitID unit ranked
                    (with_options a (clear_key (options a) SHIFT_KEY)) s u Hu Hs Hc
                    Hid Hlen) as Hloop.
      cbv zeta in Hloop. destruct Hloop as (Hi & Hsame' & Hid' & Hlen' & Hopts').
      destruct (fold_left (attackTarget E false unitID) ranked
                  (with_options a (clear_key (options a) SHIFT_KEY), s))
        as [ a' s' ] eqn:Hfold.
      simpl in Hi, Hsame', Hid', Hlen', Hopts'.
      rewrite (IH a' s' (sameUnits_trans _ _ _ Hsame Hsame') Hid' Hlen').
      * rewrite Hi, <- app_assoc. f_equal. f_equal.
        rewrite (unitAttackEvents_from _ _ _ _ _ Hu0), Hopts. reflexivity.
      * rewrite Hopts'. destruct ranked.
        -- rewrite clear_key_idem. exact Hopts.
        -- rewrite clear_key_set_key, clear_key_idem. exact Hopts.
    + assert (Hnone : units s unitID = None).
      { generalize (sameUnits_resolves _ _ unitID Hsame). unfold resolves.
        rewrite Hu0. destruct (units s unitID); [ discriminate | reflexivity ]. }
      rewrite Hnone.
      rewrite (IH _ s Hsame); try assumption.
      * unfold unitAttackEvents at 2. rewrite Hu0. reflexivity.
      * simpl. rewrite clear_key_idem. exact Hopts.
Qed.

Lemma attackCenter_count (st : State) (queueing : bool) (selected : list Z) :
  forall acc,
    snd (fold_left (attackCenter_step st queueing) selected acc)
    = snd acc + Z.of_nat (length (filter (resolves st) selected)).
Proof.
  induction selected as [ | unitID rest IH ]; intros acc; simpl.
  - lia.
  - rewrite IH. unfold attackCenter_step, resolves.
    destruct (units st unitID); simpl; lia.
Qed.

Lemma unitAttackEvents_none (opts : Z) (targets : list Z) (st : State)
  (selected : list Z) :
  targets = [] \/ filter (resolves st) selected = [] ->
  flat_map (unitAttackEvents opts targets st) selected = [].
Proof.
  intros H. induction selected as [ | unitID rest IH ]; [ reflexivity | ].
  simpl. unfold unitAttackEvents at 1.
  destruct H as [ -> | H ].
  - destruct (units st unitID); simpl; apply IH; left; reflexivity.
  - simpl in H. unfold resolves at 1 in H.
    destruct (units st unitID); [ discriminate | ].
    simpl. apply IH. right. exact H.
Qed.

(** C3 (as amended).  In an area attack without the queueing and control
    modifiers every selected unit that resolves receives one attack order per
    target, in the order of the ranking (ascending distance to the group
    center); the first attack order of each unit is not queued and the
    following ones of that unit are queued; every attack order is followed by
    the unit's speed-match order, carrying the same options, when its command
    AI can set a maximum speed. *)
Theorem SelectAttackNet_plain (E : Engine) (cmd : Command) (player : Z) (st : State) :
  has_key (options cmd) SHIFT_KEY = false ->
  has_key (options cmd) CONTROL_KEY = false ->
  let ranking :=
    rankTargets st (attackCenter E player false st) (areaTargets E cmd player st) in
  let first := clear_key (options cmd) SHIFT_KEY in
  let following := set_key first SHIFT_KEY in
  issued (SelectAttackNet E cmd player st)
  = issued st
    ++ flat_map (unitAttackEvents (options cmd) (map snd ranking) st)
                (netSelected E player)
  /\ StronglySorted (fun a b => (fst a <= fst b)%Q) ranking
  /\ Permutation (map snd ranking) (areaTargets E cmd player st)
  /\ (forall unitID unit t others,
        units st unitID = Some unit ->
        unitAttackEvents (options cmd) (t :: others) st unitID
        = [EvGive unitID (attackOn first t) true] ++ speedMatch unitID unit first
          ++ flat_map (fun t' => EvGive unitID (attackOn following t') true
                                 :: speedMatch unitID unit following) others)
  /\ has_key first SHIFT_KEY = false
  /\ has_key following SHIFT_KEY = true.
Proof.
  intros Hshift Hctrl ranking first following.
  split.
  { unfold SelectAttackNet. fold (areaTargets E cmd player st) in *.
    unfold ranking. clear ranking.
    destruct (areaTargets E cmd player st) as [ | t0 ts ] eqn:Htargets.
    { rewrite unitAttackEvents_none; [ symmetry; apply app_nil_r | ].
      left. reflexivity. }
    destruct (netSelected E player) as [ | s0 ss ] eqn:Hsel.
    { symmetry. apply app_nil_r. }
    rewrite Hctrl, Hshift.
    unfold attackCenter. rewrite Hsel.
    set (center := fold_left (attackCenter_step st false) (s0 :: ss) (ZeroVector, 0)).
    assert (Hcount : snd center = Z.of_nat (length (filter (resolves st) (s0 :: ss)))).
    { unfold center. rewrite attackCenter_count. reflexivity. }
    destruct (Z.eqb_spec (snd center) 0) as [ Hzero | Hpos ].
    { rewrite unitAttackEvents_none; [ symmetry; apply app_nil_r | ].
      right. rewrite Hzero in Hcount.
      destruct (filter (resolves st) (s0 :: ss)); [ reflexivity | simpl in Hcount; lia ]. }
    rewrite (attackUnit_loop E (options cmd) _ st); try reflexivity.
    intros unitID. reflexivity. }
  split; [ apply idPairComp_sorted | ].
  split.
  { unfold ranking, rankTargets.
    eapply Permutation_trans; [ apply Permutation_map, stable_sort_perm | ].
    rewrite map_map. clear.
    induction (areaTargets E cmd player st) as [ | t rest IH ]; [ apply perm_nil | ].
    simpl. unfold targetDistance at 1.
    destruct (units st t); simpl; apply perm_skip, IH. }
  split.
  { intros unitID unit t others Hu. unfold unitAttackEvents. rewrite Hu. reflexivity. }
  split; [ apply has_key_clear_key | ].
  apply has_key_set_key. discriminate.
Qed.

Lemma SelectAttackNet_plain_witness :
  has_key (options (Sample.areaAttack 0)) SHIFT_KEY = false
  /\ has_key (options (Sample.areaAttack 0)) CONTROL_KEY = false
  /\ issued (SelectAttackNet (Sample.engine [1] [7]) (Sample.areaAttack 0) 0
                             Sample.tanksAndEnemy)
     = issued Sample.tanksAndEnemy
       ++ flat_map
            (unitAttackEvents (options (Sample.areaAttack 0))
               (map snd
                  (rankTargets Sample.tanksAndEnemy
                     (attackCenter (Sample.engine [1] [7]) 0 false Sample.tanksAndEnemy)
                     (areaTargets (Sample.engine [1] [7]) (Sample.areaAttack 0) 0
                                  Sample.tanksAndEnemy)))
               Sample.tanksAndEnemy)
            (netSelected (Sample.engine [1] [7]) 0).
Proof.
  split; [ reflexivity | split; [ reflexivity | ] ].
  exact (proj1 (SelectAttackNet_plain (Sample.engine [1] [7]) (Sample.areaAttack 0) 0
                  Sample.tanksAndEnemy eq_refl eq_refl)).
Defined.

(** C3 as the specification words it does not hold on the second selected
    unit: its first attack order is the third order of the operation and is
    not queued; nor on a unit that cannot set a maximum speed, whose attack
    order is followed by no speed-match order. *)
Lemma SelectAttackNet_plain_second_unit_not_queued :
  issued (SelectAttackNet (Sample.engine [1; 2] [7]) (Sample.areaAttack 0) 0
                          Sample.tanksAndEnemy)
  = [EvGive 1 (attackOn 0 7) true;
     EvGive 1 (Command1 CMD_SET_WANTED_MAX_SPEED 0 2%Q) true;
     EvGive 2 (attackOn 0 7) true;
     EvGive 2 (Command1 CMD_SET_WANTED_MAX_SPEED 0 2%Q) true]
  /\ has_key (options (attackOn 0 7)) SHIFT_KEY = false
  /\ issued (SelectAttackNet (Sample.engine [1] [7]) (Sample.areaAttack 0) 0
                             Sample.turretAndEnemy)
     = [EvGive 1 (attackOn 0 7) true].
Proof. repeat split; vm_compute; reflexivity. Qed.

(** ** Ranking of the targets of an area attack *)




(** On the sample the targets 7, 8, 9 stand at squared distances 9, 1, 4
    from the selected unit and are attacked in the order 8, 9, 7. *)
Lemma rankTargets_sample :
  map (fun p => (Qred (fst p), snd p))
      (rankTargets Sample.threeEnemies
         (attackCenter Sample.hunterEngine 0 false Sample.threeEnemies)
         (areaTargets Sample.hunterEngine (Sample.areaAttack 0) 0 Sample.threeEnemies))
  = [(1%Q, 8); (4%Q, 9); (9%Q, 7)]
  /\ issued (SelectAttackNet Sample.hunterEngine (Sample.areaAttack 0) 0
                             Sample.threeEnemies)
     = [EvGive 1 (attackOn 0 8) true;
        EvGive 1 (Command1 CMD_SET_WANTED_MAX_SPEED 0 2%Q) true;
        EvGive 1 (attackOn SHIFT_KEY 9) true;
        EvGive 1 (Command1 CMD_SET_WANTED_MAX_SPEED SHIFT_KEY 2%Q) true;
        EvGive 1 (attackOn SHIFT_KEY 7) true;
        EvGive 1 (Command1 CMD_SET_WANTED_MAX_SPEED SHIFT_KEY 2%Q) true].
Proof. split; vm_compute; reflexivity. Qed.

(** ** The area attack with the control modifier: cancellation *)

Lemma cancelRun_app (E : Engine) (opts : Z) (selected targets : list Z)
  (s1 s2 s3 : State) (evs1 evs2 : list Event) :
  cancelRun E opts selected targets s1 evs1 s2 ->
  cancelRun E opts selected targets s2 evs2 s3 ->
  cancelRun E opts selected targets s1 (evs1 ++ evs2) s3.
Proof.
  intros H1 H2. induction H1 as [ st | st unitID target evs st' Hs Ht Hr Hw Hrun IH ].
  - exact H2.
  - simpl. apply cancelRun_give; auto.
Qed.

Lemma cancelRun_issued (E : Engine) (opts : Z) (selected targets : list Z)
  (s1 s2 : State) (evs : list Event) :
  cancelRun E opts selected targets s1 evs s2 -> issued s2 = issued s1 ++ evs.
Proof.
  intros H. induction H as [ st | st unitID target evs st' Hs Ht Hr Hw Hrun IH ].
  - symmetry. apply app_nil_r.
  - rewrite IH. unfold resolves in Hr.
    destruct (units st unitID) as [ u | ] eqn:Hu; [ | discriminate ].
    rewrite (issued_GiveCommand _ _ _ _ _ _ Hu), <- app_assoc. reflexivity.
Qed.

Lemma cancelRun_orders (E : Engine) (opts : Z) (selected targets : list Z)
  (s1 s2 : State) (evs : list Event) :
  cancelRun E opts selected targets s1 evs s2 ->
  Forall (fun e => exists unitID target,
            e = EvGive unitID (attackOn (set_key opts SHIFT_KEY) target) true
            /\ In unitID selected /\ In target targets) evs.
Proof.
  intros H. induction H as [ st | st unitID target evs st' Hs Ht Hr Hw Hrun IH ].
  - constructor.
  - constructor; [ | exact IH ]. exists unitID, target. auto.
Qed.

Lemma cancelRun_frame (E : Engine) (opts : Z) (selected targets : list Z)
  (s1 s2 : State) (evs : list Event) :
  cancelRun E opts selected targets s1 evs s2 ->
  sameUnits s1 s2 /\ sameHandler s1 s2.
Proof.
  intros H. induction H as [ st | st unitID target evs st' Hs Ht Hr Hw Hrun IH ].
  - split; [ apply sameUnits_refl | apply sameHandler_refl ].
  - destruct IH as [ IHu IHh ]. split.
    + exact (sameUnits_trans _ _ _ (sameUnits_GiveCommand _ _ _ _ _) IHu).
    + exact (sameHandler_trans _ _ _ (sameHandler_GiveCommand _ _ _ _ _) IHh).
Qed.

(** A unit none of whose queued orders matches a candidate target is not
    touched by the run. *)
Lemma cancelRun_untouched (E : Engine) (opts : Z) (selected targets : list Z)
  (s1 s2 : State) (evs : list Event) (unitID : Z) (unit : CUnit) :
  cancelRun E opts selected targets s1 evs s2 ->
  units s1 unitID = Some unit ->
  (forall target, In target targets ->
     cai_WillCancelQueued E (commandQue unit)
                          (attackOn (set_key opts SHIFT_KEY) target) = false) ->
  units s2 unitID = Some unit
  /\ Forall (fun e => match e with
                      | EvGive j _ _ => j <> unitID
                      | EvAcknowledge _ => True
                      end) evs.
Proof.
  intros H. induction H as [ st | st j target evs st' Hs Ht Hr Hw Hrun IH ];
    intros Hu Hnone.
  - split; [ exact Hu | constructor ].
  - assert (Hneq : j <> unitID).
    { intros ->. unfold WillCancelQueued in Hw. rewrite Hu in Hw.
      rewrite (Hnone target Ht) in Hw. discriminate. }
    destruct IH as [ IHu IHe ].
    + rewrite units_GiveCommand.
      destruct (Z.eqb_spec unitID j) as [ Heq | _ ]; [ congruence | exact Hu ].
    + exact Hnone.
    + split; [ exact IHu | constructor; assumption ].
Qed.

Lemma cancelTarget_loop (E : Engine) (opts : Z) (selected targets : list Z)
  (unitID : Z) :
  In unitID selected ->
  forall (ts : list Z) (s : State),
    incl ts targets -> resolves s unitID = true ->
    exists evs,
      cancelRun E opts selected targets s evs
        (fold_left (cancelTarget E unitID
                      (with_options (Command1 CMD_ATTACK opts 0%Q)
                                    (set_key opts SHIFT_KEY)))
                   ts s).
Proof.
  intros Hsel. induction ts as [ | t rest IH ]; intros s Hincl Hres; simpl.
  - exists []. constructor.
  - assert (Ht : In t targets) by (apply Hincl; left; reflexivity).
    assert (Hrest : incl rest targets) by (intros x Hx; apply Hincl; right; exact Hx).
    unfold cancelTarget at 2. simpl.
    change (param_set (with_options (Command1 CMD_ATTACK opts 0%Q)
                                    (set_key opts SHIFT_KEY)) 0 (of_int t))
      with (attackOn (set_key opts SHIFT_KEY) t).
    destruct (WillCancelQueued E s unitID (attackOn (set_key opts SHIFT_KEY) t)) eqn:Hw;
      simpl.
    + destruct (IH (GiveCommand E unitID (attackOn (set_key opts SHIFT_KEY) t) true s)
                  Hrest) as [ evs Hrun ].
      { rewrite (sameUnits_resolves _ _ _ (sameUnits_GiveCommand _ _ _ _ _)).
        exact Hres. }
      exists (EvGive unitID (attackOn (set_key opts SHIFT_KEY) t) true :: evs).
      apply cancelRun_give; assumption.
    + apply IH; assumption.
Qed.

Lemma cancelUnit_loop (E : Engine) (opts : Z) (selected targets : list Z) :
  forall (sel : list Z) (s : State),
    incl sel selected ->
    exists evs,
      cancelRun E opts selected targets s evs
        (fold_left (cancelUnit E
                      (with_options (Command1 CMD_ATTACK opts 0%Q)
                                    (set_key opts SHIFT_KEY))
                      targets)
                   sel s).
Proof.
  induction sel as [ | unitID rest IH ]; intros s Hincl; simpl.
  - exists []. constructor.
  - assert (Hin : In unitID selected) by (apply Hincl; left; reflexivity).
    assert (Hrest : incl rest selected) by (intros x Hx; apply Hincl; right; exact Hx).
    unfold cancelUnit at 2.
    destruct (units s unitID) as [ u | ] eqn:Hu; [ | apply IH; exact Hrest ].
    destruct (cancelTarget_loop E opts selected targets unitID Hin targets s
                (incl_refl _)) as [ evs1 H1 ].
    { unfold resolves. rewrite Hu. reflexivity. }
    destruct (IH (fold_left (cancelTarget E unitID
                               (with_options (Command1 CMD_ATTACK opts 0%Q)
                                             (set_key opts SHIFT_KEY)))
                            targets s) Hrest) as [ evs2 H2 ].
    exists (evs1 ++ evs2). exact (cancelRun_app _ _ _ _ _ _ _ _ _ H1 H2).
Qed.

Lemma WillCancelQueued_resolves (E : Engine) (st : State) (unitID : Z) (c : Command) :
  WillCancelQueued E st unitID c = true -> resolves st unitID = true.
Proof.
  unfold WillCancelQueued, resolves. destruct (units st unitID); congruence.
Qed.

Lemma cancelSteps_app (E : Engine) (opts : Z) (p1 p2 : list (Z * Z))
  (s1 s2 s3 : State) (evs1 evs2 : list Event) :
  cancelSteps E opts p1 s1 evs1 s2 ->
  cancelSteps E opts p2 s2 evs2 s3 ->
  cancelSteps E opts (p1 ++ p2) s1 (evs1 ++ evs2) s3.
Proof.
  intros H1 H2.
  induction H1 as [ st | unitID target rest st evs st' Hw Hrun IH
                  | unitID target rest st evs st' Hw Hrun IH ].
  - exact H2.
  - simpl. apply cancelSteps_keep; auto.
  - simpl. apply cancelSteps_give; auto.
Qed.

(** A run pair by pair is a run of cancelling orders. *)
Lemma cancelSteps_run (E : Engine) (opts : Z) (selected targets : list Z)
  (pairs : list (Z * Z)) (s1 s2 : State) (evs : list Event) :
  cancelSteps E opts pairs s1 evs s2 ->
  (forall p, In p pairs -> In (fst p) selected /\ In (snd p) targets) ->
  cancelRun E opts selected targets s1 evs s2.
Proof.
  intros H.
  induction H as [ st | unitID target rest st evs st' Hw Hrun IH
                 | unitID target rest st evs st' Hw Hrun IH ]; intros Hin.
  - constructor.
  - apply IH. intros p Hp. apply Hin. right. exact Hp.
  - destruct (Hin (unitID, target) (or_introl eq_refl)) as [ Hs Ht ].
    apply cancelRun_give; auto.
    + exact (WillCancelQueued_resolves _ _ _ _ Hw).
    + apply IH. intros p Hp. apply Hin. right. exact Hp.
Qed.

(** The inner loop of the CONTROL branch takes the pairs of its unit. *)
Lemma cancelTarget_steps (E : Engine) (opts : Z) (unitID : Z) :
  forall (ts : list Z) (s : State),
    exists evs,
      cancelSteps E opts (map (pair unitID) ts) s evs
        (fold_left (cancelTarget E unitID
                      (with_options (Command1 CMD_ATTACK opts 0%Q)
                                    (set_key opts SHIFT_KEY)))
                   ts s).
Proof.
  induction ts as [ | t rest IH ]; intros s; simpl.
  - exists []. constructor.
  - unfold cancelTarget at 2. simpl.
    change (param_set (with_options (Command1 CMD_ATTACK opts 0%Q)
                                    (set_key opts SHIFT_KEY)) 0 (of_int t))
      with (attackOn (set_key opts SHIFT_KEY) t).
    destruct (WillCancelQueued E s unitID (attackOn (set_key opts SHIFT_KEY) t)) eqn:Hw;
      simpl.
    + destruct (IH (GiveCommand E unitID (attackOn (set_key opts SHIFT_KEY) t) true s))
        as [ evs Hrun ].
      exists (EvGive unitID (attackOn (set_key opts SHIFT_KEY) t) true :: evs).
      apply cancelSteps_give; assumption.
    + destruct (IH s) as [ evs Hrun ]. exists evs.
      apply cancelSteps_keep; assumption.
Qed.

Lemma cancelSteps_sameUnits (E : Engine) (opts : Z) (pairs : list (Z * Z))
  (s1 s2 : State) (evs : list Event) :
  cancelSteps E opts pairs s1 evs s2 -> sameUnits s1 s2.
Proof.
  intros H.
  induction H as [ st | unitID target rest st evs st' Hw Hrun IH
                 | unitID target rest st evs st' Hw Hrun IH ].
  - apply sameUnits_refl.
  - exact IH.
  - exact (sameUnits_trans _ _ _ (sameUnits_GiveCommand _ _ _ _ _) IH).
Qed.

(** The two loops of the CONTROL branch take every pair of a selected unit
    that resolves and a candidate target, in the order of the selection and,
    for one unit, of the targets. *)
Lemma cancelUnit_steps (E : Engine) (opts : Z) (targets : list Z) :
  forall (sel : list Z) (s : State),
    exists evs,
      cancelSteps E opts (list_prod (filter (resolves s) sel) targets) s evs
        (fold_left (cancelUnit E
                      (with_options (Command1 CMD_ATTACK opts 0%Q)
                                    (set_key opts SHIFT_KEY))
                      targets)
                   sel s).
Proof.
  induction sel as [ | unitID rest IH ]; intros s.
  - exists []. constructor.
  - cbn [fold_left filter]. unfold cancelUnit at 2. unfold resolves at 1.
    destruct (units s unitID) as [ u | ] eqn:Hu; [ | apply IH ].
    destruct (cancelTarget_steps E opts unitID targets s) as [ evs1 H1 ].
    set (s1 := fold_left (cancelTarget E unitID
                            (with_options (Command1 CMD_ATTACK opts 0%Q)
                                          (set_key opts SHIFT_KEY)))
                         targets s) in *.
    destruct (IH s1) as [ evs2 H2 ].
    assert (Hsame : filter (resolves s1) rest = filter (resolves s) rest).
    { apply filter_ext. intros a.
      exact (sameUnits_resolves _ _ _ (cancelSteps_sameUnits _ _ _ _ _ _ H1)). }
    rewrite Hsame in H2.
    exists (evs1 ++ evs2). cbn [list_prod].
    exact (cancelSteps_app _ _ _ _ _ _ _ _ _ H1 H2).
Qed.

(** With CONTROL, [SelectAttackNet] is the two loops, also when it returns
    early for want of targets or of selected ids. *)
Lemma SelectAttackNet_control_loops (E : Engine) (cmd : Command) (player : Z)
  (st : State) :
  has_key (options cmd) CONTROL_KEY = true ->
  SelectAttackNet E cmd player st
  = fold_left (cancelUnit E
                 (with_options (Command1 CMD_ATTACK (options cmd) 0%Q)
                               (set_key (options cmd) SHIFT_KEY))
                 (areaTargets E cmd player st))
              (netSelected E player) st.
Proof.
  intros Hctrl. unfold SelectAttackNet.
  destruct (areaTargets E cmd player st) as [ | t0 ts ].
  - induction (netSelected E player) as [ | unitID rest IH ]; [ reflexivity | ].
    cbn [fold_left]. unfold cancelUnit at 2.
    destruct (units st unitID); exact IH.
  - destruct (netSelected E player) as [ | s0 ss ]; [ reflexivity | ].
    rewrite Hctrl. reflexivity.
Qed.

(** The first matching target of a unit that has not been given an order
    yet: its queued attack is given. *)
Lemma cancelSteps_first (E : Engine) (opts : Z) (unitID target : Z) (unit : CUnit)
  (post : list (Z * Z)) :
  cai_WillCancelQueued E (commandQue unit) (attackOn (set_key opts SHIFT_KEY) target)
  = true ->
  forall (pre : list (Z * Z)) (s s' : State) (evs : list Event),
    cancelSteps E opts (pre ++ (unitID, target) :: post) s evs s' ->
    units s unitID = Some unit ->
    (forall b, In (unitID, b) pre ->
       cai_WillCancelQueued E (commandQue unit) (attackOn (set_key opts SHIFT_KEY) b)
       = false) ->
    In (EvGive unitID (attackOn (set_key opts SHIFT_KEY) target) true) evs.
Proof.
  intros Hyes. induction pre as [ | [ j b ] pre IH ]; intros s s' evs Hrun Hu Hno.
  - simpl in Hrun. inversion Hrun; subst.
    + unfold WillCancelQueued in *. rewrite Hu in *. congruence.
    + left. reflexivity.
  - simpl in Hrun. inversion Hrun; subst.
    + apply (IH s s'); [ assumption | exact Hu | ].
      intros b' Hb'. apply Hno. right. exact Hb'.
    + right. match goal with
             | H : cancelSteps _ _ _ ?s1 _ _ |- _ => apply (IH s1 s'); [ exact H | | ]
             end.
      * rewrite units_GiveCommand.
        destruct (Z.eqb_spec unitID j) as [ Heq | _ ]; [ | exact Hu ].
        subst j. exfalso.
        match goal with
        | H : WillCancelQueued _ _ _ _ = true |- _ =>
            unfold WillCancelQueued in H; rewrite Hu in H;
            rewrite (Hno b (or_introl eq_refl)) in H; discriminate
        end.
      * intros b' Hb'. apply Hno. right. exact Hb'.
Qed.

Lemma in_split_first (x : Z) (l : list Z) :
  In x l -> exists l1 l2, l = l1 ++ x :: l2 /\ ~ In x l1.
Proof.
  induction l as [ | a l IH ]; intros Hin; [ contradiction | ].
  destruct (Z.eq_dec a x) as [ -> | Hne ].
  - exists [], l. split; [ reflexivity | intros [] ].
  - destruct Hin as [ Heq | Hin ]; [ contradiction | ].
    destruct (IH Hin) as (l1 & l2 & -> & Hnot).
    exists (a :: l1), l2. split; [ reflexivity | ].
    intros [ Heq | Hin1 ]; [ contradiction | exact (Hnot Hin1) ].
Qed.

Lemma list_prod_app {A B : Type} (l1 l2 : list A) (l' : list B) :
  list_prod (l1 ++ l2) l' = list_prod l1 l' ++ list_prod l2 l'.
Proof.
  induction l1 as [ | a l1 IH ]; [ reflexivity | ].
  simpl. rewrite IH, app_assoc. reflexivity.
Qed.

Lemma set_commandQue_same (u : CUnit) : set_commandQue (commandQue u) u = u.
Proof. destruct u. reflexivity. Qed.

Lemma set_commandQue_twice (q1 q2 : list Command) (u : CUnit) :
  set_commandQue q2 (set_commandQue q1 u) = set_commandQue q2 u.
Proof. destruct u. reflexivity. Qed.

(** The inner loop on one unit, from the unit's queue. *)
Lemma cancelTarget_exact (E : Engine) (opts : Z) (unitID : Z) :
  forall (ts : list Z) (s : State) (unit : CUnit),
    units s unitID = Some unit ->
    let r := fold_left (cancelTarget E unitID
                          (with_options (Command1 CMD_ATTACK opts 0%Q)
                                        (set_key opts SHIFT_KEY)))
                       ts s in
    issued r
    = issued s
      ++ map (fun t => EvGive unitID (attackOn (set_key opts SHIFT_KEY) t) true)
             (cancelOrders E (set_key opts SHIFT_KEY) ts (commandQue unit))
    /\ units r unitID
       = Some (set_commandQue
                 (cancelQueue E (set_key opts SHIFT_KEY) ts (commandQue unit)) unit)
    /\ (forall j, j <> unitID -> units r j = units s j).
Proof.
  induction ts as [ | t rest IH ]; intros s unit Hu; cbv zeta.
  - simpl. rewrite app_nil_r, set_commandQue_same. auto.
  - cbn [fold_left cancelOrders cancelQueue]. unfold cancelTarget at 2 4 6.
    cbv zeta.
    change (param_set (with_options (Command1 CMD_ATTACK opts 0%Q)
                                    (set_key opts SHIFT_KEY)) 0 (of_int t))
      with (attackOn (set_key opts SHIFT_KEY) t).
    unfold WillCancelQueued. rewrite Hu.
    destruct (cai_WillCancelQueued E (commandQue unit)
                (attackOn (set_key opts SHIFT_KEY) t)) eqn:Hw; cbn [negb].
    + set (c := attackOn (set_key opts SHIFT_KEY) t) in *.
      assert (Hu2 : units (GiveCommand E unitID c true s) unitID
                    = Some (set_commandQue (cai_GiveCommand E (commandQue unit) c true)
                                           unit)).
      { rewrite units_GiveCommand, Z.eqb_refl, Hu. reflexivity. }
      destruct (IH _ _ Hu2) as (Hi & Hq & Hf).
      split; [ | split ].
      * rewrite Hi, (issued_GiveCommand _ _ _ _ _ _ Hu), <- app_assoc.
        destruct unit; reflexivity.
      * rewrite Hq, set_commandQue_twice. destruct unit; reflexivity.
      * intros j Hj. rewrite (Hf j Hj), units_GiveCommand.
        destruct (Z.eqb_spec j unitID); [ contradiction | reflexivity ].
    + exact (IH s unit Hu).
Qed.

(** The outer loop on a selection without repetition. *)
Lemma cancelUnit_exact (E : Engine) (opts : Z) (targets : list Z) (st : State) :
  forall (sel : list Z) (s : State),
    NoDup sel ->
    (forall j, In j sel -> units s j = units st j) ->
    let r := fold_left (cancelUnit E
                          (with_options (Command1 CMD_ATTACK opts 0%Q)
                                        (set_key opts SHIFT_KEY))
                          targets)
                       sel s in
    issued r
    = issued s ++ flat_map (cancelEvents E (set_key opts SHIFT_KEY) targets st) sel
    /\ (forall j unit, In j sel -> units st j = Some unit ->
          units r j
          = Some (set_commandQue
                    (cancelQueue E (set_key opts SHIFT_KEY) targets (commandQue unit))
                    unit))
    /\ (forall j, ~ In j sel -> units r j = units s j).
Proof.
  induction sel as [ | unitID rest IH ]; intros s Hnd Hsame; cbv zeta.
  - simpl. rewrite app_nil_r. split; [ reflexivity | ]. split; [ | reflexivity ].
    intros j unit [].
  - inversion Hnd as [ | x l Hnotin Hnd' ]; subst.
    cbn [fold_left flat_map]. unfold cancelUnit at 2 4 6. unfold cancelEvents at 1.
    assert (Hu0 : units s unitID = units st unitID)
      by (apply Hsame; left; reflexivity).
    rewrite <- Hu0.
    destruct (units s unitID) as [ unit | ] eqn:Hu.
    + destruct (cancelTarget_exact E opts unitID targets s unit Hu) as (Hi & Hq & Hf).
      set (s1 := fold_left (cancelTarget E unitID
                              (with_options (Command1 CMD_ATTACK opts 0%Q)
                                            (set_key opts SHIFT_KEY)))
                           targets s) in *.
      destruct (IH s1 Hnd') as (IHi & IHq & IHf).
      { intros j Hj. rewrite Hf; [ apply Hsame; right; exact Hj | ].
        intros ->. exact (Hnotin Hj). }
      split; [ | split ].
      * rewrite IHi, Hi, <- app_assoc. reflexivity.
      * intros j unit' [ <- | Hj ] Hst.
        -- rewrite (IHf unitID Hnotin), Hq. rewrite <- Hu0 in Hst.
           inversion Hst; subst. reflexivity.
        -- exact (IHq j unit' Hj Hst).
      * intros j Hj. rewrite IHf; [ | intros Hin; apply Hj; right; exact Hin ].
        apply Hf. intros ->. apply Hj. left. reflexivity.
    + destruct (IH s Hnd') as (IHi & IHq & IHf).
      { intros j Hj. apply Hsame. right. exact Hj. }
      split; [ exact IHi | split ].
      * intros j unit' [ <- | Hj ] Hst; [ congruence | exact (IHq j unit' Hj Hst) ].
      * intros j Hj. apply IHf. intros Hin. apply Hj. right. exact Hin.
Qed.

(** C7.  With the control modifier the area attack only cancels.  Every
    selected unit that resolves is taken with every candidate target, in the
    order of the two loops, and the queued attack on the target is given to
    the unit exactly when the unit's command AI reports, on the queue the
    unit has at that moment, that it cancels a queued order: the order is
    given when it does and no order is given when it does not.  No
    speed-match order or other order is given and the handler's own fields
    do not change.  A unit none of whose queued orders matches is left as it
    was; a unit that has a matching queued order is given the queued attack
    on its first matching target.  When no id is selected twice, the orders
    are, unit by unit, those that the unit's queue at the start determines,
    and the unit is left with the queue the command AI makes of them. *)
Theorem SelectAttackNet_control_cancels (E : Engine) (cmd : Command) (player : Z)
  (st : State) :
  has_key (options cmd) CONTROL_KEY = true ->
  let st' := SelectAttackNet E cmd player st in
  let targets := areaTargets E cmd player st in
  let queued := set_key (options cmd) SHIFT_KEY in
  exists evs,
    issued st' = issued st ++ evs
    /\ cancelRun E (options cmd) (netSelected E player) targets st evs st'
    /\ Forall (fun e => exists unitID target,
                 e = EvGive unitID (attackOn queued target) true
                 /\ In unitID (netSelected E player) /\ In target targets) evs
    /\ has_key queued SHIFT_KEY = true
    /\ cmdID (attackOn queued 0) <> CMD_SET_WANTED_MAX_SPEED
    /\ sameHandler st st'
    /\ (forall unitID unit,
          units st unitID = Some unit ->
          (forall target, In target targets ->
             cai_WillCancelQueued E (commandQue unit) (attackOn queued target) = false) ->
          units st' unitID = Some unit
          /\ Forall (fun e => match e with
                              | EvGive j _ _ => j <> unitID
                              | EvAcknowledge _ => True
                              end) evs)
    /\ cancelSteps E (options cmd)
                   (list_prod (filter (resolves st) (netSelected E player)) targets)
                   st evs st'
    /\ (forall unitID unit before target after,
          In unitID (netSelected E player) ->
          units st unitID = Some unit ->
          targets = before ++ target :: after ->
          (forall b, In b before ->
             cai_WillCancelQueued E (commandQue unit) (attackOn queued b) = false) ->
          cai_WillCancelQueued E (commandQue unit) (attackOn queued target) = true ->
          In (EvGive unitID (attackOn queued target) true) evs)
    /\ (NoDup (netSelected E player) ->
        evs = flat_map (cancelEvents E queued targets st) (netSelected E player)
        /\ forall unitID unit,
             In unitID (netSelected E player) -> units st unitID = Some unit ->
             units st' unitID
             = Some (set_commandQue (cancelQueue E queued targets (commandQue unit))
                                    unit)).
Proof.
  intros Hctrl st' targets queued.
  assert (Hloops : st'
                   = fold_left (cancelUnit E
                                  (with_options (Command1 CMD_ATTACK (options cmd) 0%Q)
                                                (set_key (options cmd) SHIFT_KEY))
                                  targets)
                               (netSelected E player) st)
    by (apply SelectAttackNet_control_loops; exact Hctrl).
  destruct (cancelUnit_steps E (options cmd) targets (netSelected E player) st)
    as [ evs Hsteps ].
  rewrite <- Hloops in Hsteps.
  assert (Hrun : cancelRun E (options cmd) (netSelected E player) targets st evs st').
  { apply (cancelSteps_run _ _ _ _ _ _ _ _ Hsteps).
    intros [ j t ] Hp. apply in_prod_iff in Hp. destruct Hp as [ Hj Ht ].
    apply filter_In in Hj. split; [ exact (proj1 Hj) | exact Ht ]. }
  assert (Hissued : issued st' = issued st ++ evs)
    by exact (cancelRun_issued _ _ _ _ _ _ _ Hrun).
  exists evs.
  split; [ exact Hissued | ].
  split; [ exact Hrun | ].
  split; [ exact (cancelRun_orders _ _ _ _ _ _ _ Hrun) | ].
  split; [ apply has_key_set_key; discriminate | ].
  split; [ discriminate | ].
  split; [ exact (proj2 (cancelRun_frame _ _ _ _ _ _ _ Hrun)) | ].
  split.
  { intros unitID unit Hu Hnone.
    exact (cancelRun_untouched _ _ _ _ _ _ _ _ _ Hrun Hu Hnone). }
  split; [ exact Hsteps | ].
  split.
  - intros unitID unit before target after Hsel Hu Htargets Hno Hyes.
    assert (Hin : In unitID (filter (resolves st) (netSelected E player))).
    { apply filter_In. split; [ exact Hsel | ]. unfold resolves. rewrite Hu.
      reflexivity. }
    destruct (in_split_first _ _ Hin) as (l1 & l2 & Hsplit & Hnot).
    rewrite Hsplit, Htargets, list_prod_app in Hsteps.
    cbn [list_prod] in Hsteps. rewrite map_app in Hsteps. cbn [map] in Hsteps.
    rewrite <- !app_assoc in Hsteps. rewrite app_assoc in Hsteps.
    cbn [app] in Hsteps.
    apply (cancelSteps_first E (options cmd) unitID target unit _ Hyes _ _ _ _ Hsteps Hu).
    intros b Hb. apply in_app_or in Hb. destruct Hb as [ Hb | Hb ].
    + apply in_prod_iff in Hb. destruct Hb as [ Hb _ ]. contradiction.
    + apply in_map_iff in Hb. destruct Hb as (b' & Heq & Hb').
      inversion Heq; subst. apply Hno. exact Hb'.
  - intros Hnd.
    destruct (cancelUnit_exact E (options cmd) targets st (netSelected E player) st Hnd
                (fun j _ => eq_refl)) as (Hi & Hq & _).
    rewrite <- Hloops in Hi, Hq.
    split; [ | exact Hq ].
    rewrite Hissued in Hi. exact (app_inv_head _ _ _ Hi).
Qed.

Lemma SelectAttackNet_control_cancels_witness :
  has_key (options (Sample.areaAttack CONTROL_KEY)) CONTROL_KEY = true
  /\ exists evs,
       issued (SelectAttackNet (Sample.engine [1; 2] [7])
                               (Sample.areaAttack CONTROL_KEY) 0 Sample.queuedAttack)
       = issued Sample.queuedAttack ++ evs
       /\ cancelRun (Sample.engine [1; 2] [7]) (options (Sample.areaAttack CONTROL_KEY))
            (netSelected (Sample.engine [1; 2] [7]) 0)
            (areaTargets (Sample.engine [1; 2] [7]) (Sample.areaAttack CONTROL_KEY) 0
                         Sample.queuedAttack)
            Sample.queuedAttack evs
            (SelectAttackNet (Sample.engine [1; 2] [7])
                             (Sample.areaAttack CONTROL_KEY) 0 Sample.queuedAttack)
       /\ cancelSteps (Sample.engine [1; 2] [7])
            (options (Sample.areaAttack CONTROL_KEY))
            (list_prod (filter (resolves Sample.queuedAttack)
                               (netSelected (Sample.engine [1; 2] [7]) 0))
                       (areaTargets (Sample.engine [1; 2] [7])
                                    (Sample.areaAttack CONTROL_KEY) 0
                                    Sample.queuedAttack))
            Sample.queuedAttack evs
            (SelectAttackNet (Sample.engine [1; 2] [7])
                             (Sample.areaAttack CONTROL_KEY) 0 Sample.queuedAttack).
Proof.
  split; [ reflexivity | ].
  destruct (SelectAttackNet_control_cancels (Sample.engine [1; 2] [7])
              (Sample.areaAttack CONTROL_KEY) 0 Sample.queuedAttack eq_refl)
    as (evs & Hi & Hrun & _ & _ & _ & _ & _ & Hsteps & _).
  exists evs. split; [ exact Hi | ]. split; [ exact Hrun | exact Hsteps ].
Defined.

(** On the sample: the queued attack of the unit 1 is cancelled, the unit 2
    receives nothing and keeps its queue. *)
Lemma SelectAttackNet_control_sample :
  issued (SelectAttackNet (Sample.engine [1; 2] [7])
                          (Sample.areaAttack CONTROL_KEY) 0 Sample.queuedAttack)
  = [EvGive 1 (attackOn (set_key CONTROL_KEY SHIFT_KEY) 7) true]
  /\ option_map commandQue
       (units (SelectAttackNet (Sample.engine [1; 2] [7])
                               (Sample.areaAttack CONTROL_KEY) 0 Sample.queuedAttack) 1)
     = Some []
  /\ option_map commandQue
       (units (SelectAttackNet (Sample.engine [1; 2] [7])
                               (Sample.areaAttack CONTROL_KEY) 0 Sample.queuedAttack) 2)
     = Some [mkCommand CMD_MOVE 0 [5%Q; 0%Q; 5%Q]].
Proof. repeat split; vm_compute; reflexivity. Qed.

(** ** CalculateGroupData: the center of the group *)

Lemma CalculateGroupData_sums (st : State) (queueing : bool) (selected : list Z) :
  forall acc,
    let r := fold_left (CalculateGroupData_step st queueing) selected acc in
    sumCoor r
    = fold_left float3.add (positionsOf st queueing (fun _ => true) selected) (sumCoor acc)
    /\ mobileSumCoor r
       = fold_left float3.add (positionsOf st queueing canSetMaxSpeed selected)
                   (mobileSumCoor acc)
    /\ mobileUnits r
       = mobileUnits acc
         + Z.of_nat (length (positionsOf st queueing canSetMaxSpeed selected)).
Proof.
  induction selected as [ | unitID rest IH ]; intros acc; cbv zeta; simpl.
  - repeat split. lia.
  - specialize (IH (CalculateGroupData_step st queueing acc unitID)). cbv zeta in IH.
    destruct IH as (H1 & H2 & H3). rewrite H1, H2, H3. clear H1 H2 H3.
    unfold CalculateGroupData_step.
    destruct (units st unitID) as [ unit | ]; [ | repeat split ].
    destruct (canSetMaxSpeed unit); simpl; repeat split; lia.
Qed.

(** The center after [CalculateGroupData]: the mean of the positions of the
    mobile units when there is one; otherwise the sum of the positions of
    the units that resolve, divided by the number of selected ids.  The
    group fields depend on the units only, not on their former values. *)
Lemma CalculateGroupData_center (E : Engine) (player : Z) (queueing : bool) (st : State) :
  let selected := netSelected E player in
  let mobile := positionsOf st queueing canSetMaxSpeed selected in
  let resolved := positionsOf st queueing (fun _ => true) selected in
  let st' := CalculateGroupData E player queueing st in
  (mobile <> [] -> groupCenterCoor st' = meanPosition mobile)
  /\ (mobile = [] ->
      groupCenterCoor st'
      = float3.div (fold_left float3.add resolved ZeroVector) (of_size (length selected)))
  /\ (mobile = [] -> length resolved = length selected ->
      groupCenterCoor st' = meanPosition resolved)
  /\ (forall st2, units st2 = units st ->
        groupCenterCoor (CalculateGroupData E player queueing st2) = groupCenterCoor st'
        /\ groupSumLength (CalculateGroupData E player queueing st2) = groupSumLength st'
        /\ groupAvgLength (CalculateGroupData E player queueing st2) = groupAvgLength st'
        /\ groupMinMaxSpeed (CalculateGroupData E player queueing st2)
           = groupMinMaxSpeed st').
Proof.
  intros selected mobile resolved st'.
  pose proof (CalculateGroupData_sums st queueing selected GroupAcc_init) as Hsums.
  cbv zeta in Hsums. destruct Hsums as (Hsum & Hmsum & Hcount).
  fold mobile in Hmsum, Hcount. fold resolved in Hsum. simpl in Hsum, Hmsum, Hcount.
  assert (Hmobile : mobile <> [] -> groupCenterCoor st' = meanPosition mobile).
  { intros Hne. unfold st', CalculateGroupData. fold selected.
    destruct (Z.ltb_spec 0
                (mobileUnits (fold_left (CalculateGroupData_step st queueing) selected
                                        GroupAcc_init))) as [ Hpos | Hle ].
    - simpl. rewrite Hmsum, Hcount. reflexivity.
    - rewrite Hcount in Hle. destruct mobile; [ congruence | simpl in Hle; lia ]. }
  assert (Hnone : mobile = [] ->
                  groupCenterCoor st'
                  = float3.div (fold_left float3.add resolved ZeroVector)
                               (of_size (length selected))).
  { intros Hempty. unfold st', CalculateGroupData. fold selected.
    rewrite Hcount, Hempty. simpl. rewrite Hsum. reflexivity. }
  split; [ exact Hmobile | ].
  split; [ exact Hnone | ].
  split.
  { intros Hempty Hlen. rewrite (Hnone Hempty). unfold meanPosition.
    rewrite Hlen. reflexivity. }
  intros st2 Hunits. unfold st', CalculateGroupData.
  assert (Hfold : forall l acc,
             fold_left (CalculateGroupData_step st2 queueing) l acc
             = fold_left (CalculateGroupData_step st queueing) l acc).
  { induction l as [ | unitID rest IH ]; intros acc; [ reflexivity | ].
    simpl. rewrite IH. unfold CalculateGroupData_step. rewrite Hunits. reflexivity. }
  rewrite Hfold.
  destruct (0 <? mobileUnits (fold_left (CalculateGroupData_step st queueing)
                                        (netSelected E player) GroupAcc_init));
    simpl; repeat split.
Qed.

(** C5, at a selection with a stale id.  A turret at 10 on the axis is
    selected together with an id that no longer resolves, and no selected
    unit is mobile.  The mean of the positions of the selected units is the
    position of the turret; [CalculateGroupData] halves it, because it
    divides the sum over the units that resolve by the number of ids. *)
Theorem CalculateGroupData_stale_id_center :
  let E := Sample.engine [1; 2] [] in
  let st := Sample.turretAndStale in
  positionsOf st false canSetMaxSpeed (netSelected E 0) = []
  /\ positionsOf st false (fun _ => true) (netSelected E 0) = [Sample.onAxis 10]
  /\ (float3.x (meanPosition (positionsOf st false (fun _ => true) (netSelected E 0)))
      == 10)%Q
  /\ (float3.x (groupCenterCoor (CalculateGroupData E 0 false st)) == 5)%Q
  /\ ~ (float3.x (groupCenterCoor (CalculateGroupData E 0 false st))
        == float3.x (meanPosition
                       (positionsOf st false (fun _ => true) (netSelected E 0))))%Q.
Proof.
  repeat split; try (vm_compute; reflexivity).
  vm_compute. discriminate.
Qed.

(** ** Frames of the loops *)

Lemma fold_left_rel {A : Type} (R : State -> State -> Prop) (f : State -> A -> State) :
  (forall s, R s s) ->
  (forall a b c, R a b -> R b c -> R a c) ->
  (forall s a, R s (f s a)) ->
  forall (l : list A) (s : State), R s (fold_left f l s).
Proof.
  intros Hrefl Htrans Hstep l. induction l as [ | a rest IH ]; intros s; simpl.
  - apply Hrefl.
  - exact (Htrans _ _ _ (Hstep s a) (IH _)).
Qed.

Lemma fold_left_rel_snd {A B : Type} (R : State -> State -> Prop)
  (f : B * State -> A -> B * State) :
  (forall s, R s s) ->
  (forall a b c, R a b -> R b c -> R a c) ->
  (forall acc a, R (snd acc) (snd (f acc a))) ->
  forall (l : list A) (acc : B * State), R (snd acc) (snd (fold_left f l acc)).
Proof.
  intros Hrefl Htrans Hstep l. induction l as [ | a rest IH ]; intros acc; simpl.
  - apply Hrefl.
  - exact (Htrans _ _ _ (Hstep acc a) (IH _)).
Qed.

Lemma sameHandler_emit (e : Event) (st : State) : sameHandler st (emit e st).
Proof. unfold sameHandler. simpl. repeat split; reflexivity. Qed.

Lemma sameHandler_AddGroupSetMaxSpeedCommandNet (E : Engine) (unitID : Z) (opts : Z)
  (st : State) :
  sameHandler st (AddGroupSetMaxSpeedCommandNet E unitID opts st).
Proof.
  unfold AddGroupSetMaxSpeedCommandNet.
  destruct (units st unitID) as [ u | ]; [ | apply sameHandler_refl ].
  destruct (canSetMaxSpeed u); simpl;
    [ apply sameHandler_GiveCommand | apply sameHandler_refl ].
Qed.

Lemma sameUnits_AddGroupSetMaxSpeedCommandNet (E : Engine) (unitID : Z) (opts : Z)
  (st : State) :
  sameUnits st (AddGroupSetMaxSpeedCommandNet E unitID opts st).
Proof.
  unfold AddGroupSetMaxSpeedCommandNet.
  destruct (units st unitID) as [ u | ]; [ | apply sameUnits_refl ].
  destruct (canSetMaxSpeed u); simpl;
    [ apply sameUnits_GiveCommand | apply sameUnits_refl ].
Qed.

Lemma sameHandler_addSpeed (E : Engine) (groupSpeed : bool) (opts : Z) (st : State)
  (unitID : Z) :
  sameHandler st (addSpeed E groupSpeed opts st unitID).
Proof.
  unfold addSpeed. destruct (units st unitID); [ | apply sameHandler_refl ].
  destruct groupSpeed;
    [ apply sameHandler_AddGroupSetMaxSpeedCommandNet
    | apply sameHandler_AddUnitSetMaxSpeedCommandNet ].
Qed.

Lemma sameHandler_lockedOrder (E : Engine) (c : Command) (groupSpeed queueing : bool)
  (st : State) (unitID : Z) :
  sameHandler st (lockedOrder E c groupSpeed queueing st unitID).
Proof.
  unfold lockedOrder. destruct (units st unitID); [ | apply sameHandler_refl ].
  destruct groupSpeed.
  - eapply sameHandler_trans; [ | apply sameHandler_AddGroupSetMaxSpeedCommandNet ].
    apply sameHandler_GiveCommand.
  - eapply sameHandler_trans; [ | apply sameHandler_AddUnitSetMaxSpeedCommandNet ].
    apply sameHandler_GiveCommand.
Qed.

Lemma sameHandler_broadcastOrder (E : Engine) (c : Command) (st : State) (unitID : Z) :
  sameHandler st (broadcastOrder E c st unitID).
Proof.
  unfold broadcastOrder. destruct (units st unitID); [ | apply sameHandler_refl ].
  destruct (MayRequireSetMaxSpeedCommand c); simpl.
  - eapply sameHandler_trans; [ | apply sameHandler_AddUnitSetMaxSpeedCommandNet ].
    apply sameHandler_GiveCommand.
  - apply sameHandler_GiveCommand.
Qed.

Lemma sameHandler_acknowledgeWait (E : Engine) (c : Command) (player : Z) (st : State) :
  sameHandler st (acknowledgeWait E c player st).
Proof.
  unfold acknowledgeWait.
  destruct (negb (GetID c =? CMD_WAIT)); [ apply sameHandler_refl | ].
  destruct (negb (player =? myPlayerNum E));
    [ apply sameHandler_refl | apply sameHandler_emit ].
Qed.

Lemma sameHandler_attackTarget (E : Engine) (queueing : bool) (unitID : Z)
  (acc : Command * State) (t : float * Z) :
  sameHandler (snd acc) (snd (attackTarget E queueing unitID acc t)).
Proof.
  unfold attackTarget.
  destruct (queueing && WillCancelQueued E (snd acc) unitID
                          (param_set (fst acc) 0 (of_int (snd t)))); simpl.
  - apply sameHandler_refl.
  - eapply sameHandler_trans; [ | apply sameHandler_AddUnitSetMaxSpeedCommandNet ].
    apply sameHandler_GiveCommand.
Qed.

Lemma sameHandler_attackUnit (E : Engine) (queueing : bool)
  (ranked : list (float * Z)) (acc : Command * State) (unitID : Z) :
  sameHandler (snd acc) (snd (attackUnit E queueing ranked acc unitID)).
Proof.
  unfold attackUnit. destruct (units (snd acc) unitID); [ | apply sameHandler_refl ].
  apply (fold_left_rel_snd sameHandler (attackTarget E queueing unitID)
           sameHandler_refl sameHandler_trans (sameHandler_attackTarget E queueing unitID)
           ranked (_, snd acc)).
Qed.

Lemma sameUnits_issueFrontCommand (E : Engine) (st : State) (a : Z * (Z * Command)) :
  sameUnits st (issueFrontCommand E st a).
Proof. apply sameUnits_GiveCommand. Qed.

Lemma sameHandler_issueFrontCommand (E : Engine) (st : State) (a : Z * (Z * Command)) :
  sameHandler st (issueFrontCommand E st a).
Proof. apply sameHandler_GiveCommand. Qed.

(** Closing a row records it, gives orders and touches nothing else. *)
Lemma flushRow_frame (E : Engine) (groups : list TGroupPair)
  (cmds : list (Z * Command)) (st : State) :
  sameUnits st (flushRow E groups cmds st)
  /\ divisors (flushRow E groups cmds st) = divisors st
  /\ flushed (flushRow E groups cmds st)
     = flushed st
       ++ [mkRow groups cmds (fst (mixUnits groups (length cmds)))
                 (snd (mixUnits groups (length cmds)))].
Proof.
  unfold flushRow.
  set (row := mkRow groups cmds (fst (mixUnits groups (length cmds)))
                    (snd (mixUnits groups (length cmds)))).
  set (body := combine (fst (mixUnits groups (length cmds))) cmds).
  pose proof (fold_left_rel sameUnits (issueFrontCommand E) sameUnits_refl
                sameUnits_trans (sameUnits_issueFrontCommand E) body (note_row row st))
    as Hu.
  pose proof (fold_left_rel sameHandler (issueFrontCommand E) sameHandler_refl
                sameHandler_trans (sameHandler_issueFrontCommand E) body
                (note_row row st)) as Hh.
  unfold sameHandler in Hh. simpl in Hh.
  split_hyps.
  split; [ exact Hu | ]. split; symmetry; assumption.
Qed.

Lemma frontLoop_divisors (E : Engine) (c : Command) (sideDir : float3.t)
  (pairs : list (float * Z)) :
  forall groups cmds nextPos st,
    divisors (frontLoop E c sideDir pairs groups cmds nextPos st) = divisors st.
Proof.
  induction pairs as [ | p rest IH ]; intros groups cmds nextPos st; [ reflexivity | ].
  simpl.
  match goal with |- divisors (if ?b then _ else _) = _ => destruct b end.
  - apply IH.
  - rewrite IH. apply flushRow_frame.
Qed.

(** ** No count that divides is zero *)

Lemma guardedDivisors_refl (st : State) : guardedDivisors st st.
Proof. exists []. split; [ symmetry; apply app_nil_r | constructor ]. Qed.

Lemma guardedDivisors_trans (a b c : State) :
  guardedDivisors a b -> guardedDivisors b c -> guardedDivisors a c.
Proof.
  intros (d1 & H1 & F1) (d2 & H2 & F2). exists (d1 ++ d2). split.
  - rewrite H2, H1, app_assoc. reflexivity.
  - apply Forall_app. split; assumption.
Qed.

Lemma guardedDivisors_same (st st' : State) :
  divisors st' = divisors st -> guardedDivisors st st'.
Proof.
  intros H. exists []. split; [ rewrite H; symmetry; apply app_nil_r | constructor ].
Qed.

Lemma guardedDivisors_sameHandler (st st' : State) :
  sameHandler st st' -> guardedDivisors st st'.
Proof.
  intros H. apply guardedDivisors_same. unfold sameHandler in H.
  split_hyps.
  symmetry. assumption.
Qed.

Lemma divisors_CalculateGroupData (E : Engine) (player : Z) (queueing : bool)
  (st : State) :
  exists mobile,
    divisors (CalculateGroupData E player queueing st)
    = divisors st
      ++ [Z.of_nat (length (netSelected E player));
          if 0 <? mobile then mobile else Z.of_nat (length (netSelected E player))].
Proof.
  unfold CalculateGroupData.
  exists (mobileUnits (fold_left (CalculateGroupData_step st queueing)
                                 (netSelected E player) GroupAcc_init)).
  destruct (0 <? mobileUnits _); simpl; rewrite <- app_assoc; reflexivity.
Qed.

Lemma guardedDivisors_CalculateGroupData (E : Engine) (player : Z) (queueing : bool)
  (st : State) :
  netSelected E player <> [] ->
  guardedDivisors st (CalculateGroupData E player queueing st).
Proof.
  intros Hne. destruct (divisors_CalculateGroupData E player queueing st) as [ m Hm ].
  eexists. split; [ exact Hm | ].
  assert (Hsize : Z.of_nat (length (netSelected E player)) <> 0).
  { destruct (netSelected E player); [ congruence | simpl; lia ]. }
  constructor; [ exact Hsize | ].
  constructor; [ | constructor ].
  destruct (Z.ltb_spec 0 m); [ lia | exact Hsize ].
Qed.

Lemma guardedDivisors_MakeFormationFrontOrder (E : Engine) (c : Command) (player : Z)
  (st : State) :
  length (netSelected E player) <> 1%nat ->
  guardedDivisors st (MakeFormationFrontOrder E c player st).
Proof.
  intros Hsize. unfold MakeFormationFrontOrder. cbv zeta.
  match goal with |- guardedDivisors _ (if ?b then _ else _) => destruct b end.
  - apply guardedDivisors_same.
    destruct (giveIfResolved_loop E c false (netSelected E player)
                (set_formation_points (GetPos c 0) (GetPos c 3) st)) as (_ & _ & Hh).
    unfold sameHandler in Hh. simpl in Hh.
    split_hyps.
    symmetry. assumption.
  - apply guardedDivisors_trans with
      (b := if flt (groupSumLength st * 2 * of_int (SQUARE_SIZE E))%Q
                   (distance E (GetPos c 0) (GetPos c 3) * 2)%Q
            then note_divisor (size_minus_one (length (netSelected E player))) st
            else st).
    + destruct (flt _ _); [ | apply guardedDivisors_refl ].
      exists [size_minus_one (length (netSelected E player))].
      split; [ reflexivity | ].
      constructor; [ | constructor ].
      destruct (length (netSelected E player)) as [ | [ | m ] ];
        simpl; try congruence; try lia.
    + apply guardedDivisors_same. rewrite frontLoop_divisors.
      simpl. destruct (flt _ _); reflexivity.
Qed.

Lemma guardedDivisors_SelectAttackNet (E : Engine) (cmd : Command) (player : Z)
  (st : State) :
  guardedDivisors st (SelectAttackNet E cmd player st).
Proof.
  unfold SelectAttackNet.
  destruct (areaTargets E cmd player st) as [ | t0 ts ]; [ apply guardedDivisors_refl | ].
  destruct (netSelected E player) as [ | s0 ss ]; [ apply guardedDivisors_refl | ].
  destruct (has_key (options cmd) CONTROL_KEY).
  - apply guardedDivisors_sameHandler.
    apply (fold_left_rel sameHandler); [ apply sameHandler_refl | apply sameHandler_trans | ].
    intros s a. unfold cancelUnit. destruct (units s a); [ | apply sameHandler_refl ].
    apply (fold_left_rel sameHandler); [ apply sameHandler_refl | apply sameHandler_trans | ].
    intros s1 t. unfold cancelTarget.
    destruct (negb _); [ apply sameHandler_refl | apply sameHandler_GiveCommand ].
  - set (center := fold_left _ (s0 :: ss) (ZeroVector, 0)).
    destruct (Z.eqb_spec (snd center) 0) as [ Hzero | Hpos ];
      [ apply guardedDivisors_refl | ].
    apply guardedDivisors_trans with (b := note_divisor (snd center) st).
    + exists [snd center]. split; [ reflexivity | ].
      constructor; [ exact Hpos | constructor ].
    + apply guardedDivisors_sameHandler.
      apply (fold_left_rel_snd sameHandler
               (attackUnit E (has_key (options cmd) SHIFT_KEY)
                           (rankTargets (note_divisor (snd center) st)
                              (float3.div (fst center) (of_int (snd center)))
                              (t0 :: ts)))
               sameHandler_refl sameHandler_trans
               (sameHandler_attackUnit E _ _)
               (s0 :: ss) (_, note_divisor (snd center) st)).
Qed.

Lemma SelectAttackNet_center_divisor (E : Engine) (cmd : Command) (player : Z)
  (st : State) :
  let resolved := length (filter (resolves st) (netSelected E player)) in
  divisors (SelectAttackNet E cmd player st) = divisors st
  \/ (divisors (SelectAttackNet E cmd player st) = divisors st ++ [Z.of_nat resolved]
      /\ resolved <> O).
Proof.
  intros resolved. unfold SelectAttackNet.
  destruct (areaTargets E cmd player st) as [ | t0 ts ]; [ left; reflexivity | ].
  destruct (netSelected E player) as [ | s0 ss ] eqn:Hsel; [ left; reflexivity | ].
  destruct (has_key (options cmd) CONTROL_KEY).
  - left.
    assert (Hh : sameHandler st
                   (fold_left
                      (cancelUnit E
                         (with_options (Command1 CMD_ATTACK (options cmd) 0%Q)
                            (set_key (options (Command1 CMD_ATTACK (options cmd) 0%Q))
                                     SHIFT_KEY))
                         (t0 :: ts))
                      (s0 :: ss) st)).
    { apply (fold_left_rel sameHandler);
        [ apply sameHandler_refl | apply sameHandler_trans | ].
      intros s a. unfold cancelUnit. destruct (units s a); [ | apply sameHandler_refl ].
      apply (fold_left_rel sameHandler);
        [ apply sameHandler_refl | apply sameHandler_trans | ].
      intros s1 t. unfold cancelTarget.
      destruct (negb _); [ apply sameHandler_refl | apply sameHandler_GiveCommand ]. }
    unfold sameHandler in Hh.
    split_hyps.
    symmetry. assumption.
  - set (center := fold_left _ (s0 :: ss) (ZeroVector, 0)).
    assert (Hcount : snd center = Z.of_nat resolved).
    { unfold center, resolved. rewrite attackCenter_count. reflexivity. }
    destruct (Z.eqb_spec (snd center) 0) as [ Hzero | Hpos ]; [ left; reflexivity | ].
    right. split; [ | lia ].
    pose proof (fold_left_rel_snd sameHandler
                  (attackUnit E (has_key (options cmd) SHIFT_KEY)
                              (rankTargets (note_divisor (snd center) st)
                                 (float3.div (fst center) (of_int (snd center)))
                                 (t0 :: ts)))
                  sameHandler_refl sameHandler_trans
                  (sameHandler_attackUnit E _ _)
                  (s0 :: ss)
                  (Command1 CMD_ATTACK (options cmd) 0%Q, note_divisor (snd center) st))
      as Hh.
    unfold sameHandler in Hh. simpl in Hh.
    split_hyps.
    rewrite <- Hcount. symmetry. assumption.
Qed.

Lemma SelectAttackNet_nothing_resolves (E : Engine) (cmd : Command) (player : Z)
  (st : State) :
  filter (resolves st) (netSelected E player) = [] ->
  SelectAttackNet E cmd player st = st.
Proof.
  intros Hnone. unfold SelectAttackNet.
  destruct (areaTargets E cmd player st) as [ | t0 ts ]; [ reflexivity | ].
  destruct (netSelected E player) as [ | s0 ss ] eqn:Hsel; [ reflexivity | ].
  destruct (has_key (options cmd) CONTROL_KEY).
  - revert Hnone. generalize (s0 :: ss). intros l.
    induction l as [ | unitID rest IH ]; intros Hnone; [ reflexivity | ].
    simpl in Hnone |- *. unfold cancelUnit at 2. unfold resolves at 1 in Hnone.
    destruct (units st unitID); [ discriminate | ]. apply IH. exact Hnone.
  - set (center := fold_left _ (s0 :: ss) (ZeroVector, 0)).
    assert (Hcount : snd center = 0).
    { unfold center. rewrite attackCenter_count, Hnone. reflexivity. }
    rewrite Hcount. reflexivity.
Qed.

(** C8.  No integer count that the handler divides by is zero: along
    [GiveCommandNet] the counts of [CalculateGroupData] (the selection size,
    checked to be at least two before, and the number of mobile units,
    compared with zero first), the size minus one of the spacing and the
    number of resolved units of the attack center are all different from
    zero; [SelectAttackNet] divides by the number of selected units that
    resolve only when it is positive, and when no selected unit resolves it
    returns the state as it was, with no order given. *)
Theorem GiveCommandNet_no_zero_divisor (E : Engine) (c : Command) (player : Z)
  (st : State) :
  guardedDivisors st (GiveCommandNet E c player st)
  /\ (forall queueing, netSelected E player <> [] ->
        guardedDivisors st (CalculateGroupData E player queueing st))
  /\ (forall cmd,
        let resolved := length (filter (resolves st) (netSelected E player)) in
        divisors (SelectAttackNet E cmd player st) = divisors st
        \/ (divisors (SelectAttackNet E cmd player st)
            = divisors st ++ [Z.of_nat resolved]
            /\ resolved <> O))
  /\ (forall cmd, filter (resolves st) (netSelected E player) = [] ->
        SelectAttackNet E cmd player st = st
        /\ issued (SelectAttackNet E cmd player st) = issued st).
Proof.
  split.
  { unfold GiveCommandNet. cbv zeta.
    destruct (Z.ltb_spec (Z.of_nat (length (netSelected E player))) 1) as [ Hlt | Hge ];
      [ apply guardedDivisors_refl | ].
    destruct (isAreaAttack c); [ apply guardedDivisors_SelectAttackNet | ].
    assert (Hne : netSelected E player <> []).
    { intros Hnil. rewrite Hnil in Hge. simpl in Hge. lia. }
    destruct (Z.eqb_spec (Z.of_nat (length (netSelected E player))) 1) as [ Hone | Hmore ].
    { destruct (units st (hd 0 (netSelected E player))); [ | apply guardedDivisors_refl ].
      apply guardedDivisors_sameHandler.
      eapply sameHandler_trans; [ | apply sameHandler_acknowledgeWait ].
      destruct (MayRequireSetMaxSpeedCommand c).
      - eapply sameHandler_trans; [ | apply sameHandler_AddUnitSetMaxSpeedCommandNet ].
        apply sameHandler_GiveCommand.
      - apply sameHandler_GiveCommand. }
    assert (Hsize : length (netSelected E player) <> 1%nat) by lia.
    destruct (isFrontOrder c).
    { eapply guardedDivisors_trans;
        [ apply guardedDivisors_CalculateGroupData; exact Hne | ].
      eapply guardedDivisors_trans;
        [ apply guardedDivisors_MakeFormationFrontOrder; exact Hsize | ].
      apply guardedDivisors_sameHandler.
      apply (fold_left_rel sameHandler);
        [ apply sameHandler_refl | apply sameHandler_trans | ].
      intros s a. apply sameHandler_addSpeed. }
    destruct (isAltMove c).
    { eapply guardedDivisors_trans;
        [ apply guardedDivisors_CalculateGroupData; exact Hne | ].
      eapply guardedDivisors_trans;
        [ apply guardedDivisors_MakeFormationFrontOrder; exact Hsize | ].
      apply guardedDivisors_sameHandler.
      apply (fold_left_rel sameHandler);
        [ apply sameHandler_refl | apply sameHandler_trans | ].
      intros s a. apply sameHandler_addSpeed. }
    destruct (isLockedOrder c).
    { eapply guardedDivisors_trans;
        [ apply guardedDivisors_CalculateGroupData; exact Hne | ].
      apply guardedDivisors_sameHandler.
      apply (fold_left_rel sameHandler);
        [ apply sameHandler_refl | apply sameHandler_trans | ].
      intros s a. apply sameHandler_lockedOrder. }
    apply guardedDivisors_sameHandler.
    eapply sameHandler_trans; [ | apply sameHandler_acknowledgeWait ].
    apply (fold_left_rel sameHandler);
      [ apply sameHandler_refl | apply sameHandler_trans | ].
    intros s a. apply sameHandler_broadcastOrder. }
  split.
  { intros queueing Hne. apply guardedDivisors_CalculateGroupData. exact Hne. }
  split.
  { intros cmd. apply SelectAttackNet_center_divisor. }
  intros cmd Hnone.
  rewrite (SelectAttackNet_nothing_resolves E cmd player st Hnone).
  split; reflexivity.
Qed.

Lemma GiveCommandNet_no_zero_divisor_witness :
  filter (resolves Sample.tanksAndEnemy) (netSelected (Sample.engine [4; 5] [7]) 0) = []
  /\ SelectAttackNet (Sample.engine [4; 5] [7]) (Sample.areaAttack 0) 0
                     Sample.tanksAndEnemy
     = Sample.tanksAndEnemy
  /\ guardedDivisors Sample.threeTanks
       (GiveCommandNet (Sample.engine [1; 2; 3] []) Sample.longFront 0 Sample.threeTanks).
Proof.
  split; [ reflexivity | ].
  split.
  - exact (proj1 (proj2 (proj2 (proj2
             (GiveCommandNet_no_zero_divisor (Sample.engine [4; 5] [7])
                (Sample.areaAttack 0) 0 Sample.tanksAndEnemy)))
             (Sample.areaAttack 0) eq_refl)).
  - exact (proj1 (GiveCommandNet_no_zero_divisor (Sample.engine [1; 2; 3] [])
                    Sample.longFront 0 Sample.threeTanks)).
Defined.

(** On the sample the front order divides by the selection size, by the
    number of mobile units and by the selection size minus one. *)
Lemma GiveCommandNet_divisors_sample :
  divisors (GiveCommandNet (Sample.engine [1; 2; 3] []) Sample.longFront 0
                           Sample.threeTanks)
  = [3; 3; 2].
Proof. vm_compute. reflexivity. Qed.

(** ** Mixing the units of a row *)

Lemma groupVal_lt_one (cur max : nat) :
  (cur < max)%nat -> (groupVal cur max < 1)%Q.
Proof.
  intros H. unfold groupVal, of_size.
  apply Qlt_shift_div_r.
  - rewrite Qmult_1_l. unfold Qlt. cbn -[Z.mul Z.add Z.of_nat]. lia.
  - rewrite !Qmult_1_l. unfold Qlt. cbn -[Z.mul Z.add Z.of_nat]. lia.
Qed.

Lemma bestGroup_scan (groups : list TGroupPair) (sizes : list nat) (n : nat) :
  let best := fold_left (bestGroup_step groups sizes) (seq 0 n) (O, 1%Q) in
  (snd best = 1%Q /\ forall g, (g < n)%nat -> ~ unexhausted groups sizes g)
  \/ ((snd best < 1)%Q /\ unexhausted groups sizes (fst best)).
Proof.
  induction n as [ | n IH ]; cbv zeta.
  - left. split; [ reflexivity | intros g Hg; lia ].
  - rewrite seq_S, fold_left_app. simpl.
    cbv zeta in IH.
    set (best := fold_left (bestGroup_step groups sizes) (seq 0 n) (O, 1%Q)) in *.
    remember (bestGroup_step groups sizes best n) as r eqn:Hr.
    unfold bestGroup_step in Hr.
    destruct (Nat.leb_spec (length (snd (nth n groups emptyGroup))) (nth n sizes O))
      as [ Hex | Hun ].
    + subst r.
      destruct IH as [ [ Hone Hall ] | Hbest ]; [ left | right; exact Hbest ].
      split; [ exact Hone | ].
      intros g Hg. destruct (Nat.eq_dec g n) as [ -> | Hne ].
      * unfold unexhausted. lia.
      * apply Hall. lia.
    + pose proof (groupVal_lt_one _ _ Hun) as Hval.
      unfold fge in Hr.
      destruct (Qle_bool (snd best) (groupVal (nth n sizes O)
                                       (length (snd (nth n groups emptyGroup))))) eqn:Hcmp;
        subst r.
      * destruct IH as [ [ Hone Hall ] | Hbest ]; [ | right; exact Hbest ].
        apply Qle_bool_iff in Hcmp. rewrite Hone in Hcmp.
        exfalso. exact (Qlt_not_le _ _ Hval Hcmp).
      * right. simpl. split; [ exact Hval | exact Hun ].
Qed.

Lemma bestGroup_unexhausted (groups : list TGroupPair) (sizes : list nat) (g : nat) :
  (g < length groups)%nat -> unexhausted groups sizes g ->
  unexhausted groups sizes (bestGroup groups sizes).
Proof.
  intros Hg Hun. unfold bestGroup.
  destruct (bestGroup_scan groups sizes (length groups)) as [ [ _ Hall ] | [ _ Hbest ] ].
  - exfalso. exact (Hall g Hg Hun).
  - exact Hbest.
Qed.

Lemma Forall2_le_length (sizes bs : list nat) :
  Forall2 le sizes bs -> length sizes = length bs.
Proof. intros H. induction H; simpl; congruence. Qed.

Lemma takenUnits_length (sizes : list nat) (groups : list TGroupPair) :
  Forall2 le sizes (bucketSizes groups) ->
  length (takenUnits sizes groups) = list_sum sizes.
Proof.
  revert groups. induction sizes as [ | c cs IH ]; intros groups H.
  - reflexivity.
  - destruct groups as [ | g gs ]; inversion H; subst.
    simpl. rewrite length_app, (IH gs) by assumption.
    rewrite firstn_length_le by assumption. reflexivity.
Qed.

Lemma bucketUnits_length (groups : list TGroupPair) :
  length (bucketUnits groups) = list_sum (bucketSizes groups).
Proof.
  induction groups as [ | g gs IH ]; [ reflexivity | ].
  unfold bucketUnits in *. simpl. rewrite length_app, IH. reflexivity.
Qed.

Lemma list_sum_le (sizes bs : list nat) :
  Forall2 le sizes bs -> (list_sum sizes <= list_sum bs)%nat.
Proof. intros H. induction H; simpl; lia. Qed.

Lemma takenUnits_full (sizes : list nat) (groups : list TGroupPair) :
  Forall2 le sizes (bucketSizes groups) ->
  list_sum sizes = list_sum (bucketSizes groups) ->
  takenUnits sizes groups = bucketUnits groups.
Proof.
  revert groups. induction sizes as [ | c cs IH ]; intros groups H Hsum.
  - destruct groups; [ reflexivity | inversion H ].
  - destruct groups as [ | g gs ]; inversion H as [ | ? ? ? ? Hc Hcs ]; subst.
    pose proof (list_sum_le _ _ Hcs) as Hle.
    change (bucketSizes (g :: gs)) with (length (snd g) :: bucketSizes gs) in Hsum.
    simpl in Hsum.
    cbv beta in Hc.
    assert (Hceq : c = length (snd g)) by lia.
    change (bucketUnits (g :: gs)) with (snd g ++ bucketUnits gs).
    simpl. rewrite (IH gs Hcs) by lia.
    rewrite Hceq, firstn_all. reflexivity.
Qed.

Lemma unexhausted_exists (sizes : list nat) (groups : list TGroupPair) :
  Forall2 le sizes (bucketSizes groups) ->
  (list_sum sizes < list_sum (bucketSizes groups))%nat ->
  exists g, (g < length groups)%nat /\ unexhausted groups sizes g.
Proof.
  revert groups. induction sizes as [ | c cs IH ]; intros groups H Hsum.
  - destruct groups; [ simpl in Hsum; lia | inversion H ].
  - destruct groups as [ | g gs ]; inversion H as [ | ? ? ? ? Hc Hcs ]; subst.
    change (bucketSizes (g :: gs)) with (length (snd g) :: bucketSizes gs) in Hsum.
    simpl in Hsum. cbv beta in Hc.
    destruct (Nat.eq_dec c (length (snd g))) as [ Heq | Hne ].
    + destruct (IH gs Hcs) as (i & Hi & Hun); [ lia | ].
      exists (S i). split; [ simpl; lia | exact Hun ].
    + exists O. split; [ simpl; lia | ]. unfold unexhausted. simpl. lia.
Qed.

Lemma unexhausted_in_range (sizes : list nat) (groups : list TGroupPair) (b : nat) :
  unexhausted groups sizes b -> (b < length groups)%nat.
Proof.
  unfold unexhausted. intros H.
  destruct (Nat.lt_ge_cases b (length groups)) as [ Hlt | Hge ]; [ exact Hlt | ].
  rewrite (nth_overflow groups emptyGroup Hge) in H. simpl in H. lia.
Qed.

Lemma firstn_S_nth {A : Type} (l : list A) (c : nat) (d : A) :
  (c < length l)%nat -> firstn (S c) l = firstn c l ++ [nth c l d].
Proof.
  revert c. induction l as [ | a l IH ]; intros c Hc; simpl in Hc; [ lia | ].
  destruct c as [ | c' ]; [ reflexivity | ].
  change (firstn (S (S c')) (a :: l)) with (a :: firstn (S c') l).
  rewrite IH by lia. reflexivity.
Qed.

(** Handing out the next unit of an unexhausted bucket. *)
Lemma takenUnits_step (sizes : list nat) (groups : list TGroupPair) :
  Forall2 le sizes (bucketSizes groups) ->
  forall b, unexhausted groups sizes b ->
    Forall2 le (set_nth b (S (nth b sizes O)) sizes) (bucketSizes groups)
    /\ list_sum (set_nth b (S (nth b sizes O)) sizes) = S (list_sum sizes)
    /\ Permutation (takenUnits (set_nth b (S (nth b sizes O)) sizes) groups)
         (nth (nth b sizes O) (snd (nth b groups emptyGroup)) 0
          :: takenUnits sizes groups).
Proof.
  revert groups. induction sizes as [ | c cs IH ]; intros groups H b Hun.
  - destruct groups; [ | inversion H ].
    unfold unexhausted in Hun. destruct b; simpl in Hun; lia.
  - destruct groups as [ | g gs ]; inversion H as [ | ? ? ? ? Hc Hcs ]; subst.
    destruct b as [ | b' ].
    + unfold unexhausted in Hun. simpl in Hun.
      change (set_nth 0 (S (nth 0 (c :: cs) O)) (c :: cs)) with (S c :: cs).
      change (nth 0 (c :: cs) O) with c.
      change (nth 0 (g :: gs) emptyGroup) with g.
      split; [ constructor; [ exact Hun | exact Hcs ] | ].
      split; [ reflexivity | ].
      change (takenUnits (S c :: cs) (g :: gs))
        with (firstn (S c) (snd g) ++ takenUnits cs gs).
      change (takenUnits (c :: cs) (g :: gs))
        with (firstn c (snd g) ++ takenUnits cs gs).
      rewrite (firstn_S_nth _ _ 0 Hun), <- app_assoc.
      apply Permutation_sym, Permutation_middle.
    + destruct (IH gs Hcs b') as (H1 & H2 & H3); [ exact Hun | ].
      simpl. split; [ constructor; assumption | ].
      split; [ rewrite H2; lia | ].
      eapply Permutation_trans; [ apply Permutation_app_head, H3 | ].
      apply Permutation_sym, Permutation_middle.
Qed.

Lemma repeat_zero_le (bs : list nat) : Forall2 le (repeat O (length bs)) bs.
Proof. induction bs; simpl; constructor; [ lia | assumption ]. Qed.

Lemma takenUnits_zero (groups : list TGroupPair) :
  takenUnits (repeat O (length groups)) groups = [].
Proof. induction groups; simpl; [ reflexivity | assumption ]. Qed.

Lemma list_sum_repeat_zero (n : nat) : list_sum (repeat O n) = O.
Proof. induction n; simpl; [ reflexivity | assumption ]. Qed.

(** The invariant of the mixing loop, as long as slots remain. *)
Lemma mixUnits_invariant (groups : list TGroupPair) (j : nat) :
  (j <= list_sum (bucketSizes groups))%nat ->
  Forall2 le (snd (mixUnits groups j)) (bucketSizes groups)
  /\ list_sum (snd (mixUnits groups j)) = j
  /\ length (fst (mixUnits groups j)) = j
  /\ Permutation (fst (mixUnits groups j)) (takenUnits (snd (mixUnits groups j)) groups).
Proof.
  induction j as [ | j IH ]; intros Hj.
  - unfold mixUnits. simpl.
    split.
    { replace (length groups) with (length (bucketSizes groups))
        by apply length_map. apply repeat_zero_le. }
    split; [ apply list_sum_repeat_zero | ].
    split; [ reflexivity | ].
    rewrite takenUnits_zero. apply perm_nil.
  - destruct IH as (Hle & Hsum & Hlen & Hperm); [ lia | ].
    change (mixUnits groups (S j)) with (mix_step groups (mixUnits groups j)).
    destruct (unexhausted_exists _ _ Hle) as (g & Hg & Hun); [ lia | ].
    pose proof (bestGroup_unexhausted groups (snd (mixUnits groups j)) g Hg Hun) as Hbest.
    destruct (takenUnits_step _ _ Hle _ Hbest) as (H1 & H2 & H3).
    unfold mix_step. simpl.
    split; [ exact H1 | ].
    split; [ rewrite H2, Hsum; reflexivity | ].
    split; [ rewrite length_app, Hlen; simpl; lia | ].
    eapply Permutation_trans; [ | apply Permutation_sym, H3 ].
    eapply Permutation_trans; [ apply Permutation_app_tail, Hperm | ].
    apply Permutation_sym, Permutation_cons_append.
Qed.

Lemma mixUnits_choice (groups : list TGroupPair) (j : nat) :
  (j < list_sum (bucketSizes groups))%nat ->
  unexhausted groups (snd (mixUnits groups j))
              (bestGroup groups (snd (mixUnits groups j))).
Proof.
  intros Hj.
  destruct (mixUnits_invariant groups j) as (Hle & Hsum & _); [ lia | ].
  destruct (unexhausted_exists _ _ Hle) as (g & Hg & Hun); [ lia | ].
  exact (bestGroup_unexhausted groups _ g Hg Hun).
Qed.

(** A row whose commands are those of the units in its buckets is mixed
    into a permutation of these units. *)
Lemma rowMixed_intro (groups : list TGroupPair) (cmds : list (Z * Command)) :
  Permutation (bucketUnits groups) (map fst cmds) ->
  rowMixed (mkRow groups cmds (fst (mixUnits groups (length cmds)))
                  (snd (mixUnits groups (length cmds)))).
Proof.
  intros Hrow.
  assert (Htotal : length cmds = list_sum (bucketSizes groups)).
  { rewrite <- bucketUnits_length, (Permutation_length Hrow). symmetry. apply length_map. }
  destruct (mixUnits_invariant groups (length cmds)) as (Hle & Hsum & Hlen & Hperm);
    [ lia | ].
  constructor; simpl.
  - exact Hrow.
  - destruct (mixUnits groups (length cmds)); reflexivity.
  - exact Hlen.
  - eapply Permutation_trans; [ exact Hperm | ].
    rewrite (takenUnits_full _ _ Hle) by lia. exact Hrow.
  - intros j Hj. apply mixUnits_invariant. lia.
  - intros j Hj. apply mixUnits_choice. lia.
Qed.

(** The bound on the fill ratio also holds as the machine rounds it, for
    every bucket of up to 256 units. *)
Lemma groupVal_binary32_below_one : Binary32.belowOneUpTo 256 = true.
Proof. vm_compute. reflexivity. Qed.

(** ** The buckets of a row hold the units placed in it *)

Lemma swap_back_perm (rl : list TGroupPair) (e : TGroupPair) :
  forall passed, Permutation (swap_back rl e passed) (e :: rev rl ++ passed).
Proof.
  induction rl as [ | p rl' IH ]; intros passed; simpl.
  - apply Permutation_refl.
  - destruct (ugPairComp p e).
    + apply Permutation_sym, Permutation_middle.
    + eapply Permutation_trans; [ apply IH | ].
      rewrite <- app_assoc. apply Permutation_refl.
Qed.

Lemma swap_into_position_perm (groups : list TGroupPair) (e : TGroupPair) :
  Permutation (swap_into_position groups e) (e :: groups).
Proof.
  unfold swap_into_position.
  eapply Permutation_trans; [ apply swap_back_perm | ].
  rewrite app_nil_r, rev_involutive. apply Permutation_refl.
Qed.

Lemma bucketUnits_perm (groups groups' : list TGroupPair) :
  Permutation groups groups' -> Permutation (bucketUnits groups) (bucketUnits groups').
Proof. apply Permutation_flat_map. Qed.

Lemma bucketUnits_push (groups : list TGroupPair) (i : nat) (g : TGroupPair)
  (a : float) (unitID : Z) :
  nth_error groups i = Some g ->
  Permutation (bucketUnits (set_nth i (a, snd g ++ [unitID]) groups))
              (unitID :: bucketUnits groups).
Proof.
  revert i. induction groups as [ | h t IH ]; intros i Hi.
  - destruct i; discriminate.
  - destruct i as [ | i' ]; simpl in Hi.
    + inversion Hi; subst. unfold bucketUnits. simpl.
      rewrite <- app_assoc. simpl.
      apply Permutation_sym, Permutation_middle.
    + unfold bucketUnits in *. simpl.
      eapply Permutation_trans; [ apply Permutation_app_head, (IH i' Hi) | ].
      apply Permutation_sym, Permutation_middle.
Qed.

Lemma addUnitToGroups_perm (groups : list TGroupPair) (suPair : float * Z) :
  Permutation (bucketUnits (addUnitToGroups groups suPair))
              (snd suPair :: bucketUnits groups).
Proof.
  assert (Hnew : Permutation
                   (bucketUnits (swap_into_position groups (fst suPair, [snd suPair])))
                   (snd suPair :: bucketUnits groups)).
  { eapply Permutation_trans;
      [ apply bucketUnits_perm, swap_into_position_perm | ].
    apply Permutation_refl. }
  unfold addUnitToGroups.
  destruct (nth_error groups (lower_bound ugPairComp groups (fst suPair, [])))
    as [ g | ] eqn:Hg; [ | exact Hnew ].
  destruct (fne (fst g) (fst suPair)); [ exact Hnew | ].
  apply bucketUnits_push. exact Hg.
Qed.

Lemma MoveToPos_record (E : Engine) (st : State) (nextPos dir : float3.t)
  (unitID : Z) (c : Command) (u : CUnit) :
  units st unitID = Some u ->
  exists cmd, snd (fst (MoveToPos E st nextPos dir unitID c true)) = Some (unitID, cmd).
Proof.
  intros Hu. unfold MoveToPos. simpl. rewrite Hu. simpl. eexists. reflexivity.
Qed.

Lemma issueFrontCommand_loop (E : Engine) (l : list (Z * (Z * Command))) :
  forall st,
    (forall a, In a l -> resolves st (fst a) = true) ->
    issued (fold_left (issueFrontCommand E) l st)
    = issued st
      ++ map (fun a : Z * (Z * Command) => EvGive (fst a) (snd (snd a)) false) l.
Proof.
  induction l as [ | a rest IH ]; intros st Hres; simpl.
  - symmetry. apply app_nil_r.
  - rewrite IH.
    + unfold issueFrontCommand.
      assert (Ha : resolves st (fst a) = true) by (apply Hres; left; reflexivity).
      unfold resolves in Ha. destruct (units st (fst a)) as [ u | ] eqn:Hu;
        [ | discriminate ].
      rewrite (issued_GiveCommand _ _ _ _ _ _ Hu), <- app_assoc. reflexivity.
    + intros b Hb.
      rewrite (sameUnits_resolves _ _ _ (sameUnits_issueFrontCommand E st a)).
      apply Hres. right. exact Hb.
Qed.

Lemma flushRow_issued (E : Engine) (groups : list TGroupPair)
  (cmds : list (Z * Command)) (st : State) :
  (forall unitID, In unitID (fst (mixUnits groups (length cmds))) ->
     resolves st unitID = true) ->
  issued (flushRow E groups cmds st)
  = issued st
    ++ rowEvents (mkRow groups cmds (fst (mixUnits groups (length cmds)))
                        (snd (mixUnits groups (length cmds)))).
Proof.
  intros Hres. unfold flushRow, rowEvents. simpl.
  rewrite issueFrontCommand_loop; [ reflexivity | ].
  intros a Ha. destruct a as [ unitID entry ].
  apply in_combine_l in Ha. apply Hres. exact Ha.
Qed.

(** The loop over the sorted units: every row it closes is mixed, the rows
    partition the units in sorted order, and the orders given are those of
    the rows. *)
Lemma frontLoop_rows (E : Engine) (c : Command) (sideDir : float3.t)
  (pairs : list (float * Z)) :
  forall groups cmds nextPos st,
    (forall p, In p pairs -> resolves st (snd p) = true) ->
    (forall unitID, In unitID (map fst cmds) -> resolves st unitID = true) ->
    Permutation (bucketUnits groups) (map fst cmds) ->
    (pairs = [] -> cmds = []) ->
    exists rows,
      flushed (frontLoop E c sideDir pairs groups cmds nextPos st) = flushed st ++ rows
      /\ Forall rowMixed rows
      /\ flat_map (fun r => map fst (rowCommands r)) rows
         = map fst cmds ++ map snd pairs
      /\ issued (frontLoop E c sideDir pairs groups cmds nextPos st)
         = issued st ++ flat_map rowEvents rows.
Proof.
  induction pairs as [ | p rest IH ]; intros groups cmds nextPos st Hres Hcmds Hperm Hnil.
  - exists []. rewrite (Hnil eq_refl). simpl.
    repeat split; try (symmetry; apply app_nil_r). constructor.
  - assert (Hp : resolves st (snd p) = true) by (apply Hres; left; reflexivity).
    unfold resolves in Hp. destruct (units st (snd p)) as [ u | ] eqn:Hu;
      [ clear Hp | discriminate ].
    destruct (MoveToPos_record E st nextPos sideDir (snd p) c u Hu) as [ cmd Hcmd ].
    simpl frontLoop. rewrite Hcmd. simpl optCons.
    set (groups' := addUnitToGroups groups p).
    set (cmds' := cmds ++ [(snd p, cmd)]).
    set (nextPos' := fst (fst (MoveToPos E st nextPos sideDir (snd p) c true))).
    assert (Hperm' : Permutation (bucketUnits groups') (map fst cmds')).
    { unfold groups', cmds'. rewrite map_app. simpl.
      eapply Permutation_trans; [ apply addUnitToGroups_perm | ].
      eapply Permutation_trans; [ apply perm_skip, Hperm | ].
      apply Permutation_cons_append. }
    assert (Hcmds' : forall unitID, In unitID (map fst cmds') ->
                                    resolves st unitID = true).
    { intros unitID Hin. unfold cmds' in Hin. rewrite map_app in Hin.
      apply in_app_or in Hin. destruct Hin as [ Hin | [ <- | [] ] ].
      - apply Hcmds. exact Hin.
      - simpl. unfold resolves. rewrite Hu. reflexivity. }
    assert (Hrest : forall q, In q rest -> resolves st (snd q) = true).
    { intros q Hq. apply Hres. right. exact Hq. }
    match goal with
    | |- context [ if ?b then _ else _ ] => destruct b eqn:Hline
    end.
    + destruct (IH groups' cmds' nextPos' st Hrest Hcmds' Hperm') as (rows & H1 & H2 & H3 & H4).
      { intros ->. discriminate. }
      exists rows. split; [ exact H1 | ]. split; [ exact H2 | ].
      split; [ | exact H4 ].
      rewrite H3. unfold cmds'. rewrite map_app, <- app_assoc. reflexivity.
    + destruct (flushRow_frame E groups' cmds' st) as (Hsame & _ & Hflushed).
      pose proof (rowMixed_intro groups' cmds' Hperm') as Hrow.
      destruct (IH [] [] nextPos' (flushRow E groups' cmds' st)) as (rows & H1 & H2 & H3 & H4).
      { intros q Hq. rewrite (sameUnits_resolves _ _ _ Hsame). apply Hrest. exact Hq. }
      { intros unitID []. }
      { apply perm_nil. }
      { reflexivity. }
      exists (mkRow groups' cmds' (fst (mixUnits groups' (length cmds')))
                    (snd (mixUnits groups' (length cmds'))) :: rows).
      split; [ rewrite H1, Hflushed, <- app_assoc; reflexivity | ].
      split; [ constructor; assumption | ].
      split.
      { simpl. rewrite H3. unfold cmds'. rewrite map_app, <- app_assoc. reflexivity. }
      rewrite H4, flushRow_issued.
      * rewrite <- app_assoc. reflexivity.
      * intros unitID Hin. apply Hcmds'.
        apply (Permutation_in _ (row_permutation _ Hrow)). exact Hin.
Qed.

Lemma CreateUnitOrder_same_units (E : Engine) (player : Z) (st st2 : State) :
  units st2 = units st -> CreateUnitOrder E player st2 = CreateUnitOrder E player st.
Proof.
  intros Hunits. unfold CreateUnitOrder. f_equal.
  induction (netSelected E player) as [ | unitID rest IH ]; [ reflexivity | ].
  simpl. rewrite Hunits, IH. reflexivity.
Qed.

Lemma CreateUnitOrder_resolves (E : Engine) (player : Z) (st : State) (p : float * Z) :
  In p (CreateUnitOrder E player st) -> resolves st (snd p) = true.
Proof.
  intros Hin. unfold CreateUnitOrder in Hin.
  apply (Permutation_in _ (stable_sort_perm idPairComp _)) in Hin.
  destruct p as [ v unitID ].
  destruct (CreateUnitOrder_collect_priority _ _ _ _ Hin) as (u & Hu & _).
  simpl. unfold resolves. rewrite Hu. reflexivity.
Qed.

Lemma CreateUnitOrder_NoDup (E : Engine) (player : Z) (st : State) :
  NoDup (netSelected E player) -> NoDup (map snd (CreateUnitOrder E player st)).
Proof.
  intros Hnd. unfold CreateUnitOrder.
  apply (Permutation_NoDup
           (Permutation_sym (Permutation_map snd (stable_sort_perm idPairComp _)))).
  rewrite CreateUnitOrder_collect_ids. apply NoDup_filter. exact Hnd.
Qed.

Lemma NoDup_flat_map_each {A B : Type} (f : A -> list B) (l : list A) :
  NoDup (flat_map f l) -> Forall (fun a => NoDup (f a)) l.
Proof.
  induction l as [ | a rest IH ]; intros Hnd; [ constructor | ].
  simpl in Hnd. constructor.
  - exact (NoDup_app_remove_r _ _ Hnd).
  - apply IH. exact (NoDup_app_remove_l _ _ Hnd).
Qed.

(** Past the length check the handler computes the front length and the
    spacing and runs the loop over the sorted units. *)
Lemma MakeFormationFrontOrder_long_front (E : Engine) (c : Command) (player : Z)
  (st : State) :
  flt (distance E (GetPos c 0) (GetPos c 3))
      (of_size (length (netSelected E player) + 33)) = false ->
  exists st2,
    MakeFormationFrontOrder E c player st
    = frontLoop E c
        (formationSideDir (GetPos c 0) (GetPos c 3)
                          (distance E (GetPos c 0) (GetPos c 3) * 2)%Q)
        (CreateUnitOrder E player st2) [] [] ZeroVector st2
    /\ units st2 = units st /\ issued st2 = issued st /\ flushed st2 = flushed st
    /\ groupFrontLength st2 = (distance E (GetPos c 0) (GetPos c 3) * 2)%Q
    /\ formationRightPos st2 = GetPos c 3.
Proof.
  intros Hlong.
  set (frontDist := distance E (GetPos c 0) (GetPos c 3)) in *.
  set (size := length (netSelected E player)) in *.
  set (st1 := set_formation_points (GetPos c 0) (GetPos c 3) st).
  set (needed := (groupSumLength st1 * 2 * of_int (SQUARE_SIZE E))%Q).
  exists (set_front (frontDist * 2)%Q
            (if flt needed (frontDist * 2)%Q
             then ((frontDist * 2 - needed) / of_int (size_minus_one size))%Q
             else 0%Q)
            (if flt needed (frontDist * 2)%Q
             then note_divisor (size_minus_one size) st1
             else st1)).
  split.
  { unfold MakeFormationFrontOrder. cbv zeta.
    change (formationCenterPos (set_formation_points (GetPos c 0) (GetPos c 3) st))
      with (GetPos c 0).
    change (formationRightPos (set_formation_points (GetPos c 0) (GetPos c 3) st))
      with (GetPos c 3).
    fold frontDist. fold size. rewrite Hlong. fold st1. fold needed.
    destruct (flt needed (frontDist * 2)%Q); reflexivity. }
  destruct (flt needed (frontDist * 2)%Q); repeat split.
Qed.

(** C9.  Every row that [MakeFormationFrontOrder] closes is mixed into a
    permutation of the units placed in it: the buckets hold exactly the
    units of the row's destination commands, the mixing fills exactly one
    slot per command, the mixed ids are a permutation of the row's units
    (without repetition when the selection has none), the i-th command is
    given to the i-th mixed unit, no fill counter ever exceeds the size of
    its bucket, the bucket chosen for a slot is never exhausted, and the
    fill ratio of a bucket that is not exhausted is below 1.  The rows
    split the sorted units into consecutive parts. *)
Theorem MakeFormationFrontOrder_rows_mixed (E : Engine) (c : Command) (player : Z)
  (st : State) :
  let st' := MakeFormationFrontOrder E c player st in
  exists rows,
    flushed st' = flushed st ++ rows
    /\ Forall rowMixed rows
    /\ (flt (distance E (GetPos c 0) (GetPos c 3))
            (of_size (length (netSelected E player) + 33)) = false ->
        flat_map (fun r => map fst (rowCommands r)) rows
        = map snd (CreateUnitOrder E player st)
        /\ issued st' = issued st ++ flat_map rowEvents rows)
    /\ (NoDup (netSelected E player) ->
        Forall (fun r => NoDup (rowMixedUnitIDs r)) rows)
    /\ (forall cur max : nat, (cur < max)%nat -> (groupVal cur max < 1)%Q).
Proof.
  intros st'.
  destruct (flt (distance E (GetPos c 0) (GetPos c 3))
                (of_size (length (netSelected E player) + 33))) eqn:Hfront.
  - exists []. split.
    { unfold st', MakeFormationFrontOrder. cbv zeta.
      change (formationCenterPos (set_formation_points (GetPos c 0) (GetPos c 3) st))
        with (GetPos c 0).
      change (formationRightPos (set_formation_points (GetPos c 0) (GetPos c 3) st))
        with (GetPos c 3).
      rewrite Hfront.
      destruct (giveIfResolved_loop E c false (netSelected E player)
                  (set_formation_points (GetPos c 0) (GetPos c 3) st)) as (_ & _ & Hh).
      unfold sameHandler in Hh. simpl in Hh.
      split_hyps.
      rewrite app_nil_r. symmetry. assumption. }
    split; [ constructor | ].
    split; [ discriminate | ].
    split; [ constructor | apply groupVal_lt_one ].
  - destruct (MakeFormationFrontOrder_long_front E c player st Hfront)
      as (st2 & Hloop & Hunits & Hissued & Hflushed & _).
    destruct (frontLoop_rows E c
                (formationSideDir (GetPos c 0) (GetPos c 3)
                                  (distance E (GetPos c 0) (GetPos c 3) * 2)%Q)
                (CreateUnitOrder E player st2) [] [] ZeroVector st2)
      as (rows & H1 & H2 & H3 & H4).
    { intros p Hp. apply CreateUnitOrder_resolves with (E := E) (player := player).
      exact Hp. }
    { intros unitID []. }
    { apply perm_nil. }
    { reflexivity. }
    rewrite <- Hloop in H1, H4. fold st' in H1, H4.
    rewrite (CreateUnitOrder_same_units E player st st2 Hunits) in H3.
    simpl in H3.
    exists rows.
    split; [ rewrite H1, Hflushed; reflexivity | ].
    split; [ exact H2 | ].
    split; [ intros _; split; [ exact H3 | rewrite H4, Hissued; reflexivity ] | ].
    split; [ | apply groupVal_lt_one ].
    intros Hnd.
    pose proof (CreateUnitOrder_NoDup E player st Hnd) as Hsorted.
    rewrite <- H3 in Hsorted.
    pose proof (NoDup_flat_map_each _ _ Hsorted) as Heach.
    rewrite Forall_forall in H2, Heach |- *.
    intros r Hr.
    apply (Permutation_NoDup (Permutation_sym (row_permutation r (H2 r Hr)))).
    exact (Heach r Hr).
Qed.

(** ** The divisor of the projection into front coordinates *)

(** C10.  When the front is not too short, the y component of the side
    direction handed to [MoveToPos], by which the projection divides, is the
    distance of the two points of the front line; it is at least the number
    of selected units plus 33, hence positive. *)
Theorem MakeFormationFrontOrder_projection_divisor (E : Engine) (c : Command)
  (player : Z) (st : State) :
  let frontDist := distance E (GetPos c 0) (GetPos c 3) in
  let size := length (netSelected E player) in
  flt frontDist (of_size (size + 33)) = false ->
  let sideDir := formationSideDir (GetPos c 0) (GetPos c 3) (frontDist * 2)%Q in
  (float3.y sideDir == frontDist)%Q
  /\ (of_size (size + 33) <= float3.y sideDir)%Q
  /\ (0 < float3.y sideDir)%Q
  /\ exists st2,
       MakeFormationFrontOrder E c player st
       = frontLoop E c sideDir (CreateUnitOrder E player st2) [] [] ZeroVector st2
       /\ (groupFrontLength st2 == 2 * float3.y sideDir)%Q
       /\ formationRightPos st2 = GetPos c 3.
Proof.
  intros frontDist size Hlong sideDir.
  assert (Hy : (float3.y sideDir == frontDist)%Q).
  { unfold sideDir, formationSideDir. simpl. ring. }
  assert (Hmin : (of_size (size + 33) <= frontDist)%Q) by (apply flt_false; exact Hlong).
  assert (Hpos : (0 < of_size (size + 33))%Q).
  { unfold of_size, Qlt. simpl. lia. }
  split; [ exact Hy | ].
  split; [ rewrite Hy; exact Hmin | ].
  split; [ rewrite Hy; exact (Qlt_le_trans _ _ _ Hpos Hmin) | ].
  destruct (MakeFormationFrontOrder_long_front E c player st Hlong)
    as (st2 & Hloop & _ & _ & _ & Hlength & Hright).
  exists st2. split; [ exact Hloop | ].
  split; [ | exact Hright ].
  rewrite Hlength, Hy. unfold frontDist. ring.
Qed.

Lemma MakeFormationFrontOrder_projection_divisor_witness :
  flt (distance Sample.frontEngine (GetPos Sample.longFront 0)
                (GetPos Sample.longFront 3))
      (of_size (length (netSelected Sample.frontEngine 0) + 33)) = false
  /\ (0 < float3.y (formationSideDir (GetPos Sample.longFront 0)
                      (GetPos Sample.longFront 3)
                      (distance Sample.frontEngine (GetPos Sample.longFront 0)
                                (GetPos Sample.longFront 3) * 2)))%Q.
Proof.
  split; [ vm_compute; reflexivity | ].
  exact (proj1 (proj2 (proj2
           (MakeFormationFrontOrder_projection_divisor Sample.frontEngine
              Sample.longFront 0 Sample.threeTanks eq_refl)))).
Defined.

(** ** The formation on the samples *)

(** Three tanks on a long front: one row; the sorted order 1, 3, 2 is mixed
    into 1, 2, 3, the buckets are filled to 2 and 1. *)
Lemma MakeFormationFrontOrder_one_row :
  map (fun r => (map fst (rowCommands r), rowMixedUnitIDs r, rowMixedGroupSizes r))
      (flushed (GiveCommandNet Sample.frontEngine Sample.longFront 0 Sample.threeTanks))
  = [([1; 3; 2], [1; 2; 3], [2%nat; 1%nat])].
Proof. vm_compute. reflexivity. Qed.

(** Five tanks on a front of length 80: two rows. *)
Lemma MakeFormationFrontOrder_two_rows :
  map (fun r => (map fst (rowCommands r), rowMixedUnitIDs r, rowMixedGroupSizes r))
      (flushed (GiveCommandNet Sample.fiveEngine Sample.mediumFront 0 Sample.fiveTanks))
  = [([1; 3; 5], [1; 3; 5], [3%nat]); ([2; 4], [2; 4], [2%nat])].
Proof. vm_compute. reflexivity. Qed.

Lemma MakeFormationFrontOrder_rows_mixed_witness :
  flt (distance Sample.fiveEngine (GetPos Sample.mediumFront 0)
                (GetPos Sample.mediumFront 3))
      (of_size (length (netSelected Sample.fiveEngine 0) + 33)) = false
  /\ NoDup (netSelected Sample.fiveEngine 0)
  /\ exists rows,
       flushed (MakeFormationFrontOrder Sample.fiveEngine Sample.mediumFront 0
                                        Sample.fiveTanks)
       = flushed Sample.fiveTanks ++ rows
       /\ Forall rowMixed rows
       /\ flat_map (fun r => map fst (rowCommands r)) rows
          = map snd (CreateUnitOrder Sample.fiveEngine 0 Sample.fiveTanks)
       /\ Forall (fun r => NoDup (rowMixedUnitIDs r)) rows.
Proof.
  assert (Hnd : NoDup (netSelected Sample.fiveEngine 0)).
  { repeat constructor; simpl; intuition discriminate. }
  split; [ vm_compute; reflexivity | ].
  split; [ exact Hnd | ].
  destruct (MakeFormationFrontOrder_rows_mixed Sample.fiveEngine Sample.mediumFront 0
              Sample.fiveTanks) as (rows & H1 & H2 & H3 & H4 & _).
  exists rows. split; [ exact H1 | ]. split; [ exact H2 | ].
  split; [ exact (proj1 (H3 eq_refl)) | exact (H4 Hnd) ].
Defined.

(** ** Orders go to selected units only *)

Lemma traced_refl (st : State) : traced st st [].
Proof.
  split; [ symmetry; apply app_nil_r | ].
  split; [ apply sameUnits_refl | reflexivity ].
Qed.

Lemma traced_trans (a b c : State) (evs1 evs2 : list Event) :
  traced a b evs1 -> traced b c evs2 -> traced a c (evs1 ++ evs2).
Proof.
  intros (Hi1 & Hu1 & Hk1) (Hi2 & Hu2 & Hk2).
  split; [ rewrite Hi2, Hi1, app_assoc; reflexivity | ].
  split; [ exact (sameUnits_trans _ _ _ Hu1 Hu2) | ].
  intros j Hj. rewrite Hk2, Hk1; [ reflexivity | | ];
    intros d f Hin; apply (Hj d f); apply in_or_app; [ left | right ]; exact Hin.
Qed.

(** A step that changes neither the units nor the trace. *)
Lemma traced_quiet (st st' : State) :
  units st' = units st -> issued st' = issued st -> traced st st' [].
Proof.
  intros Hu Hi.
  split; [ rewrite Hi; symmetry; apply app_nil_r | ].
  split; [ intros j; rewrite Hu; reflexivity | intros j _; rewrite Hu; reflexivity ].
Qed.

Lemma traced_GiveCommand (E : Engine) (unitID : Z) (c : Command) (fromSynced : bool)
  (st : State) :
  traced st (GiveCommand E unitID c fromSynced st)
         (if resolves st unitID then [EvGive unitID c fromSynced] else []).
Proof.
  unfold resolves. destruct (units st unitID) as [ u | ] eqn:Hu.
  - split; [ apply (issued_GiveCommand _ _ _ _ _ _ Hu) | ].
    split; [ apply sameUnits_GiveCommand | ].
    intros j Hj. rewrite units_GiveCommand.
    destruct (j =? unitID) eqn:Hjd; [ | reflexivity ].
    apply Z.eqb_eq in Hjd. subst j. exfalso. apply (Hj c fromSynced). left. reflexivity.
  - unfold GiveCommand. rewrite Hu. apply traced_refl.
Qed.

Lemma traced_emit_acknowledge (c : Command) (st : State) :
  traced st (emit (EvAcknowledge c) st) [EvAcknowledge c].
Proof.
  split; [ reflexivity | ].
  split; [ intros j; reflexivity | intros j _; reflexivity ].
Qed.

Lemma someTrace_refl (st : State) : someTrace st st.
Proof. exists []. apply traced_refl. Qed.

Lemma someTrace_trans (a b c : State) : someTrace a b -> someTrace b c -> someTrace a c.
Proof.
  intros (evs1 & H1) (evs2 & H2). exists (evs1 ++ evs2).
  exact (traced_trans _ _ _ _ _ H1 H2).
Qed.

Lemma someTrace_flushRow (E : Engine) (groups : list TGroupPair)
  (cmds : list (Z * Command)) (st : State) :
  someTrace st (flushRow E groups cmds st).
Proof.
  unfold flushRow. cbv zeta.
  match goal with
  | |- someTrace _ (fold_left _ ?l ?s) =>
      apply (someTrace_trans _ s);
        [ exists []; apply traced_quiet; reflexivity
        | apply (fold_left_rel someTrace (issueFrontCommand E) someTrace_refl
                   someTrace_trans) ]
  end.
  intros s a. eexists. apply traced_GiveCommand.
Qed.

Lemma someTrace_frontLoop (E : Engine) (c : Command) (sideDir : float3.t)
  (pairs : list (float * Z)) :
  forall groups cmds nextPos st,
    someTrace st (frontLoop E c sideDir pairs groups cmds nextPos st).
Proof.
  induction pairs as [ | p rest IH ]; intros groups cmds nextPos st;
    [ apply someTrace_refl | ].
  simpl.
  match goal with |- someTrace _ (if ?b then _ else _) => destruct b end.
  - apply IH.
  - eapply someTrace_trans; [ apply someTrace_flushRow | apply IH ].
Qed.

Lemma ordersWithin_refl (selected : list Z) (st : State) : ordersWithin selected st st.
Proof. exists []. split; [ apply traced_refl | constructor ]. Qed.

Lemma toSelected_same (selected : list Z) (st st' : State) (e : Event) :
  sameUnits st st' -> toSelected selected st' e -> toSelected selected st e.
Proof.
  intros Hsame. destruct e as [ unitID d f | d ]; simpl; [ | trivial ].
  rewrite (sameUnits_resolves _ _ _ Hsame). trivial.
Qed.

Lemma ordersWithin_trans (selected : list Z) (a b c : State) :
  ordersWithin selected a b -> ordersWithin selected b c -> ordersWithin selected a c.
Proof.
  intros (evs1 & H1 & F1) (evs2 & H2 & F2). exists (evs1 ++ evs2).
  split; [ exact (traced_trans _ _ _ _ _ H1 H2) | ].
  apply Forall_app. split; [ exact F1 | ].
  destruct H1 as (_ & Hsame & _).
  eapply Forall_impl; [ | exact F2 ].
  intros e. apply toSelected_same. exact Hsame.
Qed.

Lemma ordersWithin_quiet (selected : list Z) (st st' : State) :
  units st' = units st -> issued st' = issued st -> ordersWithin selected st st'.
Proof.
  intros Hu Hi. exists []. split; [ apply traced_quiet; assumption | constructor ].
Qed.

Lemma ordersWithin_GiveCommand (selected : list Z) (E : Engine) (unitID : Z)
  (c : Command) (fromSynced : bool) (st : State) :
  In unitID selected ->
  ordersWithin selected st (GiveCommand E unitID c fromSynced st).
Proof.
  intros Hin. eexists. split; [ apply traced_GiveCommand | ].
  destruct (resolves st unitID) eqn:Hres; [ | constructor ].
  constructor; [ | constructor ]. simpl. split; assumption.
Qed.

Lemma ordersWithin_AddUnitSetMaxSpeedCommandNet (selected : list Z) (E : Engine)
  (unitID : Z) (opts : Z) (st : State) :
  In unitID selected ->
  ordersWithin selected st (AddUnitSetMaxSpeedCommandNet E unitID opts st).
Proof.
  intros Hin. unfold AddUnitSetMaxSpeedCommandNet.
  destruct (units st unitID) as [ u | ]; [ | apply ordersWithin_refl ].
  destruct (negb (canSetMaxSpeed u));
    [ apply ordersWithin_refl | apply ordersWithin_GiveCommand; exact Hin ].
Qed.

Lemma ordersWithin_AddGroupSetMaxSpeedCommandNet (selected : list Z) (E : Engine)
  (unitID : Z) (opts : Z) (st : State) :
  In unitID selected ->
  ordersWithin selected st (AddGroupSetMaxSpeedCommandNet E unitID opts st).
Proof.
  intros Hin. unfold AddGroupSetMaxSpeedCommandNet.
  destruct (units st unitID) as [ u | ]; [ | apply ordersWithin_refl ].
  destruct (negb (canSetMaxSpeed u));
    [ apply ordersWithin_refl | apply ordersWithin_GiveCommand; exact Hin ].
Qed.

(** A loop whose every turn stays within the selection does so as a whole. *)
Lemma fold_left_within {A : Type} (selected : list Z) (f : State -> A -> State)
  (l : list A) :
  (forall s a, In a l -> ordersWithin selected s (f s a)) ->
  forall s, ordersWithin selected s (fold_left f l s).
Proof.
  induction l as [ | a rest IH ]; intros Hstep s; simpl.
  - apply ordersWithin_refl.
  - eapply ordersWithin_trans; [ apply Hstep; left; reflexivity | ].
    apply IH. intros s' b Hb. apply Hstep. right. exact Hb.
Qed.

Lemma fold_left_within_snd {A B : Type} (selected : list Z)
  (f : B * State -> A -> B * State) (l : list A) :
  (forall acc a, In a l -> ordersWithin selected (snd acc) (snd (f acc a))) ->
  forall acc, ordersWithin selected (snd acc) (snd (fold_left f l acc)).
Proof.
  induction l as [ | a rest IH ]; intros Hstep acc; simpl.
  - apply ordersWithin_refl.
  - eapply ordersWithin_trans; [ apply Hstep; left; reflexivity | ].
    apply IH. intros acc' b Hb. apply Hstep. right. exact Hb.
Qed.

Lemma ordersWithin_addSpeed (selected : list Z) (E : Engine) (groupSpeed : bool)
  (opts : Z) (st : State) (unitID : Z) :
  In unitID selected -> ordersWithin selected st (addSpeed E groupSpeed opts st unitID).
Proof.
  intros Hin. unfold addSpeed.
  destruct (units st unitID); [ | apply ordersWithin_refl ].
  destruct groupSpeed;
    [ apply ordersWithin_AddGroupSetMaxSpeedCommandNet
    | apply ordersWithin_AddUnitSetMaxSpeedCommandNet ]; exact Hin.
Qed.

Lemma ordersWithin_lockedOrder (selected : list Z) (E : Engine) (c : Command)
  (groupSpeed queueing : bool) (st : State) (unitID : Z) :
  In unitID selected ->
  ordersWithin selected st (lockedOrder E c groupSpeed queueing st unitID).
Proof.
  intros Hin. unfold lockedOrder.
  destruct (units st unitID); [ | apply ordersWithin_refl ].
  destruct groupSpeed.
  - eapply ordersWithin_trans;
      [ | apply ordersWithin_AddGroupSetMaxSpeedCommandNet; exact Hin ].
    apply ordersWithin_GiveCommand. exact Hin.
  - eapply ordersWithin_trans;
      [ | apply ordersWithin_AddUnitSetMaxSpeedCommandNet; exact Hin ].
    apply ordersWithin_GiveCommand. exact Hin.
Qed.

Lemma ordersWithin_broadcastOrder (selected : list Z) (E : Engine) (c : Command)
  (st : State) (unitID : Z) :
  In unitID selected -> ordersWithin selected st (broadcastOrder E c st unitID).
Proof.
  intros Hin. unfold broadcastOrder.
  destruct (units st unitID); [ | apply ordersWithin_refl ].
  destruct (MayRequireSetMaxSpeedCommand c); simpl.
  - eapply ordersWithin_trans;
      [ | apply ordersWithin_AddUnitSetMaxSpeedCommandNet; exact Hin ].
    apply ordersWithin_GiveCommand. exact Hin.
  - apply ordersWithin_GiveCommand. exact Hin.
Qed.

Lemma ordersWithin_acknowledgeWait (selected : list Z) (E : Engine) (c : Command)
  (player : Z) (st : State) :
  ordersWithin selected st (acknowledgeWait E c player st).
Proof.
  unfold acknowledgeWait.
  destruct (negb (GetID c =? CMD_WAIT)); [ apply ordersWithin_refl | ].
  destruct (negb (player =? myPlayerNum E)); [ apply ordersWithin_refl | ].
  eexists. split; [ apply traced_emit_acknowledge | ].
  constructor; [ exact I | constructor ].
Qed.

Lemma ordersWithin_attackTarget (selected : list Z) (E : Engine) (queueing : bool)
  (unitID : Z) (acc : Command * State) (t : float * Z) :
  In unitID selected ->
  ordersWithin selected (snd acc) (snd (attackTarget E queueing unitID acc t)).
Proof.
  intros Hin. unfold attackTarget.
  destruct (queueing && WillCancelQueued E (snd acc) unitID
                          (param_set (fst acc) 0 (of_int (snd t)))); simpl.
  - apply ordersWithin_refl.
  - eapply ordersWithin_trans;
      [ | apply ordersWithin_AddUnitSetMaxSpeedCommandNet; exact Hin ].
    apply ordersWithin_GiveCommand. exact Hin.
Qed.

Lemma ordersWithin_attackUnit (selected : list Z) (E : Engine) (queueing : bool)
  (ranked : list (float * Z)) (acc : Command * State) (unitID : Z) :
  In unitID selected ->
  ordersWithin selected (snd acc) (snd (attackUnit E queueing ranked acc unitID)).
Proof.
  intros Hin. unfold attackUnit.
  destruct (units (snd acc) unitID); [ | apply ordersWithin_refl ].
  apply (fold_left_within_snd selected (attackTarget E queueing unitID) ranked
           (fun a t _ => ordersWithin_attackTarget selected E queueing unitID a t Hin)
           (_, snd acc)).
Qed.

Lemma ordersWithin_cancelUnit (selected : list Z) (E : Engine) (attackCmd : Command)
  (targets : list Z) (st : State) (unitID : Z) :
  In unitID selected ->
  ordersWithin selected st (cancelUnit E attackCmd targets st unitID).
Proof.
  intros Hin. unfold cancelUnit.
  destruct (units st unitID); [ | apply ordersWithin_refl ].
  apply fold_left_within. intros s t _. unfold cancelTarget.
  destruct (negb (WillCancelQueued E s unitID (param_set attackCmd 0 (of_int t))));
    [ apply ordersWithin_refl | apply ordersWithin_GiveCommand; exact Hin ].
Qed.

Lemma ordersWithin_SelectAttackNet (E : Engine) (cmd : Command) (player : Z)
  (st : State) :
  ordersWithin (netSelected E player) st (SelectAttackNet E cmd player st).
Proof.
  unfold SelectAttackNet.
  destruct (areaTargets E cmd player st) as [ | t ts ]; [ apply ordersWithin_refl | ].
  remember (netSelected E player) as selected eqn:Hsel.
  destruct selected as [ | unitID rest ]; [ apply ordersWithin_refl | ].
  destruct (has_key (options cmd) CONTROL_KEY).
  - apply fold_left_within. intros s a Ha. apply ordersWithin_cancelUnit. exact Ha.
  - match goal with |- context [ if ?b then _ else _ ] => destruct b end;
      [ apply ordersWithin_refl | ].
    match goal with
    | |- ordersWithin _ _ (snd (fold_left ?f ?l (?a0, ?s))) =>
        apply (ordersWithin_trans _ _ s);
          [ apply ordersWithin_quiet; reflexivity
          | apply (fold_left_within_snd _ f l
                     (fun acc unitID' Hin' =>
                        ordersWithin_attackUnit _ E _ _ acc unitID' Hin') (a0, s)) ]
    end.
Qed.

Lemma ordersWithin_giveIfResolved (selected : list Z) (E : Engine) (c : Command)
  (fromSynced : bool) (st : State) (unitID : Z) :
  In unitID selected -> ordersWithin selected st (giveIfResolved E c fromSynced st unitID).
Proof.
  intros Hin. unfold giveIfResolved.
  destruct (units st unitID); [ | apply ordersWithin_refl ].
  apply ordersWithin_GiveCommand. exact Hin.
Qed.

(** The events of a row go to the units of its destination commands. *)
Lemma rowEvents_units (r : FormationRow) (e : Event) :
  rowMixed r -> In e (rowEvents r) ->
  exists unitID d, e = EvGive unitID d false /\ In unitID (map fst (rowCommands r)).
Proof.
  intros Hrow Hin. unfold rowEvents in Hin. apply in_map_iff in Hin.
  destruct Hin as ([ unitID entry ] & <- & Hin).
  exists unitID, (snd entry). split; [ reflexivity | ].
  apply in_combine_l in Hin.
  exact (Permutation_in _ (row_permutation _ Hrow) Hin).
Qed.

Lemma CreateUnitOrder_selected (E : Engine) (player : Z) (st : State) (unitID : Z) :
  In unitID (map snd (CreateUnitOrder E player st)) ->
  In unitID (netSelected E player) /\ resolves st unitID = true.
Proof.
  intros Hin. unfold CreateUnitOrder in Hin.
  apply (Permutation_in _ (Permutation_map snd (stable_sort_perm idPairComp _))) in Hin.
  rewrite CreateUnitOrder_collect_ids in Hin. apply filter_In in Hin. exact Hin.
Qed.

Lemma ordersWithin_MakeFormationFrontOrder (E : Engine) (c : Command) (player : Z)
  (st : State) :
  ordersWithin (netSelected E player) st (MakeFormationFrontOrder E c player st).
Proof.
  destruct (flt (distance E (GetPos c 0) (GetPos c 3))
                (of_size (length (netSelected E player) + 33))) eqn:Hfront.
  - unfold MakeFormationFrontOrder. cbv zeta.
    change (formationCenterPos (set_formation_points (GetPos c 0) (GetPos c 3) st))
      with (GetPos c 0).
    change (formationRightPos (set_formation_points (GetPos c 0) (GetPos c 3) st))
      with (GetPos c 3).
    rewrite Hfront.
    apply (ordersWithin_trans _ _ (set_formation_points (GetPos c 0) (GetPos c 3) st));
      [ apply ordersWithin_quiet; reflexivity | ].
    apply fold_left_within. intros s a Ha. apply ordersWithin_giveIfResolved. exact Ha.
  - destruct (MakeFormationFrontOrder_long_front E c player st Hfront)
      as (st2 & Hloop & Hunits & Hissued & _).
    rewrite Hloop.
    apply (ordersWithin_trans _ _ st2); [ apply ordersWithin_quiet; assumption | ].
    set (sideDir := formationSideDir (GetPos c 0) (GetPos c 3)
                      (distance E (GetPos c 0) (GetPos c 3) * 2)%Q).
    destruct (someTrace_frontLoop E c sideDir (CreateUnitOrder E player st2) [] []
                ZeroVector st2) as (evs & Htr).
    destruct (frontLoop_rows E c sideDir (CreateUnitOrder E player st2) [] []
                ZeroVector st2) as (rows & _ & Hrows & Hids & Hissued').
    { intros p Hp. apply CreateUnitOrder_resolves with (E := E) (player := player).
      exact Hp. }
    { intros unitID []. }
    { apply perm_nil. }
    { reflexivity. }
    exists evs. split; [ exact Htr | ].
    destruct Htr as (Hi & _).
    rewrite Hissued' in Hi. apply app_inv_head in Hi. subst evs.
    simpl in Hids.
    apply Forall_forall. intros e He. apply in_flat_map in He.
    destruct He as (r & Hr & He).
    rewrite Forall_forall in Hrows.
    destruct (rowEvents_units r e (Hrows r Hr) He) as (unitID & d & -> & Hin).
    simpl. apply CreateUnitOrder_selected with (E := E). rewrite <- Hids.
    apply in_flat_map. exists r. split; assumption.
Qed.

Lemma ordersWithin_CalculateGroupData (selected : list Z) (E : Engine) (player : Z)
  (queueing : bool) (st : State) :
  ordersWithin selected st (CalculateGroupData E player queueing st).
Proof.
  apply ordersWithin_quiet; unfold CalculateGroupData; cbv zeta;
    match goal with |- context [ if ?b then _ else _ ] => destruct b end; reflexivity.
Qed.

(** X1.  Whatever the order and its modifiers, [GiveCommandNet] gives orders
    only to units of the player's selection that resolve, and a unit that
    receives no order is left exactly as it was. *)
Theorem GiveCommandNet_orders_within_selection (E : Engine) (c : Command) (player : Z)
  (st : State) :
  let st' := GiveCommandNet E c player st in
  exists evs,
    issued st' = issued st ++ evs
    /\ Forall (fun e => match e with
                        | EvGive unitID _ _ =>
                            In unitID (netSelected E player) /\ resolves st unitID = true
                        | EvAcknowledge _ => True
                        end) evs
    /\ (forall j, (forall d f, ~ In (EvGive j d f) evs) -> units st' j = units st j)
    /\ (forall j, ~ In j (netSelected E player) -> units st' j = units st j).
Proof.
  intros st'.
  assert (H : ordersWithin (netSelected E player) st st').
  { unfold st', GiveCommandNet. cbv zeta.
    destruct (Z.of_nat (length (netSelected E player)) <? 1);
      [ apply ordersWithin_refl | ].
    destruct (isAreaAttack c); [ apply ordersWithin_SelectAttackNet | ].
    destruct (Z.of_nat (length (netSelected E player)) =? 1) eqn:Hone.
    { destruct (netSelected E player) as [ | unitID rest ] eqn:Hsel;
        [ discriminate | ].
      simpl hd.
      assert (Hin : In unitID (unitID :: rest)) by (left; reflexivity).
      destruct (units st unitID); [ | apply ordersWithin_refl ].
      eapply ordersWithin_trans; [ | apply ordersWithin_acknowledgeWait ].
      destruct (MayRequireSetMaxSpeedCommand c).
      - eapply ordersWithin_trans;
          [ | apply ordersWithin_AddUnitSetMaxSpeedCommandNet; exact Hin ].
        apply ordersWithin_GiveCommand. exact Hin.
      - apply ordersWithin_GiveCommand. exact Hin. }
    destruct (isFrontOrder c).
    { eapply ordersWithin_trans; [ | apply fold_left_within ].
      - eapply ordersWithin_trans; [ apply ordersWithin_CalculateGroupData | ].
        apply ordersWithin_MakeFormationFrontOrder.
      - intros s a Ha. apply ordersWithin_addSpeed. exact Ha. }
    destruct (isAltMove c).
    { eapply ordersWithin_trans; [ | apply fold_left_within ].
      - eapply ordersWithin_trans; [ apply ordersWithin_CalculateGroupData | ].
        apply ordersWithin_MakeFormationFrontOrder.
      - intros s a Ha. apply ordersWithin_addSpeed. exact Ha. }
    destruct (isLockedOrder c).
    { eapply ordersWithin_trans; [ apply ordersWithin_CalculateGroupData | ].
      apply fold_left_within. intros s a Ha. apply ordersWithin_lockedOrder. exact Ha. }
    eapply ordersWithin_trans; [ | apply ordersWithin_acknowledgeWait ].
    apply fold_left_within. intros s a Ha. apply ordersWithin_broadcastOrder. exact Ha. }
  destruct H as (evs & (Hi & _ & Hk) & Hall).
  exists evs. split; [ exact Hi | ]. split; [ exact Hall | ]. split; [ exact Hk | ].
  intros j Hj. apply Hk. intros d f Hin.
  rewrite Forall_forall in Hall. apply Hall in Hin. simpl in Hin. tauto.
Qed.

(** ** One selected unit, and the acknowledgement of a wait order *)

Lemma units_GiveCommand_same (E : Engine) (unitID : Z) (c : Command) (fromSynced : bool)
  (st : State) (u : CUnit) :
  units st unitID = Some u ->
  exists u', units (GiveCommand E unitID c fromSynced st) unitID = Some u'
    /\ maxSpeed u' = maxSpeed u /\ canSetMaxSpeed u' = canSetMaxSpeed u.
Proof.
  intros Hu. rewrite units_GiveCommand, Z.eqb_refl, Hu. simpl.
  eexists. split; [ reflexivity | split; reflexivity ].
Qed.

(** The order itself, then the speed match. *)
Lemma issued_give_then_speed (E : Engine) (unitID : Z) (c : Command) (opts : Z)
  (st : State) (u : CUnit) :
  units st unitID = Some u ->
  issued (AddUnitSetMaxSpeedCommandNet E unitID opts (GiveCommand E unitID c true st))
  = issued st ++ EvGive unitID c true :: speedMatch unitID u opts.
Proof.
  intros Hu.
  destruct (units_GiveCommand_same E unitID c true st u Hu) as (u' & Hu' & Hs & Hc).
  rewrite (issued_AddUnitSetMaxSpeedCommandNet _ _ _ _ _ Hu').
  rewrite (issued_GiveCommand _ _ _ _ _ _ Hu), <- app_assoc.
  rewrite (speedMatch_same _ _ _ _ Hs Hc). reflexivity.
Qed.

Lemma GiveCommandNet_one_unit (E : Engine) (c : Command) (player : Z) (st : State)
  (unitID : Z) :
  netSelected E player = [unitID] -> isAreaAttack c = false ->
  GiveCommandNet E c player st
  = match units st unitID with
    | None => st
    | Some _ =>
        acknowledgeWait E c player
          (if MayRequireSetMaxSpeedCommand c
           then AddUnitSetMaxSpeedCommandNet E unitID (options c)
                  (GiveCommand E unitID c true st)
           else GiveCommand E unitID c true st)
    end.
Proof.
  intros Hsel Harea. unfold GiveCommandNet. cbv zeta.
  rewrite Hsel, Harea. reflexivity.
Qed.

(** X2.  With exactly one selected unit, an order that is not an area attack
    is passed on as it is, whatever its modifiers and the number of its
    parameters: the unit receives the order, then the speed match if the
    kind of the order asks for one and the unit can set a maximum speed, and
    a wait order of the local player is acknowledged.  No group data is
    computed and no formation is built.  When the id does not resolve,
    nothing happens at all. *)
Theorem GiveCommandNet_single_unit (E : Engine) (c : Command) (player : Z) (st : State)
  (unitID : Z) :
  netSelected E player = [unitID] ->
  isAreaAttack c = false ->
  let st' := GiveCommandNet E c player st in
  (forall unit, units st unitID = Some unit ->
     issued st'
     = issued st
       ++ EvGive unitID c true
          :: (if MayRequireSetMaxSpeedCommand c && canSetMaxSpeed unit
              then [EvGive unitID
                      (Command1 CMD_SET_WANTED_MAX_SPEED (options c) (maxSpeed unit))
                      true]
              else [])
       ++ (if (GetID c =? CMD_WAIT) && (player =? myPlayerNum E)
           then [EvAcknowledge c] else []))
  /\ (units st unitID = None -> st' = st)
  /\ sameHandler st st'.
Proof.
  intros Hsel Harea st'. unfold st'.
  rewrite (GiveCommandNet_one_unit E c player st unitID Hsel Harea).
  split; [ | split ].
  - intros unit Hu. rewrite Hu, issued_acknowledgeWait.
    unfold acknowledgeEvents.
    destruct (MayRequireSetMaxSpeedCommand c); simpl.
    + rewrite (issued_give_then_speed _ _ _ _ _ _ Hu), <- app_assoc.
      unfold speedMatch. destruct (canSetMaxSpeed unit); reflexivity.
    + rewrite (issued_GiveCommand _ _ _ _ _ _ Hu), <- app_assoc. reflexivity.
  - intros ->. reflexivity.
  - destruct (units st unitID); [ | apply sameHandler_refl ].
    eapply sameHandler_trans; [ | apply sameHandler_acknowledgeWait ].
    destruct (MayRequireSetMaxSpeedCommand c).
    + eapply sameHandler_trans; [ | apply sameHandler_AddUnitSetMaxSpeedCommandNet ].
      apply sameHandler_GiveCommand.
    + apply sameHandler_GiveCommand.
Qed.

(** A front order with the control modifier on one tank: the six-parameter
    move is given as it is, followed by the tank's own speed. *)
Lemma GiveCommandNet_single_unit_witness :
  netSelected (Sample.engine [1] []) 0 = [1]
  /\ isAreaAttack (with_options Sample.longFront CONTROL_KEY) = false
  /\ issued (GiveCommandNet (Sample.engine [1] [])
                            (with_options Sample.longFront CONTROL_KEY) 0 Sample.twoTanks)
     = [EvGive 1 (with_options Sample.longFront CONTROL_KEY) true;
        EvGive 1 (Command1 CMD_SET_WANTED_MAX_SPEED CONTROL_KEY 2%Q) true].
Proof.
  split; [ reflexivity | ]. split; [ reflexivity | ].
  exact (proj1 (GiveCommandNet_single_unit (Sample.engine [1] [])
                  (with_options Sample.longFront CONTROL_KEY) 0 Sample.twoTanks 1
                  eq_refl eq_refl)
               (Sample.tank 0 []) eq_refl).
Defined.

Lemma wait_not_special (c : Command) :
  GetID c = CMD_WAIT ->
  isAreaAttack c = false /\ isFrontOrder c = false /\ isAltMove c = false
  /\ isLockedOrder c = false /\ MayRequireSetMaxSpeedCommand c = false.
Proof.
  intros Hid. unfold isAreaAttack, isFrontOrder, isAltMove, isLockedOrder,
    MayRequireSetMaxSpeedCommand. rewrite Hid. simpl.
  rewrite andb_false_r. repeat split; reflexivity.
Qed.

(** X3.  A wait order is never followed by a speed match.  With two or more
    selected ids every unit that resolves receives it and the local player's
    order is acknowledged once, also when no id resolves; with one selected
    id the order is acknowledged only if the unit resolves. *)
Theorem GiveCommandNet_wait (E : Engine) (c : Command) (player : Z) (st : State) :
  GetID c = CMD_WAIT ->
  let st' := GiveCommandNet E c player st in
  let selected := netSelected E player in
  let given := map (fun unitID => EvGive unitID c true) (filter (resolves st) selected) in
  let acknowledged := if player =? myPlayerNum E then [EvAcknowledge c] else [] in
  ((2 <= length selected)%nat -> issued st' = issued st ++ given ++ acknowledged)
  /\ (length selected = 1%nat ->
      issued st'
      = issued st ++ given
        ++ (match filter (resolves st) selected with
            | [] => []
            | _ :: _ => acknowledged
            end))
  /\ (selected = [] -> st' = st).
Proof.
  intros Hid st' selected given acknowledged.
  destruct (wait_not_special c Hid) as (Harea & Hfront & Halt & Hlocked & Hspeed).
  split; [ | split ].
  - intros Hlen. unfold st'.
    rewrite GiveCommandNet_reaches_broadcast.
    + rewrite issued_acknowledgeWait, broadcastOrder_loop, <- app_assoc.
      f_equal. f_equal.
      * unfold given, selected. rewrite <- flat_map_resolved.
        apply flat_map_ext. intros unitID. unfold broadcastEvents, resolves.
        destruct (units st unitID); [ | reflexivity ].
        rewrite Hspeed. reflexivity.
      * unfold acknowledgeEvents, acknowledged. rewrite Hid. reflexivity.
    + unfold reachesBroadcast. rewrite Harea, Hfront, Halt, Hlocked.
      unfold selected in Hlen. rewrite (proj2 (Nat.leb_le 2 _) Hlen). reflexivity.
  - intros Hlen. unfold given, acknowledged, selected, st' in *.
    destruct (netSelected E player) as [ | unitID [ | ] ] eqn:Hsel; try discriminate.
    rewrite (GiveCommandNet_one_unit E c player st unitID Hsel Harea).
    simpl. unfold resolves.
    destruct (units st unitID) as [ u | ] eqn:Hu.
    + rewrite issued_acknowledgeWait, Hspeed.
      rewrite (issued_GiveCommand _ _ _ _ _ _ Hu), <- app_assoc.
      unfold acknowledgeEvents. rewrite Hid. reflexivity.
    + symmetry. apply app_nil_r.
  - intros Hnil. unfold st', GiveCommandNet. cbv zeta.
    unfold selected in Hnil. rewrite Hnil. reflexivity.
Qed.

(** Two stale ids: the wait order reaches no unit and is acknowledged. *)
Lemma GiveCommandNet_wait_witness :
  GetID (mkCommand CMD_WAIT 0 []) = CMD_WAIT
  /\ issued (GiveCommandNet (Sample.engine [4; 5] []) (mkCommand CMD_WAIT 0 []) 0
                            Sample.twoTanks)
     = [EvAcknowledge (mkCommand CMD_WAIT 0 [])]
  /\ issued (GiveCommandNet (Sample.engine [4] []) (mkCommand CMD_WAIT 0 []) 0
                            Sample.twoTanks)
     = [].
Proof.
  split; [ reflexivity | ]. split.
  - exact (proj1 (GiveCommandNet_wait (Sample.engine [4; 5] []) (mkCommand CMD_WAIT 0 [])
                    0 Sample.twoTanks eq_refl)
                 (le_n 2)).
  - exact (proj1 (proj2 (GiveCommandNet_wait (Sample.engine [4] [])
                           (mkCommand CMD_WAIT 0 []) 0 Sample.twoTanks eq_refl))
                 eq_refl).
Defined.

(** ** The speed of the group *)

Lemma fmin_le_l (a b : float) : (fmin a b <= a)%Q.
Proof.
  unfold fmin. destruct (flt b a) eqn:H.
  - apply flt_true in H. apply Qlt_le_weak. exact H.
  - apply Qle_refl.
Qed.

Lemma fmin_le_r (a b : float) : (fmin a b <= b)%Q.
Proof.
  unfold fmin. destruct (flt b a) eqn:H.
  - apply Qle_refl.
  - apply flt_false in H. exact H.
Qed.

Lemma fmin_cases (a b : float) : fmin a b = a \/ fmin a b = b.
Proof. unfold fmin. destruct (flt b a); [ right | left ]; reflexivity. Qed.

Lemma accMinMaxSpeed_step (st : State) (queueing : bool) (acc : GroupAcc) (unitID : Z) :
  accMinMaxSpeed (CalculateGroupData_step st queueing acc unitID)
  = match units st unitID with
    | Some unit =>
        if canSetMaxSpeed unit then fmin (accMinMaxSpeed acc) (maxSpeed unit)
        else accMinMaxSpeed acc
    | None => accMinMaxSpeed acc
    end.
Proof.
  unfold CalculateGroupData_step. destruct (units st unitID) as [ unit | ];
    [ | reflexivity ].
  destruct (canSetMaxSpeed unit); reflexivity.
Qed.

Lemma accMinMaxSpeed_loop (st : State) (queueing : bool) (selected : list Z) :
  forall acc,
    let r := fold_left (CalculateGroupData_step st queueing) selected acc in
    (accMinMaxSpeed r <= accMinMaxSpeed acc)%Q
    /\ (forall unitID unit, In unitID selected -> units st unitID = Some unit ->
          canSetMaxSpeed unit = true -> (accMinMaxSpeed r <= maxSpeed unit)%Q)
    /\ (accMinMaxSpeed r = accMinMaxSpeed acc
        \/ exists unitID unit, In unitID selected /\ units st unitID = Some unit
             /\ canSetMaxSpeed unit = true /\ accMinMaxSpeed r = maxSpeed unit).
Proof.
  induction selected as [ | a rest IH ]; intros acc; cbv zeta; simpl.
  - split; [ apply Qle_refl | ]. split; [ intros ? ? [] | left; reflexivity ].
  - specialize (IH (CalculateGroupData_step st queueing acc a)). cbv zeta in IH.
    destruct IH as (Hle & Hall & Hsome).
    rewrite accMinMaxSpeed_step in Hle, Hsome.
    set (r := fold_left (CalculateGroupData_step st queueing) rest
                        (CalculateGroupData_step st queueing acc a)) in *.
    split; [ | split ].
    + eapply Qle_trans; [ exact Hle | ].
      destruct (units st a) as [ u | ]; [ | apply Qle_refl ].
      destruct (canSetMaxSpeed u); [ apply fmin_le_l | apply Qle_refl ].
    + intros unitID unit [ <- | Hin ] Hu Hmobile.
      * rewrite Hu, Hmobile in Hle.
        eapply Qle_trans; [ exact Hle | apply fmin_le_r ].
      * exact (Hall unitID unit Hin Hu Hmobile).
    + destruct Hsome as [ Heq | (unitID & unit & Hin & Hu & Hm & Heq) ].
      * destruct (units st a) as [ u | ] eqn:Hu; [ | left; exact Heq ].
        destruct (canSetMaxSpeed u) eqn:Hm; [ | left; exact Heq ].
        destruct (fmin_cases (accMinMaxSpeed acc) (maxSpeed u)) as [ Hc | Hc ];
          rewrite Hc in Heq; [ left; exact Heq | ].
        right. exists a, u. repeat split; try assumption. left. reflexivity.
      * right. exists unitID, unit. repeat split; try assumption. right. exact Hin.
Qed.

Lemma groupMinMaxSpeed_CalculateGroupData (E : Engine) (player : Z) (queueing : bool)
  (st : State) :
  groupMinMaxSpeed (CalculateGroupData E player queueing st)
  = accMinMaxSpeed (fold_left (CalculateGroupData_step st queueing)
                              (netSelected E player) GroupAcc_init).
Proof.
  unfold CalculateGroupData. cbv zeta.
  match goal with |- context [ if ?b then _ else _ ] => destruct b end; reflexivity.
Qed.

Lemma groupMinMaxSpeed_bound (E : Engine) (player : Z) (queueing : bool) (st : State)
  (unitID : Z) (unit : CUnit) :
  In unitID (netSelected E player) -> units st unitID = Some unit ->
  canSetMaxSpeed unit = true ->
  (groupMinMaxSpeed (CalculateGroupData E player queueing st) <= maxSpeed unit)%Q.
Proof.
  rewrite groupMinMaxSpeed_CalculateGroupData.
  apply (accMinMaxSpeed_loop st queueing (netSelected E player) GroupAcc_init).
Qed.

(** X4.  The speed of the group after [CalculateGroupData] is the least of
    the maximum speeds of the selected units that can set one: it is at
    most the speed of each of them and it is the speed of one of them, or
    1e9 when the selection holds no such unit. *)
Theorem CalculateGroupData_slowest (E : Engine) (player : Z) (queueing : bool)
  (st : State) :
  let st' := CalculateGroupData E player queueing st in
  (forall unitID unit,
     In unitID (netSelected E player) -> units st unitID = Some unit ->
     canSetMaxSpeed unit = true -> (groupMinMaxSpeed st' <= maxSpeed unit)%Q)
  /\ (groupMinMaxSpeed st' <= 1000000000)%Q
  /\ (groupMinMaxSpeed st' = 1000000000%Q
      \/ exists unitID unit,
           In unitID (netSelected E player) /\ units st unitID = Some unit
           /\ canSetMaxSpeed unit = true /\ groupMinMaxSpeed st' = maxSpeed unit)
  /\ ((forall unitID unit, In unitID (netSelected E player) ->
         units st unitID = Some unit -> canSetMaxSpeed unit = false) ->
      groupMinMaxSpeed st' = 1000000000%Q).
Proof.
  intros st'. unfold st'. rewrite groupMinMaxSpeed_CalculateGroupData.
  pose proof (accMinMaxSpeed_loop st queueing (netSelected E player) GroupAcc_init) as H.
  cbv zeta in H. destruct H as (Hle & Hall & Hsome).
  split; [ exact Hall | ]. split; [ exact Hle | ]. split; [ exact Hsome | ].
  intros Hnone. destruct Hsome as [ Heq | (unitID & unit & Hin & Hu & Hm & _) ];
    [ exact Heq | ].
  rewrite (Hnone unitID unit Hin Hu) in Hm. discriminate.
Qed.

(** ** Frames of the formation *)

Lemma sameGeometry_refl (st : State) : sameGeometry st st.
Proof. unfold sameGeometry. repeat split; reflexivity. Qed.

Lemma sameGeometry_trans (a b c : State) :
  sameGeometry a b -> sameGeometry b c -> sameGeometry a c.
Proof.
  unfold sameGeometry. intros H1 H2. split_hyps.
  repeat split; etransitivity; eassumption.
Qed.

Lemma sameGeometry_sameHandler (st st' : State) :
  sameHandler st st' -> sameGeometry st st'.
Proof.
  unfold sameHandler, sameGeometry. intros H. split_hyps. repeat split; assumption.
Qed.

Lemma sameGeometry_flushRow (E : Engine) (groups : list TGroupPair)
  (cmds : list (Z * Command)) (st : State) :
  sameGeometry st (flushRow E groups cmds st).
Proof.
  unfold flushRow. cbv zeta.
  match goal with
  | |- sameGeometry _ (fold_left _ ?l ?s) =>
      apply (sameGeometry_trans _ s);
        [ unfold sameGeometry; simpl; repeat split; reflexivity
        | apply (fold_left_rel sameGeometry (issueFrontCommand E) sameGeometry_refl
                   sameGeometry_trans) ]
  end.
  intros s a. apply sameGeometry_sameHandler, sameHandler_issueFrontCommand.
Qed.

Lemma sameGeometry_frontLoop (E : Engine) (c : Command) (sideDir : float3.t)
  (pairs : list (float * Z)) :
  forall groups cmds nextPos st,
    sameGeometry st (frontLoop E c sideDir pairs groups cmds nextPos st).
Proof.
  induction pairs as [ | p rest IH ]; intros groups cmds nextPos st;
    [ apply sameGeometry_refl | ].
  simpl.
  match goal with |- sameGeometry _ (if ?b then _ else _) => destruct b end.
  - apply IH.
  - eapply sameGeometry_trans; [ apply sameGeometry_flushRow | apply IH ].
Qed.

(** The formation leaves the data of the group as [CalculateGroupData] has
    computed it. *)
Lemma MakeFormationFrontOrder_group (E : Engine) (c : Command) (player : Z)
  (st : State) :
  let st' := MakeFormationFrontOrder E c player st in
  groupCenterCoor st' = groupCenterCoor st
  /\ groupSumLength st' = groupSumLength st
  /\ groupAvgLength st' = groupAvgLength st
  /\ groupMinMaxSpeed st' = groupMinMaxSpeed st
  /\ sameUnits st st'.
Proof.
  intros st'.
  destruct (ordersWithin_MakeFormationFrontOrder E c player st)
    as (evs & (_ & Hsame & _) & _).
  assert (H : groupCenterCoor st' = groupCenterCoor st
              /\ groupSumLength st' = groupSumLength st
              /\ groupAvgLength st' = groupAvgLength st
              /\ groupMinMaxSpeed st' = groupMinMaxSpeed st);
    [ | split_hyps; repeat split; assumption ].
  unfold st', MakeFormationFrontOrder. cbv zeta.
  match goal with |- context [ if ?b then _ else _ ] => destruct b end.
  - match goal with
    | |- context [ fold_left ?f ?l ?s ] =>
        pose proof (fold_left_rel sameGeometry f sameGeometry_refl sameGeometry_trans
                      (fun s0 a0 => sameGeometry_sameHandler _ _
                                      (proj2 (proj2 (giveIfResolved_loop E c false [a0] s0))))
                      l s) as Hg
    end.
    unfold sameGeometry in Hg. simpl in Hg. split_hyps.
    repeat split; symmetry; assumption.
  - match goal with
    | |- context [ frontLoop E c ?d ?p ?g ?m ?n ?s ] =>
        pose proof (sameGeometry_frontLoop E c d p g m n s) as Hg
    end.
    unfold sameGeometry in Hg.
    match type of Hg with context [ if ?b then _ else _ ] => destruct b end;
      simpl in Hg; split_hyps; repeat split; symmetry; assumption.
Qed.

(** ** The speed orders that follow a formation *)

Lemma issued_addSpeed (E : Engine) (groupSpeed : bool) (opts : Z) (st : State)
  (unitID : Z) :
  issued (addSpeed E groupSpeed opts st unitID)
  = issued st ++ formationSpeedEvents groupSpeed opts (groupMinMaxSpeed st) st unitID.
Proof.
  unfold addSpeed, formationSpeedEvents.
  destruct (units st unitID) as [ u | ] eqn:Hu; [ | symmetry; apply app_nil_r ].
  destruct groupSpeed.
  - unfold AddGroupSetMaxSpeedCommandNet. rewrite Hu.
    destruct (canSetMaxSpeed u); simpl; [ | symmetry; apply app_nil_r ].
    apply (issued_GiveCommand _ _ _ _ _ _ Hu).
  - rewrite (issued_AddUnitSetMaxSpeedCommandNet _ _ _ _ _ Hu). reflexivity.
Qed.

Lemma sameUnits_addSpeed (E : Engine) (groupSpeed : bool) (opts : Z) (st : State)
  (unitID : Z) :
  sameUnits st (addSpeed E groupSpeed opts st unitID).
Proof.
  unfold addSpeed. destruct (units st unitID); [ | apply sameUnits_refl ].
  destruct groupSpeed;
    [ apply sameUnits_AddGroupSetMaxSpeedCommandNet
    | apply sameUnits_AddUnitSetMaxSpeedCommandNet ].
Qed.

Lemma formationSpeedEvents_same (groupSpeed : bool) (opts : Z) (v : float)
  (st st' : State) (unitID : Z) :
  sameUnits st st' ->
  formationSpeedEvents groupSpeed opts v st' unitID
  = formationSpeedEvents groupSpeed opts v st unitID.
Proof.
  intros Hsame. unfold formationSpeedEvents.
  destruct (units st unitID) as [ u | ] eqn:Hu.
  - destruct (sameUnits_lookup _ _ _ _ Hsame Hu) as (u' & Hu' & _ & _ & _ & Hs & Hc).
    rewrite Hu', Hs, Hc. reflexivity.
  - pose proof (sameUnits_resolves _ _ unitID Hsame) as Hr. unfold resolves in Hr.
    rewrite Hu in Hr. destruct (units st' unitID); [ discriminate | reflexivity ].
Qed.

Lemma addSpeed_loop (E : Engine) (groupSpeed : bool) (opts : Z) (st0 : State)
  (l : list Z) :
  forall s, sameUnits st0 s ->
    issued (fold_left (addSpeed E groupSpeed opts) l s)
    = issued s ++ flat_map (formationSpeedEvents groupSpeed opts (groupMinMaxSpeed s) st0) l.
Proof.
  induction l as [ | a rest IH ]; intros s Hsame; simpl.
  - symmetry. apply app_nil_r.
  - rewrite IH.
    + rewrite issued_addSpeed, <- app_assoc.
      rewrite (formationSpeedEvents_same _ _ _ _ _ _ Hsame).
      pose proof (sameHandler_addSpeed E groupSpeed opts s a) as Hh.
      destruct Hh as (_ & _ & _ & Hv & _). rewrite <- Hv. reflexivity.
    + exact (sameUnits_trans _ _ _ Hsame (sameUnits_addSpeed E groupSpeed opts s a)).
Qed.

Lemma GiveCommandNet_formation (E : Engine) (c : Command) (player : Z) (st : State) :
  (2 <= length (netSelected E player))%nat ->
  isAreaAttack c = false ->
  isFrontOrder c || isAltMove c = true ->
  let st0 := CalculateGroupData E player (has_key (options c) SHIFT_KEY) st in
  GiveCommandNet E c player st
  = fold_left (addSpeed E (has_key (options c) CONTROL_KEY) (options c))
      (netSelected E player)
      (MakeFormationFrontOrder E
         (if isFrontOrder c then c else altFrontCommand E c player st0) player st0).
Proof.
  intros Hlen Harea Hkind st0. unfold GiveCommandNet. cbv zeta.
  destruct (Z.ltb_spec (Z.of_nat (length (netSelected E player))) 1) as [ H1 | H1 ];
    [ lia | ].
  rewrite Harea.
  destruct (Z.eqb_spec (Z.of_nat (length (netSelected E player))) 1) as [ H2 | H2 ];
    [ lia | ].
  destruct (isFrontOrder c); [ reflexivity | ].
  simpl in Hkind. rewrite Hkind. reflexivity.
Qed.

(** X5.  After a front order (a move or fight order with six parameters) or
    a move with ALT on two or more selected ids, the formation is built
    first; then every selected unit that resolves and can set a maximum
    speed receives one speed order, in the order of the selection: with
    CONTROL all of them carry the speed of the group's slowest such unit,
    without it each carries the unit's own maximum speed. *)
Theorem GiveCommandNet_formation_speed (E : Engine) (c : Command) (player : Z)
  (st : State) :
  (2 <= length (netSelected E player))%nat ->
  isAreaAttack c = false ->
  isFrontOrder c || isAltMove c = true ->
  let st0 := CalculateGroupData E player (has_key (options c) SHIFT_KEY) st in
  let front := if isFrontOrder c then c else altFrontCommand E c player st0 in
  let st1 := MakeFormationFrontOrder E front player st0 in
  let st' := GiveCommandNet E c player st in
  issued st'
  = issued st1
    ++ flat_map (formationSpeedEvents (has_key (options c) CONTROL_KEY) (options c)
                   (groupMinMaxSpeed st0) st)
                (netSelected E player)
  /\ (forall unitID unit,
        In unitID (netSelected E player) -> units st unitID = Some unit ->
        canSetMaxSpeed unit = true -> (groupMinMaxSpeed st0 <= maxSpeed unit)%Q)
  /\ (forall unitID unit, units st unitID = Some unit ->
        formationSpeedEvents (has_key (options c) CONTROL_KEY) (options c)
          (groupMinMaxSpeed st0) st unitID
        = if canSetMaxSpeed unit
          then [EvGive unitID
                  (Command1 CMD_SET_WANTED_MAX_SPEED (options c)
                     (if has_key (options c) CONTROL_KEY then groupMinMaxSpeed st0
                      else maxSpeed unit)) true]
          else []).
Proof.
  intros Hlen Harea Hkind st0 front st1 st'.
  split; [ | split ].
  - unfold st'. rewrite (GiveCommandNet_formation E c player st Hlen Harea Hkind).
    fold st0. fold front. fold st1.
    assert (Hsame : sameUnits st st1).
    { eapply sameUnits_trans;
        [ | apply (MakeFormationFrontOrder_group E front player st0) ].
      intros j. unfold st0, CalculateGroupData. cbv zeta.
      match goal with |- context [ if ?b then _ else _ ] => destruct b end; reflexivity. }
    rewrite (addSpeed_loop E _ _ st (netSelected E player) st1 Hsame).
    destruct (MakeFormationFrontOrder_group E front player st0) as (_ & _ & _ & Hv & _).
    fold st1 in Hv. rewrite Hv. reflexivity.
  - apply groupMinMaxSpeed_bound.
  - intros unitID unit Hu. unfold formationSpeedEvents. rewrite Hu. reflexivity.
Qed.

(** Three tanks, a front order with CONTROL: after the formation every tank
    is told the speed of the slowest one. *)
Lemma GiveCommandNet_formation_speed_witness :
  (2 <= length (netSelected Sample.frontEngine 0))%nat
  /\ isAreaAttack (with_options Sample.longFront CONTROL_KEY) = false
  /\ isFrontOrder (with_options Sample.longFront CONTROL_KEY)
     || isAltMove (with_options Sample.longFront CONTROL_KEY) = true
  /\ issued (GiveCommandNet Sample.frontEngine
               (with_options Sample.longFront CONTROL_KEY) 0 Sample.threeTanks)
     = issued (MakeFormationFrontOrder Sample.frontEngine
                 (with_options Sample.longFront CONTROL_KEY) 0
                 (CalculateGroupData Sample.frontEngine 0 false Sample.threeTanks))
       ++ flat_map (formationSpeedEvents true CONTROL_KEY
                      (groupMinMaxSpeed
                         (CalculateGroupData Sample.frontEngine 0 false
                                             Sample.threeTanks))
                      Sample.threeTanks)
                   (netSelected Sample.frontEngine 0).
Proof.
  assert (Hlen : (2 <= length (netSelected Sample.frontEngine 0))%nat)
    by (simpl; lia).
  split; [ exact Hlen | ]. split; [ reflexivity | ]. split; [ reflexivity | ].
  exact (proj1 (GiveCommandNet_formation_speed Sample.frontEngine
                  (with_options Sample.longFront CONTROL_KEY) 0 Sample.threeTanks
                  Hlen eq_refl eq_refl)).
Defined.

Lemma GiveCommandNet_formation_speed_sample :
  flat_map (formationSpeedEvents true CONTROL_KEY
              (groupMinMaxSpeed
                 (CalculateGroupData Sample.frontEngine 0 false Sample.threeTanks))
              Sample.threeTanks)
           (netSelected Sample.frontEngine 0)
  = [EvGive 1 (Command1 CMD_SET_WANTED_MAX_SPEED CONTROL_KEY 1%Q) true;
     EvGive 2 (Command1 CMD_SET_WANTED_MAX_SPEED CONTROL_KEY 1%Q) true;
     EvGive 3 (Command1 CMD_SET_WANTED_MAX_SPEED CONTROL_KEY 1%Q) true].
Proof. vm_compute. reflexivity. Qed.

(** ** The front line of a move with ALT *)



(** ** The locked group keeps its shape *)








Lemma GiveCommandNet_locked_sample :
  map (fun e => match e with
                | EvGive unitID d _ => (unitID, cmdID d, map Qred (params d))
                | EvAcknowledge d => (0, cmdID d, [])
                end)
      (issued (GiveCommandNet (Sample.engine [1; 2] [])
                 (mkCommand CMD_MOVE CONTROL_KEY [50%Q; 0%Q; 0%Q]) 0 Sample.twoTanks))
  = [(1, CMD_MOVE, [45%Q; 0%Q; 0%Q]); (1, CMD_SET_WANTED_MAX_SPEED, [2%Q]);
     (2, CMD_MOVE, [55%Q; 0%Q; 0%Q]); (2, CMD_SET_WANTED_MAX_SPEED, [2%Q])].
Proof. vm_compute. reflexivity. Qed.

(** ** The candidates of an area attack are visible units of another alliance *)

Lemma testbit_three (n : Z) : 2 <= n -> Z.testbit 3 n = false.
Proof.
  intros Hn. apply Z.bits_above_log2; [ lia | ].
  change (Z.log2 3) with 1. lia.
Qed.

Lemma has_key_los (s : Z) :
  has_key s (Z.lor LOS_INLOS LOS_INRADAR) = true
  <-> Z.testbit s 0 = true \/ Z.testbit s 1 = true.
Proof.
  unfold has_key. change (Z.lor LOS_INLOS LOS_INRADAR) with 3.
  rewrite negb_true_iff, Z.eqb_neq. split.
  - intros Hne.
    destruct (Z.testbit s 0) eqn:H0; [ left; reflexivity | ].
    destruct (Z.testbit s 1) eqn:H1; [ right; reflexivity | ].
    exfalso. apply Hne. apply Z.bits_inj'. intros n Hn.
    rewrite Z.land_spec, Z.bits_0.
    destruct (Z.eq_dec n 0) as [ -> | Hn0 ]; [ rewrite H0; reflexivity | ].
    destruct (Z.eq_dec n 1) as [ -> | Hn1 ]; [ rewrite H1; reflexivity | ].
    rewrite testbit_three by lia. apply andb_false_r.
  - intros [ H | H ] Hz.
    + assert (Hb : Z.testbit (Z.land s 3) 0 = true)
        by (rewrite Z.land_spec, H; reflexivity).
      rewrite Hz in Hb. discriminate.
    + assert (Hb : Z.testbit (Z.land s 3) 1 = true)
        by (rewrite Z.land_spec, H; reflexivity).
      rewrite Hz in Hb. discriminate.
Qed.

Lemma visibleEnemy_attackable (allyTeam : Z) (unit : CUnit) :
  visibleEnemy allyTeam unit = true <-> attackable allyTeam unit.
Proof.
  unfold visibleEnemy, attackable.
  destruct (Z.eqb_spec (allyteam unit) allyTeam) as [ Heq | Hne ].
  - split; [ discriminate | intros (Hne & _); contradiction ].
  - rewrite has_key_los. tauto.
Qed.

Lemma SelectCircleUnits_loop_filter (st : State) (pos : float3.t) (radiusSqr : float)
  (allyTeam : Z) (found : list Z) :
  SelectCircleUnits_loop st pos radiusSqr allyTeam found
  = filter (fun unitID =>
              match units st unitID with
              | None => false
              | Some unit =>
                  visibleEnemy allyTeam unit
                  && negb (flt radiusSqr (groundDistanceSqr pos (midPos unit)))
              end) found.
Proof.
  induction found as [ | unitID rest IH ]; [ reflexivity | ].
  simpl. rewrite <- IH. destruct (units st unitID) as [ unit | ]; [ | reflexivity ].
  destruct (visibleEnemy allyTeam unit); simpl; [ | reflexivity ].
  unfold groundDistanceSqr.
  destruct (flt radiusSqr _); reflexivity.
Qed.

Lemma SelectRectangleUnits_loop_filter (st : State) (allyTeam : Z) (found : list Z) :
  SelectRectangleUnits_loop st allyTeam found
  = filter (fun unitID =>
              match units st unitID with
              | None => false
              | Some unit => visibleEnemy allyTeam unit
              end) found.
Proof.
  induction found as [ | unitID rest IH ]; [ reflexivity | ].
  simpl. rewrite <- IH. destruct (units st unitID) as [ unit | ]; [ | reflexivity ].
  destruct (visibleEnemy allyTeam unit); reflexivity.
Qed.

(** X8.  [SelectCircleUnits] returns nothing for an invalid player or one
    without a team.  Otherwise it returns, in the order of the quad field's
    answer, exactly the units found that resolve, belong to another alliance
    than the player's, are in line of sight or on radar of the player's
    alliance, and whose ground distance to the center is at most the radius
    (a unit exactly on the circle is returned). *)
Theorem SelectCircleUnits_targets (E : Engine) (st : State) (pos : float3.t)
  (radius : float) (player : Z) :
  let result := SelectCircleUnits E st pos radius player in
  let found := GetUnitsExactCircle E pos radius in
  (IsValidPlayer E player = false \/ PlayerTeam E player = None -> result = [])
  /\ (exists keep, result = filter keep found)
  /\ (forall team,
        IsValidPlayer E player = true -> PlayerTeam E player = Some team ->
        forall unitID,
          In unitID result
          <-> In unitID found
              /\ exists unit, units st unitID = Some unit
                   /\ attackable (AllyTeam E team) unit
                   /\ (groundDistanceSqr pos (midPos unit) <= radius * radius)%Q).
Proof.
  intros result found. unfold result, found, SelectCircleUnits.
  split; [ | split ].
  - intros [ Hinv | Hteam ].
    + rewrite Hinv. reflexivity.
    + rewrite Hteam. destruct (negb (IsValidPlayer E player)); reflexivity.
  - destruct (negb (IsValidPlayer E player));
      [ exists (fun _ => false); induction (GetUnitsExactCircle E pos radius);
          [ reflexivity | assumption ] | ].
    destruct (PlayerTeam E player) as [ team | ].
    + eexists. apply SelectCircleUnits_loop_filter.
    + exists (fun _ => false). induction (GetUnitsExactCircle E pos radius);
        [ reflexivity | assumption ].
  - intros team Hvalid Hteam unitID. rewrite Hvalid, Hteam. simpl.
    rewrite SelectCircleUnits_loop_filter, filter_In.
    split.
    + intros (Hin & Hkeep). split; [ exact Hin | ].
      destruct (units st unitID) as [ unit | ]; [ | discriminate ].
      apply andb_true_iff in Hkeep. destruct Hkeep as (Hvis & Hdist).
      exists unit. split; [ reflexivity | ].
      split; [ apply visibleEnemy_attackable; exact Hvis | ].
      apply negb_true_iff in Hdist. apply flt_false in Hdist. exact Hdist.
    + intros (Hin & unit & Hu & Hvis & Hdist). split; [ exact Hin | ].
      rewrite Hu. apply andb_true_iff. split.
      * apply visibleEnemy_attackable. exact Hvis.
      * apply negb_true_iff. apply flt_false. exact Hdist.
Qed.

(** The tank 1 is of the player's alliance and the id 4 does not resolve:
    of the units found, only the one of the other alliance is returned. *)
Lemma SelectCircleUnits_targets_witness :
  IsValidPlayer (Sample.engine [1] [1; 4; 7]) 0 = true
  /\ PlayerTeam (Sample.engine [1] [1; 4; 7]) 0 = Some 0
  /\ (In 7 (SelectCircleUnits (Sample.engine [1] [1; 4; 7]) Sample.tanksAndEnemy
              ZeroVector 10%Q 0)
      <-> In 7 (GetUnitsExactCircle (Sample.engine [1] [1; 4; 7]) ZeroVector 10%Q)
          /\ exists unit, units Sample.tanksAndEnemy 7 = Some unit
               /\ attackable (AllyTeam (Sample.engine [1] [1; 4; 7]) 0) unit
               /\ (groundDistanceSqr ZeroVector (midPos unit) <= 10 * 10)%Q).
Proof.
  split; [ reflexivity | ]. split; [ reflexivity | ].
  exact (proj2 (proj2 (SelectCircleUnits_targets (Sample.engine [1] [1; 4; 7])
                         Sample.tanksAndEnemy ZeroVector 10%Q 0))
               0 eq_refl eq_refl 7).
Defined.

Lemma SelectCircleUnits_sample :
  SelectCircleUnits (Sample.engine [1] [1; 4; 7]) Sample.tanksAndEnemy ZeroVector 10%Q 0
  = [7]
  /\ SelectCircleUnits (Sample.engine [1] [1; 4; 7]) Sample.tanksAndEnemy ZeroVector 3%Q 0
     = [7]
  /\ SelectCircleUnits (Sample.engine [1] [1; 4; 7]) Sample.tanksAndEnemy ZeroVector
                       (29 # 10) 0
     = [].
Proof. repeat split. Qed.

Lemma fmin_le_fmax (a b : float) : (fmin a b <= fmax a b)%Q.
Proof.
  unfold fmin, fmax.
  destruct (flt b a) eqn:Hba; destruct (flt a b) eqn:Hab;
    try apply Qle_refl.
  - apply flt_true in Hba. apply Qlt_le_weak. exact Hba.
  - apply flt_true in Hab. apply Qlt_le_weak. exact Hab.
Qed.

(** X9.  [SelectRectangleUnits] returns nothing for an invalid player or one
    without a team.  Otherwise it asks the quad field for the box spanned by
    the two corners, whichever way they were dragged (the lower corner of
    the query is below the upper one on both ground axes), and returns, in
    the order of the answer, exactly the units found that resolve, belong to
    another alliance and are in line of sight or on radar; it tests no
    position itself. *)
Theorem SelectRectangleUnits_targets (E : Engine) (st : State) (pos0 pos1 : float3.t)
  (player : Z) :
  let result := SelectRectangleUnits E st pos0 pos1 player in
  let mins := float3.mk (fmin (float3.x pos0) (float3.x pos1)) 0%Q
                        (fmin (float3.z pos0) (float3.z pos1)) in
  let maxs := float3.mk (fmax (float3.x pos0) (float3.x pos1)) 0%Q
                        (fmax (float3.z pos0) (float3.z pos1)) in
  let found := GetUnitsExactRect E mins maxs in
  (IsValidPlayer E player = false \/ PlayerTeam E player = None -> result = [])
  /\ (float3.x mins <= float3.x maxs)%Q /\ (float3.z mins <= float3.z maxs)%Q
  /\ (exists keep, result = filter keep found)
  /\ (forall team,
        IsValidPlayer E player = true -> PlayerTeam E player = Some team ->
        forall unitID,
          In unitID result
          <-> In unitID found
              /\ exists unit, units st unitID = Some unit
                   /\ attackable (AllyTeam E team) unit).
Proof.
  intros result mins maxs found. unfold result, found, SelectRectangleUnits.
  split; [ | split; [ | split; [ | split ] ] ].
  - intros [ Hinv | Hteam ].
    + rewrite Hinv. reflexivity.
    + rewrite Hteam. destruct (negb (IsValidPlayer E player)); reflexivity.
  - apply fmin_le_fmax.
  - apply fmin_le_fmax.
  - destruct (negb (IsValidPlayer E player));
      [ exists (fun _ => false); induction (GetUnitsExactRect E mins maxs);
          [ reflexivity | assumption ] | ].
    destruct (PlayerTeam E player) as [ team | ].
    + eexists. apply SelectRectangleUnits_loop_filter.
    + exists (fun _ => false). induction (GetUnitsExactRect E mins maxs);
        [ reflexivity | assumption ].
  - intros team Hvalid Hteam unitID. rewrite Hvalid, Hteam. simpl.
    rewrite SelectRectangleUnits_loop_filter, filter_In.
    split.
    + intros (Hin & Hkeep). split; [ exact Hin | ].
      destruct (units st unitID) as [ unit | ]; [ | discriminate ].
      exists unit. split; [ reflexivity | ].
      apply visibleEnemy_attackable. exact Hkeep.
    + intros (Hin & unit & Hu & Hvis). split; [ exact Hin | ].
      rewrite Hu. apply visibleEnemy_attackable. exact Hvis.
Qed.

Lemma SelectRectangleUnits_targets_witness :
  IsValidPlayer (Sample.engine [1] [1; 4; 7]) 0 = true
  /\ PlayerTeam (Sample.engine [1] [1; 4; 7]) 0 = Some 0
  /\ (In 7 (SelectRectangleUnits (Sample.engine [1] [1; 4; 7]) Sample.tanksAndEnemy
              (Sample.onAxis 5) (Sample.onAxis 0) 0)
      <-> In 7 (GetUnitsExactRect (Sample.engine [1] [1; 4; 7])
                  (float3.mk (fmin 5 0) 0 (fmin 0 0))%Q
                  (float3.mk (fmax 5 0) 0 (fmax 0 0))%Q)
          /\ exists unit, units Sample.tanksAndEnemy 7 = Some unit
               /\ attackable (AllyTeam (Sample.engine [1] [1; 4; 7]) 0) unit).
Proof.
  split; [ reflexivity | ]. split; [ reflexivity | ].
  exact (proj2 (proj2 (proj2 (proj2
           (SelectRectangleUnits_targets (Sample.engine [1] [1; 4; 7])
              Sample.tanksAndEnemy (Sample.onAxis 5) (Sample.onAxis 0) 0))))
               0 eq_refl eq_refl 7).
Defined.

(** ** LastQueuePosition *)

Lemma find_skip {A : Type} (p : A -> bool) (l1 l2 : list A) :
  (forall a, In a l1 -> p a = false) -> find p (l1 ++ l2) = find p l2.
Proof.
  induction l1 as [ | a rest IH ]; intros Hnone; [ reflexivity | ].
  simpl. rewrite (Hnone a (or_introl eq_refl)). apply IH.
  intros b Hb. apply Hnone. right. exact Hb.
Qed.

(** X10.  [LastQueuePosition] is the position of the last command in the
    unit's queue that has three parameters or more, whatever commands with
    fewer parameters follow it; when the queue is empty or holds no such
    command, it is the unit's own position. *)
Theorem LastQueuePosition_last_positional (unit : CUnit) :
  (forall before cmd after,
     commandQue unit = before ++ cmd :: after ->
     (3 <= length (params cmd))%nat ->
     (forall later, In later after -> (length (params later) < 3)%nat) ->
     LastQueuePosition unit = GetPos cmd 0)
  /\ ((forall cmd, In cmd (commandQue unit) -> (length (params cmd) < 3)%nat) ->
      LastQueuePosition unit = midPos unit)
  /\ (commandQue unit = [] -> LastQueuePosition unit = midPos unit).
Proof.
  assert (Hnone : (forall cmd, In cmd (commandQue unit) ->
                               (length (params cmd) < 3)%nat) ->
                  LastQueuePosition unit = midPos unit).
  { intros Hshort. unfold LastQueuePosition.
    rewrite <- (app_nil_r (rev (commandQue unit))), find_skip; [ reflexivity | ].
    intros a Ha. apply in_rev in Ha. apply Nat.leb_gt. apply Hshort. exact Ha. }
  split; [ | split ].
  - intros before cmd after Hq Hcmd Hafter. unfold LastQueuePosition.
    rewrite Hq, rev_app_distr. cbn [rev]. rewrite <- app_assoc, find_skip.
    + cbn [app find]. rewrite (proj2 (Nat.leb_le _ _) Hcmd). reflexivity.
    + intros a Ha. apply in_rev in Ha. apply Nat.leb_gt. apply Hafter. exact Ha.
  - exact Hnone.
  - intros Hempty. apply Hnone. rewrite Hempty. intros cmd [].
Qed.

(** A move to 5 is queued before a stop order: the move is the last
    positional command. *)
Lemma LastQueuePosition_last_positional_witness :
  commandQue (Sample.tank 0 [mkCommand CMD_MOVE 0 [5%Q; 0%Q; 5%Q]; mkCommand CMD_STOP 0 []])
  = [] ++ mkCommand CMD_MOVE 0 [5%Q; 0%Q; 5%Q] :: [mkCommand CMD_STOP 0 []]
  /\ LastQueuePosition
       (Sample.tank 0 [mkCommand CMD_MOVE 0 [5%Q; 0%Q; 5%Q]; mkCommand CMD_STOP 0 []])
     = GetPos (mkCommand CMD_MOVE 0 [5%Q; 0%Q; 5%Q]) 0.
Proof.
  split; [ reflexivity | ].
  apply (proj1 (LastQueuePosition_last_positional
                  (Sample.tank 0 [mkCommand CMD_MOVE 0 [5%Q; 0%Q; 5%Q];
                                  mkCommand CMD_STOP 0 []]))
               [] (mkCommand CMD_MOVE 0 [5%Q; 0%Q; 5%Q]) [mkCommand CMD_STOP 0 []]
               eq_refl).
  - simpl. lia.
  - intros later [ <- | [] ]. simpl. lia.
Defined.

(** ** The orders of an area attack *)

Lemma areaAttackRun_refl (selected targets : list Z) (queued : bool) (st : State) :
  areaAttackRun selected targets queued st st.
Proof.
  exists []. split; [ symmetry; apply app_nil_r | ].
  split; [ constructor | intros _; constructor ].
Qed.

Lemma areaAttackRun_trans (selected targets : list Z) (queued : bool) (a b c : State) :
  areaAttackRun selected targets queued a b ->
  areaAttackRun selected targets queued b c ->
  areaAttackRun selected targets queued a c.
Proof.
  intros (evs1 & Hi1 & Ha1 & Hq1) (evs2 & Hi2 & Ha2 & Hq2).
  exists (evs1 ++ evs2).
  split; [ rewrite Hi2, Hi1, app_assoc; reflexivity | ].
  split; [ apply Forall_app; split; assumption | ].
  intros Hq. apply Forall_app. split; [ apply Hq1 | apply Hq2 ]; exact Hq.
Qed.

Lemma areaAttackRun_quiet (selected targets : list Z) (queued : bool) (st st' : State) :
  issued st' = issued st -> areaAttackRun selected targets queued st st'.
Proof.
  intros Hi. exists []. split; [ rewrite Hi; symmetry; apply app_nil_r | ].
  split; [ constructor | intros _; constructor ].
Qed.

Lemma areaAttackRun_GiveCommand (selected targets : list Z) (queued : bool) (E : Engine)
  (unitID : Z) (d : Command) (st : State) :
  In unitID selected ->
  (exists target, In target targets /\ d = attackOn (options d) target)
  \/ (exists v, d = Command1 CMD_SET_WANTED_MAX_SPEED (options d) v) ->
  (queued = true -> has_key (options d) SHIFT_KEY = true) ->
  areaAttackRun selected targets queued st (GiveCommand E unitID d true st).
Proof.
  intros Hin Hkind Hq.
  destruct (units st unitID) as [ u | ] eqn:Hu.
  - exists [EvGive unitID d true].
    split; [ apply (issued_GiveCommand _ _ _ _ _ _ Hu) | ].
    split.
    + constructor; [ | constructor ]. exists unitID, d. repeat split; assumption.
    + intros Hqt. constructor; [ exact (Hq Hqt) | constructor ].
  - unfold GiveCommand. rewrite Hu. apply areaAttackRun_refl.
Qed.

Lemma areaAttackRun_speed (selected targets : list Z) (queued : bool) (E : Engine)
  (unitID : Z) (opts : Z) (st : State) :
  In unitID selected ->
  (queued = true -> has_key opts SHIFT_KEY = true) ->
  areaAttackRun selected targets queued st
                (AddUnitSetMaxSpeedCommandNet E unitID opts st).
Proof.
  intros Hin Hq. unfold AddUnitSetMaxSpeedCommandNet.
  destruct (units st unitID) as [ u | ]; [ | apply areaAttackRun_refl ].
  destruct (negb (canSetMaxSpeed u)); [ apply areaAttackRun_refl | ].
  apply areaAttackRun_GiveCommand; [ exact Hin | | exact Hq ].
  right. eexists. reflexivity.
Qed.

(** The shared attack command stays an attack with one parameter, and with
    the queueing modifier it stays queued. *)
Lemma attackTarget_run (selected targets : list Z) (E : Engine) (queueing : bool)
  (unitID : Z) (acc : Command * State) (t : float * Z) :
  In unitID selected -> In (snd t) targets ->
  cmdID (fst acc) = CMD_ATTACK -> length (params (fst acc)) = 1%nat ->
  (queueing = true -> has_key (options (fst acc)) SHIFT_KEY = true) ->
  let r := attackTarget E queueing unitID acc t in
  cmdID (fst r) = CMD_ATTACK /\ length (params (fst r)) = 1%nat
  /\ (queueing = true -> has_key (options (fst r)) SHIFT_KEY = true)
  /\ areaAttackRun selected targets queueing (snd acc) (snd r).
Proof.
  intros Hin Ht Hid Hlen Hq. destruct acc as [ a s ]. simpl in Hid, Hlen, Hq.
  cbv zeta. unfold attackTarget. simpl fst. simpl snd.
  rewrite (param_set_attack a (snd t) Hid Hlen).
  destruct (queueing && WillCancelQueued E s unitID (attackOn (options a) (snd t)));
    simpl.
  - repeat split; try assumption. apply areaAttackRun_refl.
  - split; [ reflexivity | ]. split; [ reflexivity | ].
    split; [ intros _; apply has_key_set_key; discriminate | ].
    eapply areaAttackRun_trans; [ | apply areaAttackRun_speed; assumption ].
    apply areaAttackRun_GiveCommand; [ exact Hin | | exact Hq ].
    left. exists (snd t). split; [ exact Ht | reflexivity ].
Qed.

Lemma attackTarget_run_loop (selected targets : list Z) (E : Engine) (queueing : bool)
  (unitID : Z) (ranked : list (float * Z)) :
  In unitID selected -> (forall t, In t ranked -> In (snd t) targets) ->
  forall acc,
    cmdID (fst acc) = CMD_ATTACK -> length (params (fst acc)) = 1%nat ->
    (queueing = true -> has_key (options (fst acc)) SHIFT_KEY = true) ->
    let r := fold_left (attackTarget E queueing unitID) ranked acc in
    cmdID (fst r) = CMD_ATTACK /\ length (params (fst r)) = 1%nat
    /\ (queueing = true -> has_key (options (fst r)) SHIFT_KEY = true)
    /\ areaAttackRun selected targets queueing (snd acc) (snd r).
Proof.
  intros Hin. induction ranked as [ | t rest IH ]; intros Hts acc Hid Hlen Hq;
    cbv zeta; simpl.
  - repeat split; try assumption. apply areaAttackRun_refl.
  - pose proof (attackTarget_run selected targets E queueing unitID acc t Hin
                  (Hts t (or_introl eq_refl)) Hid Hlen Hq) as Hstep.
    cbv zeta in Hstep. destruct Hstep as (Hid' & Hlen' & Hq' & Hrun).
    assert (Hts' : forall t', In t' rest -> In (snd t') targets).
    { intros t' Ht'. apply Hts. right. exact Ht'. }
    pose proof (IH Hts' _ Hid' Hlen' Hq') as Hrest. cbv zeta in Hrest.
    destruct Hrest as (Hid2 & Hlen2 & Hq2 & Hrun2).
    repeat split; try assumption.
    exact (areaAttackRun_trans _ _ _ _ _ _ Hrun Hrun2).
Qed.

Lemma attackUnit_run_loop (targets : list Z) (E : Engine) (queueing : bool)
  (ranked : list (float * Z)) (selected : list Z) :
  (forall t, In t ranked -> In (snd t) targets) ->
  forall (l : list Z) acc,
    incl l selected ->
    cmdID (fst acc) = CMD_ATTACK -> length (params (fst acc)) = 1%nat ->
    (queueing = true -> has_key (options (fst acc)) SHIFT_KEY = true) ->
    areaAttackRun selected targets queueing (snd acc)
                  (snd (fold_left (attackUnit E queueing ranked) l acc)).
Proof.
  intros Hts. induction l as [ | unitID rest IH ]; intros acc Hincl Hid Hlen Hq; simpl.
  - apply areaAttackRun_refl.
  - assert (Hin : In unitID selected) by (apply Hincl; left; reflexivity).
    assert (Hincl' : incl rest selected).
    { intros j Hj. apply Hincl. right. exact Hj. }
    set (a0 := if negb queueing
               then with_options (fst acc) (clear_key (options (fst acc)) SHIFT_KEY)
               else fst acc).
    assert (Ha0 : cmdID a0 = CMD_ATTACK /\ length (params a0) = 1%nat
                  /\ (queueing = true -> has_key (options a0) SHIFT_KEY = true)).
    { unfold a0. destruct queueing; simpl; repeat split; try assumption.
      discriminate. }
    destruct Ha0 as (Hid0 & Hlen0 & Hq0).
    unfold attackUnit at 2. fold a0.
    destruct (units (snd acc) unitID).
    + pose proof (attackTarget_run_loop selected targets E queueing unitID ranked Hin Hts
                    (a0, snd acc) Hid0 Hlen0 Hq0) as Hstep.
      cbv zeta in Hstep. destruct Hstep as (Hid1 & Hlen1 & Hq1 & Hrun1).
      eapply areaAttackRun_trans; [ exact Hrun1 | ].
      apply IH; assumption.
    + apply (IH (a0, snd acc)); assumption.
Qed.

Lemma rankTargets_targets (st : State) (midPos0 : float3.t) (targets : list Z)
  (t : float * Z) :
  In t (rankTargets st midPos0 targets) -> In (snd t) targets.
Proof.
  intros Hin. unfold rankTargets in Hin.
  apply (Permutation_in _ (stable_sort_perm idPairComp _)) in Hin.
  apply in_map_iff in Hin. destruct Hin as (target & <- & Hin).
  unfold targetDistance. destruct (units st target); exact Hin.
Qed.

Lemma areaTargets_attackable (E : Engine) (cmd : Command) (player : Z) (st : State)
  (target : Z) :
  In target (areaTargets E cmd player st) ->
  exists team unit,
    IsValidPlayer E player = true /\ PlayerTeam E player = Some team
    /\ units st target = Some unit /\ attackable (AllyTeam E team) unit.
Proof.
  unfold areaTargets, SelectCircleUnits, SelectRectangleUnits.
  destruct (IsValidPlayer E player);
    [ | destruct (length (params cmd) =? 4)%nat; intros [] ].
  destruct (PlayerTeam E player) as [ team | ];
    [ | destruct (length (params cmd) =? 4)%nat; intros [] ].
  simpl. intros Hin. exists team.
  destruct (length (params cmd) =? 4)%nat.
  - rewrite SelectCircleUnits_loop_filter in Hin. apply filter_In in Hin.
    destruct Hin as (_ & Hkeep).
    destruct (units st target) as [ unit | ]; [ | discriminate ].
    exists unit. repeat split.
    + apply andb_true_iff in Hkeep.
      apply (proj1 (visibleEnemy_attackable _ _) (proj1 Hkeep)).
    + apply andb_true_iff in Hkeep.
      apply (proj1 (visibleEnemy_attackable _ _) (proj1 Hkeep)).
  - rewrite SelectRectangleUnits_loop_filter in Hin. apply filter_In in Hin.
    destruct Hin as (_ & Hkeep).
    destruct (units st target) as [ unit | ]; [ | discriminate ].
    exists unit. repeat split; apply (proj1 (visibleEnemy_attackable _ _) Hkeep).
Qed.

(** X11.  Whatever its modifiers, an area attack gives two kinds of orders
    only, and only to selected units: an attack on one candidate target, and
    the speed order.  Every candidate resolves, belongs to another alliance
    than the player's and is in line of sight or on radar of the player's
    alliance, so no unit of the own alliance and no unseen unit is ever
    attacked.  With the queueing modifier or with CONTROL every order given
    is a queued one. *)
Theorem SelectAttackNet_orders (E : Engine) (cmd : Command) (player : Z) (st : State) :
  let targets := areaTargets E cmd player st in
  let st' := SelectAttackNet E cmd player st in
  exists evs,
    issued st' = issued st ++ evs
    /\ Forall (fun e =>
                 exists unitID d,
                   e = EvGive unitID d true /\ In unitID (netSelected E player)
                   /\ ((exists target, In target targets
                                       /\ d = attackOn (options d) target)
                       \/ (exists v, d = Command1 CMD_SET_WANTED_MAX_SPEED (options d) v)))
              evs
    /\ (has_key (options cmd) SHIFT_KEY = true
        \/ has_key (options cmd) CONTROL_KEY = true ->
        Forall (fun e => match e with
                         | EvGive _ d _ => has_key (options d) SHIFT_KEY = true
                         | EvAcknowledge _ => True
                         end) evs)
    /\ (forall target, In target targets ->
          exists team unit,
            IsValidPlayer E player = true /\ PlayerTeam E player = Some team
            /\ units st target = Some unit /\ attackable (AllyTeam E team) unit).
Proof.
  intros targets st'.
  assert (H : areaAttackRun (netSelected E player) targets
                (has_key (options cmd) SHIFT_KEY || has_key (options cmd) CONTROL_KEY)
                st st').
  { unfold st', SelectAttackNet. fold targets.
    destruct targets as [ | t ts ] eqn:Htargets; [ apply areaAttackRun_refl | ].
    destruct (netSelected E player) as [ | unitID rest ] eqn:Hsel;
      [ apply areaAttackRun_refl | ].
    rewrite <- Hsel. rewrite <- Htargets.
    destruct (has_key (options cmd) CONTROL_KEY) eqn:Hctrl.
    - destruct (cancelUnit_loop E (options cmd) (netSelected E player) targets
                  (netSelected E player) st (incl_refl _)) as (evs & Hrun).
      exists evs. split; [ apply (cancelRun_issued _ _ _ _ _ _ _ Hrun) | ].
      pose proof (cancelRun_orders _ _ _ _ _ _ _ Hrun) as Horders.
      split.
      + eapply Forall_impl; [ | exact Horders ].
        intros e (unitID' & target & -> & Hin & Ht).
        exists unitID', (attackOn (set_key (options cmd) SHIFT_KEY) target).
        split; [ reflexivity | ]. split; [ exact Hin | ].
        left. exists target. split; [ exact Ht | reflexivity ].
      + intros _. eapply Forall_impl; [ | exact Horders ].
        intros e (unitID' & target & -> & _). simpl.
        apply has_key_set_key. discriminate.
    - rewrite orb_false_r.
      match goal with |- context [ if ?b then _ else _ ] => destruct b end;
        [ apply areaAttackRun_refl | ].
      match goal with
      | |- areaAttackRun _ _ _ _ (snd (fold_left ?f ?l (?a0, ?s))) =>
          apply (areaAttackRun_trans _ _ _ _ s);
            [ apply areaAttackRun_quiet; reflexivity
            | apply (attackUnit_run_loop targets E _ _ (netSelected E player)
                       (fun t0 => rankTargets_targets _ _ _ t0) l (a0, s)
                       (incl_refl _) eq_refl eq_refl) ]
      end.
      simpl. trivial. }
  destruct H as (evs & Hi & Hall & Hq).
  exists evs. split; [ exact Hi | ]. split; [ exact Hall | ].
  split.
  - intros Hmod. apply Hq. destruct Hmod as [ -> | -> ];
      [ reflexivity | apply orb_true_r ].
  - intros target Ht. apply (areaTargets_attackable E cmd player st target Ht).
Qed.

(** The queueing area attack of two tanks on the unit 7. *)
Lemma SelectAttackNet_orders_sample :
  issued (SelectAttackNet (Sample.engine [1; 2] [7]) (Sample.areaAttack SHIFT_KEY) 0
                          Sample.queuedAttack)
  = [EvGive 2 (attackOn SHIFT_KEY 7) true;
     EvGive 2 (Command1 CMD_SET_WANTED_MAX_SPEED SHIFT_KEY 2%Q) true].
Proof. vm_compute. reflexivity. Qed.

(** ** Every unit that resolves receives one destination *)

Lemma MoveToPos_destination (E : Engine) (st : State) (nextPos dir : float3.t)
  (unitID : Z) (c : Command) (entry : Z * Command) :
  snd (fst (MoveToPos E st nextPos dir unitID c true)) = Some entry ->
  fst entry = unitID /\ destinationOf c (snd entry).
Proof.
  unfold MoveToPos. simpl. destruct (units st unitID); simpl; [ | discriminate ].
  intros H. inversion H. subst entry. simpl. split; [ reflexivity | ].
  eexists. reflexivity.
Qed.

Lemma frontLoop_destinations (E : Engine) (c : Command) (sideDir : float3.t)
  (pairs : list (float * Z)) :
  forall groups cmds nextPos st,
    Forall (fun e : Z * Command => destinationOf c (snd e)) cmds ->
    exists rows,
      flushed (frontLoop E c sideDir pairs groups cmds nextPos st) = flushed st ++ rows
      /\ Forall (fun r => Forall (fun e : Z * Command => destinationOf c (snd e))
                                 (rowCommands r)) rows.
Proof.
  induction pairs as [ | p rest IH ]; intros groups cmds nextPos st Hcmds.
  - exists []. split; [ symmetry; apply app_nil_r | constructor ].
  - simpl frontLoop.
    set (placed := MoveToPos E st nextPos sideDir (snd p) c true).
    assert (Hcmds' : Forall (fun e : Z * Command => destinationOf c (snd e))
                            (optCons cmds (snd (fst placed)))).
    { destruct (snd (fst placed)) as [ entry | ] eqn:Hentry; simpl; [ | exact Hcmds ].
      apply Forall_app. split; [ exact Hcmds | ].
      constructor; [ | constructor ].
      exact (proj2 (MoveToPos_destination _ _ _ _ _ _ _ Hentry)). }
    match goal with |- context [ if ?b then _ else _ ] => destruct b end.
    + apply IH. exact Hcmds'.
    + match goal with
      | |- context [ flushRow E ?g ?m st ] =>
          destruct (flushRow_frame E g m st) as (_ & _ & Hflushed);
          destruct (IH [] [] (fst (fst placed)) (flushRow E g m st)) as (rows & H1 & H2);
            [ constructor | ];
          exists (mkRow g m (fst (mixUnits g (length m))) (snd (mixUnits g (length m)))
                  :: rows)
      end.
      split; [ rewrite H1, Hflushed, <- app_assoc; reflexivity | ].
      constructor; [ exact Hcmds' | exact H2 ].
Qed.

Lemma map_fst_combine {A B : Type} (l : list A) (l' : list B) :
  length l = length l' -> map fst (combine l l') = l.
Proof.
  revert l'. induction l as [ | a rest IH ]; intros [ | b rest' ] Hlen;
    try discriminate; [ reflexivity | ].
  simpl. rewrite IH; [ reflexivity | ]. simpl in Hlen. lia.
Qed.

Lemma orderedUnit_rowEvents (r : FormationRow) :
  rowMixed r -> flat_map orderedUnit (rowEvents r) = rowMixedUnitIDs r.
Proof.
  intros Hrow. unfold rowEvents. rewrite flat_map_concat_map, map_map.
  rewrite <- flat_map_concat_map. simpl.
  rewrite <- (map_fst_combine (rowMixedUnitIDs r) (rowCommands r) (row_slots _ Hrow))
    at 2.
  induction (combine (rowMixedUnitIDs r) (rowCommands r)) as [ | a rest IH ];
    [ reflexivity | ].
  simpl. rewrite IH. reflexivity.
Qed.

Lemma flat_map_app_distr {A B : Type} (f : A -> list B) (l1 l2 : list A) :
  flat_map f (l1 ++ l2) = flat_map f l1 ++ flat_map f l2.
Proof. apply flat_map_app. Qed.

Lemma orderedUnit_rows (rows : list FormationRow) :
  Forall rowMixed rows ->
  Permutation (flat_map orderedUnit (flat_map rowEvents rows))
              (flat_map (fun r => map fst (rowCommands r)) rows).
Proof.
  induction 1 as [ | r rest Hrow Hrest IH ]; [ apply perm_nil | ].
  simpl. rewrite flat_map_app_distr. apply Permutation_app; [ | exact IH ].
  rewrite (orderedUnit_rowEvents r Hrow). exact (row_permutation r Hrow).
Qed.

Lemma rowEvents_destinations (c : Command) (r : FormationRow) :
  Forall (fun e : Z * Command => destinationOf c (snd e)) (rowCommands r) ->
  Forall (fun e => exists unitID d, e = EvGive unitID d false /\ destinationOf c d)
         (rowEvents r).
Proof.
  intros Hcmds. unfold rowEvents. apply Forall_forall. intros e He.
  apply in_map_iff in He. destruct He as ([ unitID entry ] & <- & Hin).
  exists unitID, (snd entry). split; [ reflexivity | ].
  apply in_combine_r in Hin. rewrite Forall_forall in Hcmds.
  exact (Hcmds entry Hin).
Qed.

(** X12.  [MakeFormationFrontOrder] gives exactly one order to every
    selected unit that resolves and none to any other unit: the units that
    receive the orders are, up to their order, the selected ids that
    resolve.  On a short front each order is the front order itself; on a
    long front each order carries the kind and the options of the front
    order and one position, the unit's destination.  None of them is marked
    as coming from synced code. *)
Theorem MakeFormationFrontOrder_orders_every_unit (E : Engine) (c : Command)
  (player : Z) (st : State) :
  let st' := MakeFormationFrontOrder E c player st in
  let short := flt (distance E (GetPos c 0) (GetPos c 3))
                   (of_size (length (netSelected E player) + 33)) in
  exists evs,
    issued st' = issued st ++ evs
    /\ Permutation (flat_map orderedUnit evs)
                   (filter (resolves st) (netSelected E player))
    /\ Forall (fun e =>
                 exists unitID d,
                   e = EvGive unitID d false
                   /\ if short then d = c
                      else exists pos, d = CommandPos (GetID c) (options c) pos) evs.
Proof.
  intros st' short.
  destruct short eqn:Hfront; unfold short in Hfront.
  - exists (map (fun unitID => EvGive unitID c false)
                (filter (resolves st) (netSelected E player))).
    split; [ | split ].
    + unfold st', MakeFormationFrontOrder. cbv zeta.
      change (formationCenterPos (set_formation_points (GetPos c 0) (GetPos c 3) st))
        with (GetPos c 0).
      change (formationRightPos (set_formation_points (GetPos c 0) (GetPos c 3) st))
        with (GetPos c 3).
      rewrite Hfront.
      exact (proj1 (giveIfResolved_loop E c false (netSelected E player)
                      (set_formation_points (GetPos c 0) (GetPos c 3) st))).
    + induction (filter (resolves st) (netSelected E player)) as [ | a rest IH ];
        [ apply perm_nil | ].
      simpl. apply perm_skip. exact IH.
    + apply Forall_forall. intros e He. apply in_map_iff in He.
      destruct He as (unitID & <- & _). exists unitID, c. split; reflexivity.
  - destruct (MakeFormationFrontOrder_long_front E c player st Hfront)
      as (st2 & Hloop & Hunits & Hissued & Hflushed & _).
    set (sideDir := formationSideDir (GetPos c 0) (GetPos c 3)
                      (distance E (GetPos c 0) (GetPos c 3) * 2)%Q) in *.
    destruct (frontLoop_rows E c sideDir (CreateUnitOrder E player st2) [] []
                ZeroVector st2) as (rows & H1 & H2 & H3 & H4).
    { intros p Hp. apply CreateUnitOrder_resolves with (E := E) (player := player).
      exact Hp. }
    { intros unitID []. }
    { apply perm_nil. }
    { reflexivity. }
    destruct (frontLoop_destinations E c sideDir (CreateUnitOrder E player st2) [] []
                ZeroVector st2 (Forall_nil _)) as (rows' & H1' & Hdest).
    rewrite H1 in H1'. apply app_inv_head in H1'. subst rows'.
    exists (flat_map rowEvents rows).
    split; [ unfold st'; rewrite Hloop, H4, Hissued; reflexivity | ].
    split.
    + eapply Permutation_trans; [ apply (orderedUnit_rows rows H2) | ].
      rewrite H3. simpl.
      rewrite (CreateUnitOrder_same_units E player st st2 Hunits).
      unfold CreateUnitOrder.
      eapply Permutation_trans;
        [ apply Permutation_map, stable_sort_perm | ].
      rewrite CreateUnitOrder_collect_ids. apply Permutation_refl.
    + apply Forall_forall. intros e He. apply in_flat_map in He.
      destruct He as (r & Hr & He).
      rewrite Forall_forall in Hdest.
      pose proof (rowEvents_destinations c r (Hdest r Hr)) as Hrow.
      rewrite Forall_forall in Hrow. exact (Hrow e He).
Qed.

(** ** The buckets of a row are kept in ascending priority *)

Lemma StronglySorted_app {A : Type} (R : A -> A -> Prop) (l1 l2 : list A) :
  StronglySorted R l1 -> StronglySorted R l2 ->
  (forall a b, In a l1 -> In b l2 -> R a b) ->
  StronglySorted R (l1 ++ l2).
Proof.
  induction l1 as [ | h t IH ]; intros H1 H2 Hcross; [ exact H2 | ].
  simpl. inversion H1 as [ | ? ? Ht Hh ]; subst. constructor.
  - apply IH; [ exact Ht | exact H2 | ].
    intros a b Ha Hb. apply Hcross; [ right; exact Ha | exact Hb ].
  - apply Forall_app. split; [ exact Hh | ].
    apply Forall_forall. intros b Hb. apply Hcross; [ left; reflexivity | exact Hb ].
Qed.

Lemma StronglySorted_app_inv {A : Type} (R : A -> A -> Prop) (l1 l2 : list A) :
  StronglySorted R (l1 ++ l2) ->
  StronglySorted R l1 /\ StronglySorted R l2
  /\ (forall a b, In a l1 -> In b l2 -> R a b).
Proof.
  induction l1 as [ | h t IH ]; intros H.
  - split; [ constructor | ]. split; [ exact H | intros a b [] ].
  - simpl in H. inversion H as [ | ? ? Ht Hh ]; subst.
    destruct (IH Ht) as (H1 & H2 & Hcross).
    apply Forall_app in Hh. destruct Hh as (Hh1 & Hh2).
    split; [ constructor; assumption | ]. split; [ exact H2 | ].
    intros a b [ <- | Ha ] Hb.
    + rewrite Forall_forall in Hh2. exact (Hh2 b Hb).
    + exact (Hcross a b Ha Hb).
Qed.

Lemma swap_back_skip (e : TGroupPair) (rs : list TGroupPair) :
  (forall s, In s rs -> ugPairComp s e = false) ->
  forall rl passed, swap_back (rs ++ rl) e passed = swap_back rl e (rev rs ++ passed).
Proof.
  induction rs as [ | s rest IH ]; intros Hrs rl passed; [ reflexivity | ].
  simpl. rewrite (Hrs s (or_introl eq_refl)).
  rewrite IH; [ | intros s' Hs'; apply Hrs; right; exact Hs' ].
  rewrite <- app_assoc. reflexivity.
Qed.

(** The new bucket comes to rest behind the buckets below it and in front of
    the others. *)
Lemma swap_into_position_split (e : TGroupPair) (pre suf : list TGroupPair) :
  (forall h, In h pre -> ugPairComp h e = true) ->
  (forall s, In s suf -> ugPairComp s e = false) ->
  swap_into_position (pre ++ suf) e = pre ++ e :: suf.
Proof.
  intros Hpre Hsuf. unfold swap_into_position.
  rewrite rev_app_distr, swap_back_skip.
  - rewrite rev_involutive, app_nil_r.
    destruct (rev pre) as [ | p r ] eqn:Hrev.
    + apply (f_equal (@rev _)) in Hrev. rewrite rev_involutive in Hrev.
      subst pre. reflexivity.
    + simpl. rewrite Hpre.
      * rewrite <- (rev_involutive pre), Hrev. reflexivity.
      * apply in_rev. rewrite Hrev. left. reflexivity.
  - intros s Hs. apply Hsuf. apply in_rev. exact Hs.
Qed.

Lemma lower_bound_split {A : Type} (comp : A -> A -> bool) (l : list A) (v : A) :
  let i := lower_bound comp l v in
  (forall h, In h (firstn i l) -> comp h v = true)
  /\ match nth_error l i with
     | Some g => comp g v = false
     | None => skipn i l = []
     end.
Proof.
  induction l as [ | h t IH ]; cbv zeta; simpl.
  - split; [ intros h [] | reflexivity ].
  - destruct (comp h v) eqn:Hc; simpl.
    + cbv zeta in IH. destruct IH as (Hpre & Hnth). split; [ | exact Hnth ].
      intros a [ <- | Ha ]; [ exact Hc | exact (Hpre a Ha) ].
    + split; [ intros a [] | exact Hc ].
Qed.

Lemma nth_error_skipn {A : Type} (l : list A) (i : nat) (g : A) :
  nth_error l i = Some g -> exists rest, skipn i l = g :: rest.
Proof.
  revert i. induction l as [ | h t IH ]; intros [ | i ] H; try discriminate.
  - inversion H. subst. exists t. reflexivity.
  - simpl. apply IH. exact H.
Qed.

Lemma map_fst_set_nth (groups : list TGroupPair) (i : nat) (g : TGroupPair)
  (ids : list Z) :
  nth_error groups i = Some g ->
  map fst (set_nth i (fst g, ids) groups) = map fst groups.
Proof.
  revert i. induction groups as [ | h t IH ]; intros [ | i ] H; try discriminate.
  - inversion H. subst. reflexivity.
  - simpl. rewrite (IH i H). reflexivity.
Qed.

Lemma Forall_set_nth {A : Type} (P : A -> Prop) (l : list A) (i : nat) (v : A) :
  Forall P l -> P v -> Forall P (set_nth i v l).
Proof.
  intros Hl Hv. revert i. induction Hl as [ | h t Hh Ht IH ]; intros [ | i ]; simpl;
    constructor; auto.
Qed.

Lemma addUnitToGroups_cases (groups : list TGroupPair) (suPair : float * Z) :
  StronglySorted Qlt (map fst groups) ->
  (exists pre suf,
     groups = pre ++ suf
     /\ addUnitToGroups groups suPair = pre ++ (fst suPair, [snd suPair]) :: suf
     /\ (forall h, In h pre -> (fst h < fst suPair)%Q)
     /\ (forall s, In s suf -> (fst suPair < fst s)%Q))
  \/ (exists i g,
        nth_error groups i = Some g /\ (fst g == fst suPair)%Q
        /\ addUnitToGroups groups suPair
           = set_nth i (fst g, snd g ++ [snd suPair]) groups).
Proof.
  intros Hsorted. unfold addUnitToGroups. cbv zeta.
  pose proof (lower_bound_split ugPairComp groups (fst suPair, [])) as Hlb.
  cbv zeta in Hlb. destruct Hlb as (Hpre & Hnth).
  set (i := lower_bound ugPairComp groups (fst suPair, [])) in *.
  assert (Hpre' : forall h, In h (firstn i groups) -> (fst h < fst suPair)%Q).
  { intros h Hh. apply flt_true. exact (Hpre h Hh). }
  destruct (nth_error groups i) as [ g | ] eqn:Hg.
  - destruct (fne (fst g) (fst suPair)) eqn:Hne.
    + left. exists (firstn i groups), (skipn i groups).
      split; [ symmetry; apply firstn_skipn | ].
      destruct (nth_error_skipn groups i g Hg) as (rest & Hskip).
      assert (Hlt : (fst suPair < fst g)%Q).
      { apply flt_false in Hnth. simpl in Hnth.
        destruct (Qle_lt_or_eq _ _ Hnth) as [ Hlt | Heq ]; [ exact Hlt | ].
        unfold fne in Hne. apply negb_true_iff in Hne.
        symmetry in Heq. apply Qeq_bool_iff in Heq. rewrite Heq in Hne. discriminate. }
      assert (Hsuf : forall s, In s (skipn i groups) -> (fst suPair < fst s)%Q).
      { rewrite <- (firstn_skipn i groups), map_app in Hsorted.
        apply StronglySorted_app_inv in Hsorted. destruct Hsorted as (_ & Hs & _).
        rewrite Hskip in Hs |- *. simpl in Hs.
        inversion Hs as [ | ? ? _ Hall ]; subst.
        intros s [ <- | Hin ]; [ exact Hlt | ].
        apply (Qlt_trans _ (fst g)); [ exact Hlt | ].
        rewrite Forall_forall in Hall. apply Hall. apply in_map. exact Hin. }
      split; [ | split; [ exact Hpre' | exact Hsuf ] ].
      rewrite <- (firstn_skipn i groups) at 1.
      apply swap_into_position_split.
      * intros h Hh. exact (Hpre h Hh).
      * intros s Hs. apply flt_false. apply Qlt_le_weak. exact (Hsuf s Hs).
    + right. exists i, g. split; [ exact Hg | ]. split; [ | reflexivity ].
      unfold fne in Hne. apply negb_false_iff in Hne. apply Qeq_bool_iff. exact Hne.
  - left. exists (firstn i groups), (skipn i groups).
    split; [ symmetry; apply firstn_skipn | ].
    rewrite Hnth. split; [ | split; [ exact Hpre' | intros s [] ] ].
    rewrite <- (firstn_skipn i groups) at 1. rewrite Hnth.
    apply swap_into_position_split; [ | intros s [] ].
    intros h Hh. exact (Hpre h Hh).
Qed.

Lemma addUnitToGroups_ordered (ranking : list (float * Z)) (groups : list TGroupPair)
  (suPair : float * Z) :
  In suPair ranking ->
  bucketsOrdered ranking groups ->
  bucketsOrdered ranking (addUnitToGroups groups suPair).
Proof.
  intros Hin (Hsorted & Hall).
  destruct (addUnitToGroups_cases groups suPair Hsorted)
    as [ (pre & suf & Hgroups & -> & Hpre & Hsuf) | (i & g & Hg & Hkey & ->) ].
  - subst groups. rewrite map_app in Hsorted.
    apply StronglySorted_app_inv in Hsorted. destruct Hsorted as (Hs1 & Hs2 & Hcross).
    apply Forall_app in Hall. destruct Hall as (Hall1 & Hall2).
    split.
    + rewrite map_app. simpl. apply StronglySorted_app; [ exact Hs1 | | ].
      * constructor; [ exact Hs2 | ].
        apply Forall_forall. intros b Hb. apply in_map_iff in Hb.
        destruct Hb as (s & <- & Hs). exact (Hsuf s Hs).
      * intros a b Ha [ <- | Hb ].
        -- apply in_map_iff in Ha. destruct Ha as (h & <- & Hh). exact (Hpre h Hh).
        -- exact (Hcross a b Ha Hb).
    + apply Forall_app. split; [ exact Hall1 | ].
      constructor; [ | exact Hall2 ].
      simpl. split; [ discriminate | ].
      intros unitID [ <- | [] ]. exists (fst suPair).
      split; [ destruct suPair; exact Hin | apply Qeq_refl ].
  - split.
    + rewrite (map_fst_set_nth groups i g _ Hg). exact Hsorted.
    + apply Forall_set_nth; [ exact Hall | ].
      apply nth_error_In in Hg. rewrite Forall_forall in Hall.
      destruct (Hall g Hg) as (_ & Hids). simpl.
      split; [ intros Hnil; apply app_eq_nil in Hnil; destruct Hnil; discriminate | ].
      intros unitID Hu. apply in_app_or in Hu. destruct Hu as [ Hu | [ <- | [] ] ].
      * exact (Hids unitID Hu).
      * exists (fst suPair). split; [ destruct suPair; exact Hin | ].
        symmetry. exact Hkey.
Qed.

Lemma bucketsOrdered_nil (ranking : list (float * Z)) : bucketsOrdered ranking [].
Proof. split; constructor. Qed.

Lemma frontLoop_buckets (E : Engine) (c : Command) (sideDir : float3.t)
  (ranking : list (float * Z)) (pairs : list (float * Z)) :
  forall groups cmds nextPos st,
    incl pairs ranking ->
    bucketsOrdered ranking groups ->
    exists rows,
      flushed (frontLoop E c sideDir pairs groups cmds nextPos st) = flushed st ++ rows
      /\ Forall (fun r => bucketsOrdered ranking (rowGroups r)) rows.
Proof.
  induction pairs as [ | p rest IH ]; intros groups cmds nextPos st Hincl Hgroups.
  - exists []. split; [ symmetry; apply app_nil_r | constructor ].
  - simpl frontLoop.
    assert (Hgroups' : bucketsOrdered ranking (addUnitToGroups groups p)).
    { apply addUnitToGroups_ordered; [ apply Hincl; left; reflexivity | exact Hgroups ]. }
    assert (Hincl' : incl rest ranking).
    { intros q Hq. apply Hincl. right. exact Hq. }
    match goal with |- context [ if ?b then _ else _ ] => destruct b end.
    + apply IH; assumption.
    + match goal with
      | |- context [ flushRow E ?g ?m st ] =>
          destruct (flushRow_frame E g m st) as (_ & _ & Hflushed);
          destruct (IH [] [] (fst (fst (MoveToPos E st nextPos sideDir (snd p) c true)))
                       (flushRow E g m st) Hincl' (bucketsOrdered_nil ranking))
            as (rows & H1 & H2);
          exists (mkRow g m (fst (mixUnits g (length m))) (snd (mixUnits g (length m)))
                  :: rows)
      end.
      split; [ rewrite H1, Hflushed, <- app_assoc; reflexivity | ].
      constructor; [ exact Hgroups' | exact H2 ].
Qed.

(** X13.  The buckets of every row that [MakeFormationFrontOrder] closes
    are in strictly ascending order of priority (the order [lower_bound]
    relies on), none of them is empty, and each holds selected units that
    resolve and whose priority is the priority of the bucket: two units are
    in one bucket of a row exactly when they have the same priority. *)
Theorem MakeFormationFrontOrder_buckets (E : Engine) (c : Command) (player : Z)
  (st : State) :
  let st' := MakeFormationFrontOrder E c player st in
  exists rows,
    flushed st' = flushed st ++ rows
    /\ Forall (fun r =>
                 StronglySorted Qlt (map fst (rowGroups r))
                 /\ Forall (fun g : TGroupPair =>
                              snd g <> []
                              /\ forall unitID, In unitID (snd g) ->
                                   In unitID (netSelected E player)
                                   /\ exists unit, units st unitID = Some unit
                                        /\ (unitPriority unit == fst g)%Q)
                           (rowGroups r)) rows.
Proof.
  intros st'.
  destruct (flt (distance E (GetPos c 0) (GetPos c 3))
                (of_size (length (netSelected E player) + 33))) eqn:Hfront.
  - exists []. split; [ | constructor ].
    unfold st', MakeFormationFrontOrder. cbv zeta.
    change (formationCenterPos (set_formation_points (GetPos c 0) (GetPos c 3) st))
      with (GetPos c 0).
    change (formationRightPos (set_formation_points (GetPos c 0) (GetPos c 3) st))
      with (GetPos c 3).
    rewrite Hfront.
    destruct (giveIfResolved_loop E c false (netSelected E player)
                (set_formation_points (GetPos c 0) (GetPos c 3) st)) as (_ & _ & Hh).
    unfold sameHandler in Hh. simpl in Hh. split_hyps.
    rewrite app_nil_r. symmetry. assumption.
  - destruct (MakeFormationFrontOrder_long_front E c player st Hfront)
      as (st2 & Hloop & Hunits & _ & Hflushed & _).
    set (sideDir := formationSideDir (GetPos c 0) (GetPos c 3)
                      (distance E (GetPos c 0) (GetPos c 3) * 2)%Q) in *.
    destruct (frontLoop_buckets E c sideDir (CreateUnitOrder E player st2)
                (CreateUnitOrder E player st2) [] [] ZeroVector st2
                (incl_refl _) (bucketsOrdered_nil _)) as (rows & H1 & H2).
    exists rows. split; [ unfold st'; rewrite Hloop, H1, Hflushed; reflexivity | ].
    eapply Forall_impl; [ | exact H2 ].
    intros r (Hsorted & Hall). split; [ exact Hsorted | ].
    eapply Forall_impl; [ | exact Hall ].
    intros g (Hne & Hids). split; [ exact Hne | ].
    intros unitID Hu. destruct (Hids unitID Hu) as (v & Hv & Hkey).
    rewrite (CreateUnitOrder_same_units E player st st2 Hunits) in Hv.
    split.
    + apply (CreateUnitOrder_selected E player st).
      apply in_map_iff. exists (v, unitID). split; [ reflexivity | exact Hv ].
    + unfold CreateUnitOrder in Hv.
      apply (Permutation_in _ (stable_sort_perm idPairComp _)) in Hv.
      destruct (CreateUnitOrder_collect_priority _ _ _ _ Hv) as (unit & Hunit & ->).
      exists unit. split; [ exact Hunit | exact Hkey ].
Qed.

(** ** The rows of a formation are parallel to the front *)





(** * The GL helpers *)

Lemma GetVertexArray_index (currentVertexArray : Z) :
  GetVertexArray currentVertexArray
  = ((currentVertexArray + 1) mod 2, (currentVertexArray + 1) mod 2).
Proof.
  unfold GetVertexArray, vertexArrays_size. cbv zeta.
  rewrite (Z.mod_mod_divide (currentVertexArray + 1) (2 ^ 64) 2);
    [ reflexivity | exists (2 ^ 63); reflexivity ].
Qed.

(** X15.  [GetVertexArray] hands out the two vertex arrays in turn: the
    index it returns is 0 or 1, it is the index it leaves in
    [currentVertexArray], the next call returns the other array and the call
    after that the same array again.  From the initial state the first call
    returns the array 1. *)
Theorem GetVertexArray_alternates (currentVertexArray : Z) :
  let first := GetVertexArray currentVertexArray in
  let second := GetVertexArray (fst first) in
  let third := GetVertexArray (fst second) in
  0 <= snd first < 2
  /\ fst first = snd first
  /\ snd second <> snd first
  /\ snd third = snd first
  /\ snd (GetVertexArray 0) = 1.
Proof.
  cbv zeta. repeat (rewrite GetVertexArray_index; cbn [fst snd]).
  pose proof (Z.mod_pos_bound (currentVertexArray + 1) 2).
  set (m := (currentVertexArray + 1) mod 2) in *.
  assert (Hm : m = 0 \/ m = 1) by lia.
  split; [ lia | ]. split; [ reflexivity | ].
  destruct Hm as [ Hm | Hm ]; rewrite Hm;
    (split; [ vm_compute; discriminate | split; vm_compute; reflexivity ]).
Qed.

Lemma glClearErrors_verbose_spec (getError : Z -> Z) (fuel : nat) :
  forall count logged,
    0 <= count -> count + Z.of_nat fuel = 10001 -> (1 <= fuel)%nat ->
    exists calls,
      glClearErrors_verbose getError fuel count logged
      = Some (calls,
              logged ++ map (fun k => (count + Z.of_nat k, getError (count + Z.of_nat k)))
                            (seq 0 (Z.to_nat (calls - 1 - count))))
      /\ count < calls <= 10001
      /\ (forall k, count <= k < calls - 1 -> getError k <> GL_NO_ERROR)
      /\ (calls <= 10000 -> getError (calls - 1) = GL_NO_ERROR).
Proof.
  induction fuel as [ | fuel IH ]; intros count logged Hcount Hsum Hfuel; [ lia | ].
  simpl.
  destruct (Z.eqb_spec (getError count) GL_NO_ERROR) as [ Hzero | Herr ]; simpl.
  - exists (count + 1). replace (count + 1 - 1 - count) with 0 by lia. simpl.
    rewrite app_nil_r. split; [ reflexivity | ].
    split; [ lia | ]. split; [ intros k Hk; lia | ].
    intros _. replace (count + 1 - 1) with count by lia. exact Hzero.
  - destruct (Z.ltb_spec count 10000) as [ Hlt | Hge ].
    + destruct (IH (count + 1) (logged ++ [(count, getError count)]))
        as (calls & Heq & Hrange & Herrs & Hlast); try lia.
      exists calls. rewrite Heq. split.
      * f_equal. f_equal. rewrite <- app_assoc. f_equal.
        replace (Z.to_nat (calls - 1 - count))
          with (S (Z.to_nat (calls - 1 - (count + 1)))) by lia.
        simpl. rewrite Z.add_0_r. f_equal.
        rewrite <- seq_shift, map_map. apply map_ext. intros k.
        replace (count + 1 + Z.of_nat k) with (count + Z.of_nat (S k)) by lia.
        reflexivity.
      * split; [ lia | ]. split; [ | exact Hlast ].
        intros k Hk. destruct (Z.eq_dec k count) as [ -> | Hne ]; [ exact Herr | ].
        apply Herrs. lia.
    + exists (count + 1). replace (count + 1 - 1 - count) with 0 by lia. simpl.
      rewrite app_nil_r. split; [ reflexivity | ].
      split; [ lia | ]. split; [ intros k Hk; lia | ]. intros Hle. lia.
Qed.

Lemma glClearErrors_quiet_verbose (getError : Z -> Z) (fuel : nat) :
  forall count logged,
    glClearErrors_quiet getError fuel count
    = option_map fst (glClearErrors_verbose getError fuel count logged).
Proof.
  induction fuel as [ | fuel IH ]; intros count logged; [ reflexivity | ].
  simpl. destruct (negb (getError count =? GL_NO_ERROR) && (count <? 10000));
    [ apply IH | reflexivity ].
Qed.

(** X16.  [glClearErrors] always returns, also on a context that answers
    every [glGetError] with an error: it makes at least one and at most
    10001 calls of [glGetError].  All the answers but the last are errors;
    when it stops before the limit the last answer is [GL_NO_ERROR], so the
    error queue is empty.  With [verbose] it logs exactly the errors before
    the last answer, at most 10000 lines, in the order of the calls: at the
    limit the answer to the call number 10000 is dropped without a line.
    Without [verbose] it makes the same calls and logs nothing. *)
Theorem glClearErrors_bounded (getError : Z -> Z) (verbose : bool) :
  exists calls logged,
    glClearErrors getError verbose = Some (calls, logged)
    /\ 1 <= calls <= 10001
    /\ (forall k, 0 <= k < calls - 1 -> getError k <> GL_NO_ERROR)
    /\ (calls <= 10000 -> getError (calls - 1) = GL_NO_ERROR)
    /\ logged
       = (if verbose
          then map (fun k => (Z.of_nat k, getError (Z.of_nat k)))
                   (seq 0 (Z.to_nat (calls - 1)))
          else [])
    /\ Z.of_nat (length logged) <= 10000
    /\ option_map fst (glClearErrors getError true)
       = option_map fst (glClearErrors getError false).
Proof.
  destruct (glClearErrors_verbose_spec getError (Z.to_nat 10001) 0 [])
    as (calls & Heq & Hrange & Herrs & Hlast); try lia.
  replace (calls - 1 - 0) with (calls - 1) in Heq by lia. simpl app in Heq.
  assert (Hquiet : glClearErrors_quiet getError (Z.to_nat 10001) 0 = Some calls).
  { rewrite (glClearErrors_quiet_verbose getError _ 0 []), Heq. reflexivity. }
  exists calls.
  exists (if verbose
          then map (fun k => (Z.of_nat k, getError (Z.of_nat k)))
                   (seq 0 (Z.to_nat (calls - 1)))
          else []).
  split.
  { unfold glClearErrors. destruct verbose.
    - rewrite Heq. reflexivity.
    - rewrite Hquiet. reflexivity. }
  split; [ lia | ]. split; [ exact Herrs | ]. split; [ exact Hlast | ].
  split; [ reflexivity | ]. split.
  { destruct verbose; [ rewrite length_map, length_seq | simpl ]; lia. }
  unfold glClearErrors. rewrite Heq, Hquiet. reflexivity.
Qed.

(** ** glSpringBindTextures *)

Lemma glRun_app (G : GLContext) (s : TextureState) (calls1 calls2 : list GLCall) :
  glRun G s (calls1 ++ calls2)
  = match glRun G s calls1 with
    | Some s' => glRun G s' calls2
    | None => None
    end.
Proof.
  revert s. induction calls1 as [ | call rest IH ]; intros s; [ reflexivity | ].
  simpl. destruct (glDo G s call); [ apply IH | reflexivity ].
Qed.

(** The loop reads the [n] entries from [i0] on: it makes two calls a turn
    when the array holds them, and reads behind the array when it does
    not. *)
Lemma bindLoop_calls (first : Z) (textures : option (list Z)) (n : nat) :
  forall i0 : nat,
    (forall l, textures = Some l -> (i0 + n <= length l)%nat) ->
    exists calls,
      bindLoop first textures (seq i0 n) = Some calls
      /\ length calls = (2 * n)%nat.
Proof.
  induction n as [ | n IH ]; intros i0 Hlen.
  - exists []. split; reflexivity.
  - change (seq i0 (S n)) with (i0 :: seq (S i0) n). cbn [bindLoop].
    unfold bindTextureAt.
    assert (Hread : exists texture, textureAt textures i0 = Some texture).
    { destruct textures as [ l | ]; [ | exists 0; reflexivity ].
      cbn [textureAt]. destruct (nth_error l i0) as [ t | ] eqn:Hnth;
        [ exists t; reflexivity | ].
      apply nth_error_None in Hnth. specialize (Hlen l eq_refl). lia. }
    destruct Hread as [ texture Hread ]. rewrite Hread.
    destruct (IH (S i0)) as (calls & Hcalls & Hcount).
    { intros l Hl. specialize (Hlen l Hl). lia. }
    rewrite Hcalls. cbn [option_map]. eexists. split; [ reflexivity | ].
    cbn [app length]. rewrite Hcount. lia.
Qed.

Lemma bindLoop_past (first : Z) (l : list Z) (n : nat) :
  forall i0 : nat,
    (i0 <= length l)%nat -> (length l < i0 + n)%nat ->
    bindLoop first (Some l) (seq i0 n) = None.
Proof.
  induction n as [ | n IH ]; intros i0 Hlow Hpast; [ lia | ].
  change (seq i0 (S n)) with (i0 :: seq (S i0) n). cbn [bindLoop].
  unfold bindTextureAt. cbn [textureAt].
  destruct (nth_error l i0) as [ t | ] eqn:Hnth; [ | reflexivity ].
  assert (Hin : (i0 < length l)%nat)
    by (apply nth_error_Some; rewrite Hnth; discriminate).
  rewrite (IH (S i0)) by lia. reflexivity.
Qed.

(** The calls of the loop on a context that has the units and accepts the
    names. *)
Lemma bindLoop_run (G : GLContext) (first : Z) (textures : option (list Z)) (n : nat) :
  forall (i0 : nat) (calls : list GLCall) (s : TextureState),
    bindLoop first textures (seq i0 n) = Some calls ->
    0 <= first ->
    first + Z.of_nat (i0 + n) <= maxUnits G ->
    GL_TEXTURE0 + maxUnits G <= 2 ^ 32 ->
    (forall i texture, (i0 <= i < i0 + n)%nat ->
       textureAt textures i = Some texture -> isTexture2D G texture = true) ->
    exists s',
      glRun G s calls = Some s'
      /\ glErrors s' = glErrors s
      /\ (n = O -> s' = s)
      /\ (forall i, (i0 <= i < i0 + n)%nat ->
            textureAt textures i = Some (bound2D s' (GL_TEXTURE0 + first + Z.of_nat i)))
      /\ (forall unit,
            (forall i, (i0 <= i < i0 + n)%nat ->
                       unit <> GL_TEXTURE0 + first + Z.of_nat i) ->
            bound2D s' unit = bound2D s unit).
Proof.
  induction n as [ | n IH ]; intros i0 calls s Hcalls Hfirst Hunits Hwrap Hnames.
  - simpl in Hcalls. inversion Hcalls; subst. exists s.
    split; [ reflexivity | ]. split; [ reflexivity | ]. split; [ reflexivity | ].
    split; [ intros i Hi; lia | reflexivity ].
  - change (seq i0 (S n)) with (i0 :: seq (S i0) n) in Hcalls. cbn [bindLoop] in Hcalls.
    unfold bindTextureAt in Hcalls.
    destruct (textureAt textures i0) as [ texture | ] eqn:Hread; [ | discriminate ].
    destruct (bindLoop first textures (seq (S i0) n)) as [ rest | ] eqn:Hrest;
      [ | discriminate ].
    assert (Hunit : (GL_TEXTURE0 + first + Z.of_nat i0) mod 2 ^ 32
                    = GL_TEXTURE0 + first + Z.of_nat i0).
    { apply Z.mod_small. unfold GL_TEXTURE0 in *. lia. }
    rewrite Hunit in Hcalls. set (unit0 := GL_TEXTURE0 + first + Z.of_nat i0) in *.
    cbn [option_map] in Hcalls. injection Hcalls as <-.
    assert (Hvalid : isTextureUnit G unit0 = true).
    { unfold isTextureUnit, unit0. apply andb_true_iff. split.
      - apply Z.leb_le. lia.
      - apply Z.ltb_lt. lia. }
    assert (Hname : isTexture2D G texture = true).
    { apply (Hnames i0); [ lia | exact Hread ]. }
    cbn [app glRun glDo]. rewrite Hvalid. cbn [activeUnit bound2D glErrors].
    change (GL_TEXTURE_2D =? GL_TEXTURE_2D) with true. cbv iota. rewrite Hname.
    cbn [activeUnit bound2D glErrors].
    set (s1 := mkTextureState unit0
                 (fun unit => if unit =? unit0 then texture else bound2D s unit)
                 (glErrors s)).
    destruct (IH (S i0) rest s1 Hrest Hfirst) as (s' & Hrun & Herr & _ & Hbound & Hkeep).
    { replace (S i0 + n)%nat with (i0 + S n)%nat by lia. exact Hunits. }
    { exact Hwrap. }
    { intros i t Hi. apply Hnames. lia. }
    exists s'. split; [ exact Hrun | ]. split; [ exact Herr | ].
    split; [ discriminate | ]. split.
    + intros i Hi. destruct (Nat.eq_dec i i0) as [ -> | Hne ].
      * fold unit0. rewrite Hkeep.
        -- unfold s1. cbn [bound2D]. rewrite Z.eqb_refl. exact Hread.
        -- intros j Hj. unfold unit0. lia.
      * apply Hbound. lia.
    + intros unit Hout. rewrite Hkeep.
      * unfold s1. cbn [bound2D].
        destruct (Z.eqb_spec unit unit0) as [ Heq | ]; [ | reflexivity ].
        exfalso. apply (Hout i0); [ lia | exact Heq ].
      * intros j Hj. apply Hout. lia.
Qed.

(** X17.  With [ARB_multi_bind], [glSpringBindTextures] makes the one call
    [glBindTextures].  Without it, the loop reads [textures[i]] for every
    [i] below [count]: behind the end of an array that holds fewer names,
    and otherwise it makes two calls a turn and one more.  On a context of
    the model above that has the units [first] to [first + count - 1] and
    accepts the names, these calls raise no GL error, bind the texture
    number [i] (or 0, when no textures are given) as the 2D texture of the
    unit [first + i] for every [i] below [count], leave the 2D textures of
    all other units as they were, and leave the unit 0 active whatever unit
    was active before.  A [count] of zero or less binds nothing and still
    makes the unit 0 active. *)
Theorem glSpringBindTextures_fallback (G : GLContext) (first count : Z)
  (textures : option (list Z)) (s : TextureState) :
  0 <= first ->
  0 < maxUnits G ->
  first + Z.max count 0 <= maxUnits G ->
  GL_TEXTURE0 + maxUnits G <= 2 ^ 32 ->
  glSpringBindTextures true first count textures
  = Some [glBindTextures first count textures]
  /\ (forall l, textures = Some l -> Z.of_nat (length l) < count ->
        glSpringBindTextures false first count textures = None)
  /\ ((forall l, textures = Some l -> count <= Z.of_nat (length l)) ->
      exists calls,
        glSpringBindTextures false first count textures = Some calls
        /\ Z.of_nat (length calls) = 2 * Z.max count 0 + 1
        /\ ((forall i texture, 0 <= i < count ->
               textureAt textures (Z.to_nat i) = Some texture ->
               isTexture2D G texture = true) ->
            exists s',
              glRun G s calls = Some s'
              /\ activeUnit s' = GL_TEXTURE0
              /\ glErrors s' = glErrors s
              /\ (forall i, 0 <= i < count ->
                    textureAt textures (Z.to_nat i)
                    = Some (bound2D s' (GL_TEXTURE0 + first + i)))
              /\ (forall unit,
                    (forall i, 0 <= i < count -> unit <> GL_TEXTURE0 + first + i) ->
                    bound2D s' unit = bound2D s unit)
              /\ (count <= 0 -> bound2D s' = bound2D s))).
Proof.
  intros Hfirst Hsome Hunits Hwrap. split; [ reflexivity | ]. split.
  { intros l -> Hshort. unfold glSpringBindTextures.
    rewrite (bindLoop_past first l (Z.to_nat count) 0) by lia. reflexivity. }
  intros Hlen.
  destruct (bindLoop_calls first textures (Z.to_nat count) 0) as (loop & Hloop & Hcount).
  { intros l Hl. specialize (Hlen l Hl). lia. }
  exists (loop ++ [glActiveTexture GL_TEXTURE0]).
  split; [ unfold glSpringBindTextures; rewrite Hloop; reflexivity | ].
  split; [ rewrite length_app, Hcount; cbn [length]; lia | ].
  intros Hnames.
  destruct (bindLoop_run G first textures (Z.to_nat count) 0 loop s Hloop Hfirst)
    as (s1 & Hrun & Herr & Hnone & Hbound & Hkeep).
  { cbn [Nat.add]. lia. }
  { exact Hwrap. }
  { intros i texture Hi Hread. apply (Hnames (Z.of_nat i)); [ lia | ].
    rewrite Nat2Z.id. exact Hread. }
  assert (Hzero : isTextureUnit G GL_TEXTURE0 = true).
  { unfold isTextureUnit. apply andb_true_iff. split.
    - apply Z.leb_le. lia.
    - apply Z.ltb_lt. lia. }
  exists (mkTextureState GL_TEXTURE0 (bound2D s1) (glErrors s1)).
  split.
  { rewrite glRun_app, Hrun. cbn [glRun glDo]. rewrite Hzero. reflexivity. }
  split; [ reflexivity | ]. cbn [bound2D glErrors].
  split; [ exact Herr | ]. split; [ | split ].
  - intros i Hi. rewrite <- (Z2Nat.id i) at 2 by lia. apply Hbound. lia.
  - intros unit Hout. apply Hkeep. intros i Hi. apply Hout. lia.
  - intros Hle. rewrite Hnone by lia. reflexivity.
Qed.

(** Two textures bound from the unit 1 on, on a context of eight units that
    accepts every name, while the unit 5 is active. *)
Lemma glSpringBindTextures_fallback_witness :
  0 <= 1
  /\ 0 < maxUnits (mkGLContext 8 (fun _ => true))
  /\ 1 + Z.max 2 0 <= maxUnits (mkGLContext 8 (fun _ => true))
  /\ GL_TEXTURE0 + maxUnits (mkGLContext 8 (fun _ => true)) <= 2 ^ 32
  /\ exists calls s',
       glSpringBindTextures false 1 2 (Some [41; 42]) = Some calls
       /\ glRun (mkGLContext 8 (fun _ => true))
                (mkTextureState (GL_TEXTURE0 + 5) (fun _ => 9) []) calls
          = Some s'
       /\ activeUnit s' = GL_TEXTURE0
       /\ glErrors s' = [].
Proof.
  assert (H1 : 0 <= 1) by lia.
  assert (H2 : 0 < maxUnits (mkGLContext 8 (fun _ => true))) by reflexivity.
  assert (H3 : 1 + Z.max 2 0 <= maxUnits (mkGLContext 8 (fun _ => true)))
    by (vm_compute; discriminate).
  assert (H4 : GL_TEXTURE0 + maxUnits (mkGLContext 8 (fun _ => true)) <= 2 ^ 32)
    by (vm_compute; discriminate).
  split; [ exact H1 | ]. split; [ exact H2 | ]. split; [ exact H3 | ].
  split; [ exact H4 | ].
  destruct (glSpringBindTextures_fallback (mkGLContext 8 (fun _ => true)) 1 2
              (Some [41; 42])
              (mkTextureState (GL_TEXTURE0 + 5) (fun _ => 9) []) H1 H2 H3 H4)
    as (_ & _ & Hcalls).
  destruct Hcalls as (calls & Hcalls & _ & Hrun).
  { intros l Hl. injection Hl as <-. vm_compute. discriminate. }
  destruct Hrun as (s' & Hrun & Hactive & Herrors & _).
  { intros i texture _ _. apply orb_true_r. }
  exists calls, s'. split; [ exact Hcalls | ]. split; [ exact Hrun | ].
  split; [ exact Hactive | exact Herrors ].
Defined.

(** The calls of the fallback; a read behind the array; and a context with
    two units only, where the unit 2 does not exist: the second texture is
    bound to the unit 1, which the first call had made active, and the error
    stays recorded. *)
Lemma glSpringBindTextures_sample :
  glSpringBindTextures false 1 2 (Some [41; 42])
  = Some [glActiveTexture (GL_TEXTURE0 + 1); glBindTexture GL_TEXTURE_2D 41;
          glActiveTexture (GL_TEXTURE0 + 2); glBindTexture GL_TEXTURE_2D 42;
          glActiveTexture GL_TEXTURE0]
  /\ glSpringBindTextures false 1 (-3) None = Some [glActiveTexture GL_TEXTURE0]
  /\ glSpringBindTextures false 0 3 (Some [41; 42]) = None
  /\ option_map (fun s => (activeUnit s, bound2D s (GL_TEXTURE0 + 1), glErrors s))
       (match glSpringBindTextures false 1 2 (Some [41; 42]) with
        | Some calls =>
            glRun (mkGLContext 2 (fun _ => true))
                  (mkTextureState (GL_TEXTURE0 + 1) (fun _ => 9) []) calls
        | None => None
        end)
     = Some (GL_TEXTURE0, 42, [GL_INVALID_ENUM]).
Proof. repeat split; vm_compute; reflexivity. Qed.

(** * The text of a shader *)

Module RenderDataBufferFacts.
Import Ascii String RenderDataBuffer.
Local Open Scope nat_scope.

Lemma runPieces_None (capacity : nat) (pieces : list string) :
  runPieces capacity pieces None = None.
Proof. induction pieces as [ | p rest IH ]; [ reflexivity | exact IH ]. Qed.

Lemma FormatShaderBase_pieces (capacity : nat) (defines globals type name : string) :
  FormatShaderBase capacity defines globals type name
  = runPieces capacity (shaderBaseHead defines globals type name ++ [LF])
              (Some (repeat zero capacity, 0)).
Proof.
  unfold FormatShaderBase, runPieces, shaderBaseHead. cbv zeta.
  rewrite !fold_left_app. reflexivity.
Qed.

Lemma skipn_repeat {A : Type} (a : A) (n m : nat) :
  skipn n (repeat a m) = repeat a (m - n).
Proof.
  revert m. induction n as [ | n IH ]; intros m.
  - rewrite Nat.sub_0_r. reflexivity.
  - destruct m as [ | m ]; [ reflexivity | ]. simpl. apply IH.
Qed.

Lemma bufferOf_short (capacity : nat) (text : list ascii) :
  List.length text < capacity ->
  bufferOf capacity text = text ++ repeat zero (capacity - List.length text).
Proof.
  intros Hlen. unfold bufferOf.
  rewrite firstn_all2 by lia. rewrite Nat.min_r by lia. reflexivity.
Qed.

(** One call that is entered with the pointer inside the buffer or at its
    end. *)
Lemma snprintf_step (capacity : nat) (written : list ascii) (text : string) :
  List.length written <= capacity ->
  snprintf capacity (bufferOf capacity written, List.length written) text
  = Some (bufferOf capacity (written ++ bytesOf text),
          List.length written + List.length (bytesOf text)).
Proof.
  intros Hlen. unfold snprintf. cbn [fst snd].
  rewrite (proj2 (Nat.ltb_ge _ _) Hlen). f_equal. f_equal.
  destruct (capacity - List.length written) as [ | room ] eqn:Hroom.
  - unfold bufferOf. rewrite firstn_app.
    replace (capacity - 1 - List.length written) with 0 by lia.
    rewrite firstn_O, app_nil_r, length_app.
    f_equal. f_equal. lia.
  - rewrite bufferOf_short by lia. rewrite Hroom.
    rewrite firstn_app, Nat.sub_diag, firstn_O, app_nil_r, firstn_all.
    rewrite skipn_app, skipn_all2 by lia. simpl app at 3.
    replace (List.length written + Nat.min room (List.length (bytesOf text)) + 1 - List.length written)
      with (S (Nat.min room (List.length (bytesOf text)))) by lia.
    unfold bufferOf. rewrite firstn_app, length_app.
    replace (capacity - 1 - List.length written) with room by lia.
    rewrite (firstn_all2 written) by lia.
    rewrite <- app_assoc. f_equal. f_equal.
    simpl skipn. rewrite skipn_repeat.
    replace (capacity - Nat.min (capacity - 1) (List.length written + List.length (bytesOf text)))
      with (S (room - Nat.min room (List.length (bytesOf text)))) by lia.
    reflexivity.
Qed.

Lemma snprintf_behind (capacity : nat) (buf : list ascii) (ptr : nat) (text : string) :
  capacity < ptr -> snprintf capacity (buf, ptr) text = None.
Proof.
  intros Hptr. unfold snprintf. cbn [fst snd].
  rewrite (proj2 (Nat.ltb_lt _ _) Hptr). reflexivity.
Qed.

Lemma lengthOf_cons (p : string) (rest : list string) :
  lengthOf (p :: rest) = List.length (bytesOf p) + lengthOf rest.
Proof. unfold lengthOf. simpl. apply length_app. Qed.

(** A chain of calls goes through when its last call is entered with the
    pointer inside the buffer or at its end, and writes behind the buffer
    otherwise. *)
Lemma runPieces_spec (capacity : nat) (pieces : list string) :
  forall written,
    (List.length written + lengthOf (removelast pieces) <= capacity ->
     runPieces capacity pieces (Some (bufferOf capacity written, List.length written))
     = Some (bufferOf capacity (written ++ List.concat (map bytesOf pieces)),
             List.length written + lengthOf pieces))
    /\ (pieces <> [] ->
        capacity < List.length written + lengthOf (removelast pieces) ->
        runPieces capacity pieces (Some (bufferOf capacity written, List.length written))
        = None).
Proof.
  induction pieces as [ | p rest IH ]; intros written.
  - split; [ | intros H; contradiction ].
    intros _. simpl. rewrite app_nil_r. unfold lengthOf. simpl.
    rewrite Nat.add_0_r. reflexivity.
  - destruct rest as [ | q rest' ].
    + split.
      * intros Hle. unfold lengthOf in Hle. simpl in Hle.
        unfold runPieces. simpl. rewrite snprintf_step by lia.
        unfold lengthOf. simpl. rewrite !app_nil_r. reflexivity.
      * intros _ Hlt. unfold lengthOf in Hlt. simpl in Hlt.
        unfold runPieces. simpl. rewrite snprintf_behind by lia. reflexivity.
    + change (removelast (p :: q :: rest')) with (p :: removelast (q :: rest')).
      rewrite !lengthOf_cons.
      change (runPieces capacity (p :: q :: rest')
                (Some (bufferOf capacity written, List.length written)))
        with (runPieces capacity (q :: rest')
                (snprintf capacity (bufferOf capacity written, List.length written) p)).
      split.
      * intros Hle. rewrite snprintf_step by lia. rewrite <- length_app.
        rewrite (proj1 (IH (written ++ bytesOf p))).
        -- rewrite length_app. change (map bytesOf (p :: q :: rest'))
             with (bytesOf p :: map bytesOf (q :: rest')).
           cbn [List.concat]. rewrite <- app_assoc, lengthOf_cons.
           f_equal. f_equal. lia.
        -- rewrite length_app. lia.
      * intros _ Hlt.
        destruct (Nat.le_gt_cases (List.length written) capacity) as [ Hin | Hout ].
        -- rewrite snprintf_step by exact Hin. rewrite <- length_app.
           apply (proj2 (IH (written ++ bytesOf p))); [ discriminate | ].
           rewrite length_app. lia.
        -- rewrite snprintf_behind by exact Hout. apply runPieces_None.
Qed.

Lemma bytesOf_append (s1 s2 : string) :
  bytesOf (s1 ++ s2)%string = bytesOf s1 ++ bytesOf s2.
Proof.
  induction s1 as [ | a s1 IH ]; simpl; [ reflexivity | ].
  unfold bytesOf in *. simpl. rewrite IH. reflexivity.
Qed.

Lemma lengthOf_app (l1 l2 : list string) :
  lengthOf (l1 ++ l2) = lengthOf l1 + lengthOf l2.
Proof.
  unfold lengthOf. rewrite map_app, concat_app, length_app. reflexivity.
Qed.

(** X18.  [FormatShaderBase] writes the head of a shader (the version, the
    extension, the defines with the name of the vertex type, the globals and
    the uniforms of the shader type, each on its lines) and returns the
    pointer behind the text.  When the text is shorter than the buffer, the
    buffer holds the whole text followed by zeros and the pointer is the end
    of the text.  When the text is as long as the buffer or one byte longer,
    the buffer holds the first [capacity - 1] bytes of the text and a
    terminator, and the pointer returned, still the length of the whole
    text, lies at or behind the end of the buffer.  When the text is longer
    still, one of the calls is made with the pointer behind the end of the
    buffer.  The text has 123 bytes beside the name, the defines, the
    globals and the uniforms. *)
Theorem FormatShaderBase_bounds (capacity : nat) (defines globals type name : string) :
  let text := shaderBaseText defines globals type name in
  FormatShaderBase capacity defines globals type name
  = (if capacity + 1 <? List.length text then None
     else Some (bufferOf capacity text, List.length text))
  /\ (List.length text < capacity ->
      FormatShaderBase capacity defines globals type name
      = Some (text ++ repeat zero (capacity - List.length text), List.length text))
  /\ (capacity <= List.length text <= capacity + 1 ->
      FormatShaderBase capacity defines globals type name
      = Some (firstn (capacity - 1) text ++ repeat zero (capacity - (capacity - 1)),
              List.length text))
  /\ List.length text
     = 123 + List.length (bytesOf name) + List.length (bytesOf defines)
       + List.length (bytesOf globals) + lengthOf (uniformsOf type).
Proof.
  intros text.
  assert (Hlen : List.length text
                 = lengthOf (shaderBaseHead defines globals type name) + 1).
  { unfold text, shaderBaseText. fold (lengthOf (shaderBaseHead defines globals type name
                                                  ++ [LF])).
    rewrite lengthOf_app. reflexivity. }
  assert (Hmain : FormatShaderBase capacity defines globals type name
                  = (if capacity + 1 <? List.length text then None
                     else Some (bufferOf capacity text, List.length text))).
  { rewrite FormatShaderBase_pieces.
    assert (Hstart : repeat zero capacity = bufferOf capacity []).
    { unfold bufferOf. rewrite firstn_nil, Nat.min_0_r, Nat.sub_0_r. reflexivity. }
    rewrite Hstart.
    pose proof (runPieces_spec capacity (shaderBaseHead defines globals type name ++ [LF])
                  []) as (Hfits & Hbehind).
    rewrite removelast_last in Hfits, Hbehind. simpl List.length in Hfits, Hbehind.
    destruct (Nat.ltb_spec (capacity + 1) (List.length text)) as [ Hlong | Hshort ].
    - apply Hbehind; [ | lia ]. intros Hnil. apply app_eq_nil in Hnil.
      destruct Hnil. discriminate.
    - rewrite Hfits by lia. cbn [app Nat.add].
      rewrite lengthOf_app. fold text. rewrite Hlen. reflexivity. }
  split; [ exact Hmain | ]. split; [ | split ].
  - intros Hshort. rewrite Hmain.
    rewrite (proj2 (Nat.ltb_ge _ _)) by lia.
    rewrite bufferOf_short by exact Hshort. reflexivity.
  - intros Hmid. rewrite Hmain.
    rewrite (proj2 (Nat.ltb_ge _ _)) by lia.
    unfold bufferOf. rewrite Nat.min_l by lia. reflexivity.
  - rewrite Hlen. unfold shaderBaseHead. rewrite lengthOf_app.
    rewrite !lengthOf_cons, !bytesOf_append, !length_app.
    generalize (List.length (bytesOf name)) (List.length (bytesOf defines))
      (List.length (bytesOf globals)) (lengthOf (uniformsOf type)).
    intros n1 n2 n3 n4. unfold lengthOf. simpl. lia.
Qed.

(** The head of the shader of the vertex type [C], whose text has 174
    bytes, in buffers of 256, 173 and 172 bytes. *)
Lemma FormatShaderBase_sample :
  option_map snd (FormatShaderBase 256 EmptyString EmptyString "VS"%string "C"%string)
  = Some 174
  /\ option_map snd (FormatShaderBase 173 EmptyString EmptyString "VS"%string "C"%string)
     = Some 174
  /\ FormatShaderBase 172 EmptyString EmptyString "VS"%string "C"%string = None.
Proof. repeat split; vm_compute; reflexivity. Qed.

End RenderDataBufferFacts.
